(** * utility_bills: meter-reading bot, parsers and billing calculator

    A shallow embedding of [main.py] and [parser_old_bill.py].

    - Python [str] values are lists of Unicode code points ([N]).
    - [decimal.Decimal] values are triples sign / coefficient / exponent and
      the arithmetic is the one of the default context of the [decimal]
      module: 28 significant digits, ROUND_HALF_EVEN,
      Emin = -999999, Emax = 999999, traps on InvalidOperation and Overflow.
    - Python exceptions are the constructors of [exn]; a function that may
      raise returns a [result]. *)

From Stdlib Require Import ZArith NArith QArith Qround Qpower Qabs Lia Bool List String Ascii.
From stdpp Require Import base option list gmap.

Local Open Scope Z_scope.

(** ** Text *)

(** A Python [str]: the sequence of its code points. *)
Abbreviation str := (list N).

(** UTF-8 decoding of the bytes of a Rocq string literal, used only to write
    the program's string constants legibly. *)
Fixpoint utf8_decode (bs : list N) : list N :=
  match bs with
  | [] => []
  | b0 :: r0 =>
    if (b0 <? 128)%N then b0 :: utf8_decode r0
    else match r0 with
    | [] => [b0]
    | b1 :: r1 =>
      if (b0 <? 224)%N then ((b0 - 192) * 64 + (b1 - 128))%N :: utf8_decode r1
      else match r1 with
      | [] => [b0]
      | b2 :: r2 =>
        if (b0 <? 240)%N
        then ((b0 - 224) * 4096 + (b1 - 128) * 64 + (b2 - 128))%N :: utf8_decode r2
        else match r2 with
        | [] => [b0]
        | b3 :: r3 =>
          ((b0 - 240) * 262144 + (b1 - 128) * 4096 + (b2 - 128) * 64 + (b3 - 128))%N
            :: utf8_decode r3
        end
      end
    end
  end.

Fixpoint string_bytes (s : string) : list N :=
  match s with
  | EmptyString => []
  | String a r => N_of_ascii a :: string_bytes r
  end.

Definition U (s : string) : str := utf8_decode (string_bytes s).

(** ** Character database

    The tables of the Unicode character database that the program reaches
    through [re] ([\s], [\d], [\w], IGNORECASE), [str.strip], [str.lower] and
    [Decimal(str)], as shipped with CPython 3.11 (Unicode 14.0.0). *)

(** The characters with decimal value zero; each starts a run of ten digits. *)
Definition decimal_zeros : list N :=
  [
   48; 1632; 1776; 1984; 2406; 2534; 2662; 2790; 2918; 3046; 3174; 3302; 3430; 3558; 3664;
   3792; 3872; 4160; 4240; 6112; 6160; 6470; 6608; 6784; 6800; 6992; 7088; 7232; 7248;
   42528; 43216; 43264; 43472; 43504; 43600; 44016; 65296; 66720; 68912; 69734; 69872;
   69942; 70096; 70384; 70736; 70864; 71248; 71360; 71472; 71904; 72016; 72784; 73040;
   73120; 92768; 92864; 93008; 120782; 120792; 120802; 120812; 120822; 123200; 123632;
   125264; 130032
  ]%N.

(** [str.isspace] and [\s] *)
Definition space_ranges : list (N * N) :=
  [
   (9, 13); (28, 32); (133, 133); (160, 160); (5760, 5760); (8192, 8202); (8232, 8233);
   (8239, 8239); (8287, 8287); (12288, 12288)
  ]%N.

(** [\w]: alphanumerics and the underscore *)
Definition word_ranges : list (N * N) :=
  [
   (48, 57); (65, 90); (95, 95); (97, 122); (170, 170); (178, 179); (181, 181); (185, 186);
   (188, 190); (192, 214); (216, 246); (248, 705); (710, 721); (736, 740); (748, 748); (750,
   750); (880, 884); (886, 887); (890, 893); (895, 895); (902, 902); (904, 906); (908, 908);
   (910, 929); (931, 1013); (1015, 1153); (1162, 1327); (1329, 1366); (1369, 1369); (1376,
   1416); (1488, 1514); (1519, 1522); (1568, 1610); (1632, 1641); (1646, 1647); (1649,
   1747); (1749, 1749); (1765, 1766); (1774, 1788); (1791, 1791); (1808, 1808); (1810,
   1839); (1869, 1957); (1969, 1969); (1984, 2026); (2036, 2037); (2042, 2042); (2048,
   2069); (2074, 2074); (2084, 2084); (2088, 2088); (2112, 2136); (2144, 2154); (2160,
   2183); (2185, 2190); (2208, 2249); (2308, 2361); (2365, 2365); (2384, 2384); (2392,
   2401); (2406, 2415); (2417, 2432); (2437, 2444); (2447, 2448); (2451, 2472); (2474,
   2480); (2482, 2482); (2486, 2489); (2493, 2493); (2510, 2510); (2524, 2525); (2527,
   2529); (2534, 2545); (2548, 2553); (2556, 2556); (2565, 2570); (2575, 2576); (2579,
   2600); (2602, 2608); (2610, 2611); (2613, 2614); (2616, 2617); (2649, 2652); (2654,
   2654); (2662, 2671); (2674, 2676); (2693, 2701); (2703, 2705); (2707, 2728); (2730,
   2736); (2738, 2739); (2741, 2745); (2749, 2749); (2768, 2768); (2784, 2785); (2790,
   2799); (2809, 2809); (2821, 2828); (2831, 2832); (2835, 2856); (2858, 2864); (2866,
   2867); (2869, 2873); (2877, 2877); (2908, 2909); (2911, 2913); (2918, 2927); (2929,
   2935); (2947, 2947); (2949, 2954); (2958, 2960); (2962, 2965); (2969, 2970); (2972,
   2972); (2974, 2975); (2979, 2980); (2984, 2986); (2990, 3001); (3024, 3024); (3046,
   3058); (3077, 3084); (3086, 3088); (3090, 3112); (3114, 3129); (3133, 3133); (3160,
   3162); (3165, 3165); (3168, 3169); (3174, 3183); (3192, 3198); (3200, 3200); (3205,
   3212); (3214, 3216); (3218, 3240); (3242, 3251); (3253, 3257); (3261, 3261); (3293,
   3294); (3296, 3297); (3302, 3311); (3313, 3314); (3332, 3340); (3342, 3344); (3346,
   3386); (3389, 3389); (3406, 3406); (3412, 3414); (3416, 3425); (3430, 3448); (3450,
   3455); (3461, 3478); (3482, 3505); (3507, 3515); (3517, 3517); (3520, 3526); (3558,
   3567); (3585, 3632); (3634, 3635); (3648, 3654); (3664, 3673); (3713, 3714); (3716,
   3716); (3718, 3722); (3724, 3747); (3749, 3749); (3751, 3760); (3762, 3763); (3773,
   3773); (3776, 3780); (3782, 3782); (3792, 3801); (3804, 3807); (3840, 3840); (3872,
   3891); (3904, 3911); (3913, 3948); (3976, 3980); (4096, 4138); (4159, 4169); (4176,
   4181); (4186, 4189); (4193, 4193); (4197, 4198); (4206, 4208); (4213, 4225); (4238,
   4238); (4240, 4249); (4256, 4293); (4295, 4295); (4301, 4301); (4304, 4346); (4348,
   4680); (4682, 4685); (4688, 4694); (4696, 4696); (4698, 4701); (4704, 4744); (4746,
   4749); (4752, 4784); (4786, 4789); (4792, 4798); (4800, 4800); (4802, 4805); (4808,
   4822); (4824, 4880); (4882, 4885); (4888, 4954); (4969, 4988); (4992, 5007); (5024,
   5109); (5112, 5117); (5121, 5740); (5743, 5759); (5761, 5786); (5792, 5866); (5870,
   5880); (5888, 5905); (5919, 5937); (5952, 5969); (5984, 5996); (5998, 6000); (6016,
   6067); (6103, 6103); (6108, 6108); (6112, 6121); (6128, 6137); (6160, 6169); (6176,
   6264); (6272, 6276); (6279, 6312); (6314, 6314); (6320, 6389); (6400, 6430); (6470,
   6509); (6512, 6516); (6528, 6571); (6576, 6601); (6608, 6618); (6656, 6678); (6688,
   6740); (6784, 6793); (6800, 6809); (6823, 6823); (6917, 6963); (6981, 6988); (6992,
   7001); (7043, 7072); (7086, 7141); (7168, 7203); (7232, 7241); (7245, 7293); (7296,
   7304); (7312, 7354); (7357, 7359); (7401, 7404); (7406, 7411); (7413, 7414); (7418,
   7418); (7424, 7615); (7680, 7957); (7960, 7965); (7968, 8005); (8008, 8013); (8016,
   8023); (8025, 8025); (8027, 8027); (8029, 8029); (8031, 8061); (8064, 8116); (8118,
   8124); (8126, 8126); (8130, 8132); (8134, 8140); (8144, 8147); (8150, 8155); (8160,
   8172); (8178, 8180); (8182, 8188); (8304, 8305); (8308, 8313); (8319, 8329); (8336,
   8348); (8450, 8450); (8455, 8455); (8458, 8467); (8469, 8469); (8473, 8477); (8484,
   8484); (8486, 8486); (8488, 8488); (8490, 8493); (8495, 8505); (8508, 8511); (8517,
   8521); (8526, 8526); (8528, 8585); (9312, 9371); (9450, 9471); (10102, 10131); (11264,
   11492); (11499, 11502); (11506, 11507); (11517, 11517); (11520, 11557); (11559, 11559);
   (11565, 11565); (11568, 11623); (11631, 11631); (11648, 11670); (11680, 11686); (11688,
   11694); (11696, 11702); (11704, 11710); (11712, 11718); (11720, 11726); (11728, 11734);
   (11736, 11742); (11823, 11823); (12293, 12295); (12321, 12329); (12337, 12341); (12344,
   12348); (12353, 12438); (12445, 12447); (12449, 12538); (12540, 12543); (12549, 12591);
   (12593, 12686); (12690, 12693); (12704, 12735); (12784, 12799); (12832, 12841); (12872,
   12879); (12881, 12895); (12928, 12937); (12977, 12991); (13312, 19903); (19968, 42124);
   (42192, 42237); (42240, 42508); (42512, 42539); (42560, 42606); (42623, 42653); (42656,
   42735); (42775, 42783); (42786, 42888); (42891, 42954); (42960, 42961); (42963, 42963);
   (42965, 42969); (42994, 43009); (43011, 43013); (43015, 43018); (43020, 43042); (43056,
   43061); (43072, 43123); (43138, 43187); (43216, 43225); (43250, 43255); (43259, 43259);
   (43261, 43262); (43264, 43301); (43312, 43334); (43360, 43388); (43396, 43442); (43471,
   43481); (43488, 43492); (43494, 43518); (43520, 43560); (43584, 43586); (43588, 43595);
   (43600, 43609); (43616, 43638); (43642, 43642); (43646, 43695); (43697, 43697); (43701,
   43702); (43705, 43709); (43712, 43712); (43714, 43714); (43739, 43741); (43744, 43754);
   (43762, 43764); (43777, 43782); (43785, 43790); (43793, 43798); (43808, 43814); (43816,
   43822); (43824, 43866); (43868, 43881); (43888, 44002); (44016, 44025); (44032, 55203);
   (55216, 55238); (55243, 55291); (63744, 64109); (64112, 64217); (64256, 64262); (64275,
   64279); (64285, 64285); (64287, 64296); (64298, 64310); (64312, 64316); (64318, 64318);
   (64320, 64321); (64323, 64324); (64326, 64433); (64467, 64829); (64848, 64911); (64914,
   64967); (65008, 65019); (65136, 65140); (65142, 65276); (65296, 65305); (65313, 65338);
   (65345, 65370); (65382, 65470); (65474, 65479); (65482, 65487); (65490, 65495); (65498,
   65500); (65536, 65547); (65549, 65574); (65576, 65594); (65596, 65597); (65599, 65613);
   (65616, 65629); (65664, 65786); (65799, 65843); (65856, 65912); (65930, 65931); (66176,
   66204); (66208, 66256); (66273, 66299); (66304, 66339); (66349, 66378); (66384, 66421);
   (66432, 66461); (66464, 66499); (66504, 66511); (66513, 66517); (66560, 66717); (66720,
   66729); (66736, 66771); (66776, 66811); (66816, 66855); (66864, 66915); (66928, 66938);
   (66940, 66954); (66956, 66962); (66964, 66965); (66967, 66977); (66979, 66993); (66995,
   67001); (67003, 67004); (67072, 67382); (67392, 67413); (67424, 67431); (67456, 67461);
   (67463, 67504); (67506, 67514); (67584, 67589); (67592, 67592); (67594, 67637); (67639,
   67640); (67644, 67644); (67647, 67669); (67672, 67702); (67705, 67742); (67751, 67759);
   (67808, 67826); (67828, 67829); (67835, 67867); (67872, 67897); (67968, 68023); (68028,
   68047); (68050, 68096); (68112, 68115); (68117, 68119); (68121, 68149); (68160, 68168);
   (68192, 68222); (68224, 68255); (68288, 68295); (68297, 68324); (68331, 68335); (68352,
   68405); (68416, 68437); (68440, 68466); (68472, 68497); (68521, 68527); (68608, 68680);
   (68736, 68786); (68800, 68850); (68858, 68899); (68912, 68921); (69216, 69246); (69248,
   69289); (69296, 69297); (69376, 69415); (69424, 69445); (69457, 69460); (69488, 69505);
   (69552, 69579); (69600, 69622); (69635, 69687); (69714, 69743); (69745, 69746); (69749,
   69749); (69763, 69807); (69840, 69864); (69872, 69881); (69891, 69926); (69942, 69951);
   (69956, 69956); (69959, 69959); (69968, 70002); (70006, 70006); (70019, 70066); (70081,
   70084); (70096, 70106); (70108, 70108); (70113, 70132); (70144, 70161); (70163, 70187);
   (70272, 70278); (70280, 70280); (70282, 70285); (70287, 70301); (70303, 70312); (70320,
   70366); (70384, 70393); (70405, 70412); (70415, 70416); (70419, 70440); (70442, 70448);
   (70450, 70451); (70453, 70457); (70461, 70461); (70480, 70480); (70493, 70497); (70656,
   70708); (70727, 70730); (70736, 70745); (70751, 70753); (70784, 70831); (70852, 70853);
   (70855, 70855); (70864, 70873); (71040, 71086); (71128, 71131); (71168, 71215); (71236,
   71236); (71248, 71257); (71296, 71338); (71352, 71352); (71360, 71369); (71424, 71450);
   (71472, 71483); (71488, 71494); (71680, 71723); (71840, 71922); (71935, 71942); (71945,
   71945); (71948, 71955); (71957, 71958); (71960, 71983); (71999, 71999); (72001, 72001);
   (72016, 72025); (72096, 72103); (72106, 72144); (72161, 72161); (72163, 72163); (72192,
   72192); (72203, 72242); (72250, 72250); (72272, 72272); (72284, 72329); (72349, 72349);
   (72368, 72440); (72704, 72712); (72714, 72750); (72768, 72768); (72784, 72812); (72818,
   72847); (72960, 72966); (72968, 72969); (72971, 73008); (73030, 73030); (73040, 73049);
   (73056, 73061); (73063, 73064); (73066, 73097); (73112, 73112); (73120, 73129); (73440,
   73458); (73648, 73648); (73664, 73684); (73728, 74649); (74752, 74862); (74880, 75075);
   (77712, 77808); (77824, 78894); (82944, 83526); (92160, 92728); (92736, 92766); (92768,
   92777); (92784, 92862); (92864, 92873); (92880, 92909); (92928, 92975); (92992, 92995);
   (93008, 93017); (93019, 93025); (93027, 93047); (93053, 93071); (93760, 93846); (93952,
   94026); (94032, 94032); (94099, 94111); (94176, 94177); (94179, 94179); (94208, 100343);
   (100352, 101589); (101632, 101640); (110576, 110579); (110581, 110587); (110589, 110590);
   (110592, 110882); (110928, 110930); (110948, 110951); (110960, 111355); (113664, 113770);
   (113776, 113788); (113792, 113800); (113808, 113817); (119520, 119539); (119648, 119672);
   (119808, 119892); (119894, 119964); (119966, 119967); (119970, 119970); (119973, 119974);
   (119977, 119980); (119982, 119993); (119995, 119995); (119997, 120003); (120005, 120069);
   (120071, 120074); (120077, 120084); (120086, 120092); (120094, 120121); (120123, 120126);
   (120128, 120132); (120134, 120134); (120138, 120144); (120146, 120485); (120488, 120512);
   (120514, 120538); (120540, 120570); (120572, 120596); (120598, 120628); (120630, 120654);
   (120656, 120686); (120688, 120712); (120714, 120744); (120746, 120770); (120772, 120779);
   (120782, 120831); (122624, 122654); (123136, 123180); (123191, 123197); (123200, 123209);
   (123214, 123214); (123536, 123565); (123584, 123627); (123632, 123641); (124896, 124902);
   (124904, 124907); (124909, 124910); (124912, 124926); (124928, 125124); (125127, 125135);
   (125184, 125251); (125259, 125259); (125264, 125273); (126065, 126123); (126125, 126127);
   (126129, 126132); (126209, 126253); (126255, 126269); (126464, 126467); (126469, 126495);
   (126497, 126498); (126500, 126500); (126503, 126503); (126505, 126514); (126516, 126519);
   (126521, 126521); (126523, 126523); (126530, 126530); (126535, 126535); (126537, 126537);
   (126539, 126539); (126541, 126543); (126545, 126546); (126548, 126548); (126551, 126551);
   (126553, 126553); (126555, 126555); (126557, 126557); (126559, 126559); (126561, 126562);
   (126564, 126564); (126567, 126570); (126572, 126578); (126580, 126583); (126585, 126588);
   (126590, 126590); (126592, 126601); (126603, 126619); (126625, 126627); (126629, 126633);
   (126635, 126651); (127232, 127244); (130032, 130041); (131072, 173791); (173824, 177976);
   (177984, 178205); (178208, 183969); (183984, 191456); (194560, 195101); (196608, 201546)
  ]%N.

(** Simple lower-case mapping: a run [(first, last, step, target)] maps
    [first + i * step] to [target + i * step]. *)
Definition lower_runs : list (N * N * N * N) :=
  [
   (65, 90, 1, 97); (192, 214, 1, 224); (216, 222, 1, 248); (256, 302, 2, 257); (306, 310,
   2, 307); (313, 327, 2, 314); (330, 374, 2, 331); (376, 376, 1, 255); (377, 381, 2, 378);
   (385, 385, 1, 595); (386, 388, 2, 387); (390, 390, 1, 596); (391, 391, 1, 392); (393,
   394, 1, 598); (395, 395, 1, 396); (398, 398, 1, 477); (399, 399, 1, 601); (400, 400, 1,
   603); (401, 401, 1, 402); (403, 403, 1, 608); (404, 404, 1, 611); (406, 406, 1, 617);
   (407, 407, 1, 616); (408, 408, 1, 409); (412, 412, 1, 623); (413, 413, 1, 626); (415,
   415, 1, 629); (416, 420, 2, 417); (422, 422, 1, 640); (423, 423, 1, 424); (425, 425, 1,
   643); (428, 428, 1, 429); (430, 430, 1, 648); (431, 431, 1, 432); (433, 434, 1, 650);
   (435, 437, 2, 436); (439, 439, 1, 658); (440, 440, 1, 441); (444, 444, 1, 445); (452,
   452, 1, 454); (453, 453, 1, 454); (455, 455, 1, 457); (456, 456, 1, 457); (458, 458, 1,
   460); (459, 475, 2, 460); (478, 494, 2, 479); (497, 497, 1, 499); (498, 500, 2, 499);
   (502, 502, 1, 405); (503, 503, 1, 447); (504, 542, 2, 505); (544, 544, 1, 414); (546,
   562, 2, 547); (570, 570, 1, 11365); (571, 571, 1, 572); (573, 573, 1, 410); (574, 574, 1,
   11366); (577, 577, 1, 578); (579, 579, 1, 384); (580, 580, 1, 649); (581, 581, 1, 652);
   (582, 590, 2, 583); (880, 882, 2, 881); (886, 886, 1, 887); (895, 895, 1, 1011); (902,
   902, 1, 940); (904, 906, 1, 941); (908, 908, 1, 972); (910, 911, 1, 973); (913, 929, 1,
   945); (931, 939, 1, 963); (975, 975, 1, 983); (984, 1006, 2, 985); (1012, 1012, 1, 952);
   (1015, 1015, 1, 1016); (1017, 1017, 1, 1010); (1018, 1018, 1, 1019); (1021, 1023, 1,
   891); (1024, 1039, 1, 1104); (1040, 1071, 1, 1072); (1120, 1152, 2, 1121); (1162, 1214,
   2, 1163); (1216, 1216, 1, 1231); (1217, 1229, 2, 1218); (1232, 1326, 2, 1233); (1329,
   1366, 1, 1377); (4256, 4293, 1, 11520); (4295, 4295, 1, 11559); (4301, 4301, 1, 11565);
   (5024, 5103, 1, 43888); (5104, 5109, 1, 5112); (7312, 7354, 1, 4304); (7357, 7359, 1,
   4349); (7680, 7828, 2, 7681); (7838, 7838, 1, 223); (7840, 7934, 2, 7841); (7944, 7951,
   1, 7936); (7960, 7965, 1, 7952); (7976, 7983, 1, 7968); (7992, 7999, 1, 7984); (8008,
   8013, 1, 8000); (8025, 8031, 2, 8017); (8040, 8047, 1, 8032); (8072, 8079, 1, 8064);
   (8088, 8095, 1, 8080); (8104, 8111, 1, 8096); (8120, 8121, 1, 8112); (8122, 8123, 1,
   8048); (8124, 8124, 1, 8115); (8136, 8139, 1, 8050); (8140, 8140, 1, 8131); (8152, 8153,
   1, 8144); (8154, 8155, 1, 8054); (8168, 8169, 1, 8160); (8170, 8171, 1, 8058); (8172,
   8172, 1, 8165); (8184, 8185, 1, 8056); (8186, 8187, 1, 8060); (8188, 8188, 1, 8179);
   (8486, 8486, 1, 969); (8490, 8490, 1, 107); (8491, 8491, 1, 229); (8498, 8498, 1, 8526);
   (8544, 8559, 1, 8560); (8579, 8579, 1, 8580); (9398, 9423, 1, 9424); (11264, 11311, 1,
   11312); (11360, 11360, 1, 11361); (11362, 11362, 1, 619); (11363, 11363, 1, 7549);
   (11364, 11364, 1, 637); (11367, 11371, 2, 11368); (11373, 11373, 1, 593); (11374, 11374,
   1, 625); (11375, 11375, 1, 592); (11376, 11376, 1, 594); (11378, 11378, 1, 11379);
   (11381, 11381, 1, 11382); (11390, 11391, 1, 575); (11392, 11490, 2, 11393); (11499,
   11501, 2, 11500); (11506, 11506, 1, 11507); (42560, 42604, 2, 42561); (42624, 42650, 2,
   42625); (42786, 42798, 2, 42787); (42802, 42862, 2, 42803); (42873, 42875, 2, 42874);
   (42877, 42877, 1, 7545); (42878, 42886, 2, 42879); (42891, 42891, 1, 42892); (42893,
   42893, 1, 613); (42896, 42898, 2, 42897); (42902, 42920, 2, 42903); (42922, 42922, 1,
   614); (42923, 42923, 1, 604); (42924, 42924, 1, 609); (42925, 42925, 1, 620); (42926,
   42926, 1, 618); (42928, 42928, 1, 670); (42929, 42929, 1, 647); (42930, 42930, 1, 669);
   (42931, 42931, 1, 43859); (42932, 42946, 2, 42933); (42948, 42948, 1, 42900); (42949,
   42949, 1, 642); (42950, 42950, 1, 7566); (42951, 42953, 2, 42952); (42960, 42960, 1,
   42961); (42966, 42968, 2, 42967); (42997, 42997, 1, 42998); (65313, 65338, 1, 65345);
   (66560, 66599, 1, 66600); (66736, 66771, 1, 66776); (66928, 66938, 1, 66967); (66940,
   66954, 1, 66979); (66956, 66962, 1, 66995); (66964, 66965, 1, 67003); (68736, 68786, 1,
   68800); (71840, 71871, 1, 71872); (93760, 93791, 1, 93792); (125184, 125217, 1, 125218)
  ]%N.

(** The code points with the property Case_Ignorable. *)
Definition case_ignorable_ranges : list (N * N) :=
  [(39, 39); (46, 46); (58, 58); (94, 94); (96, 96); (168, 168); (173, 173); (175, 175);
   (180, 180); (183, 184); (688, 879); (884, 885); (890, 890); (900, 901); (903, 903);
   (1155, 1161); (1369, 1369); (1375, 1375); (1425, 1469); (1471, 1471); (1473, 1474);
   (1476, 1477); (1479, 1479); (1524, 1524); (1536, 1541); (1552, 1562); (1564, 1564);
   (1600, 1600); (1611, 1631); (1648, 1648); (1750, 1757); (1759, 1768); (1770, 1773);
   (1807, 1807); (1809, 1809); (1840, 1866); (1958, 1968); (2027, 2037); (2042, 2042);
   (2045, 2045); (2070, 2093); (2137, 2139); (2184, 2184); (2192, 2193); (2200, 2207);
   (2249, 2306); (2362, 2362); (2364, 2364); (2369, 2376); (2381, 2381); (2385, 2391);
   (2402, 2403); (2417, 2417); (2433, 2433); (2492, 2492); (2497, 2500); (2509, 2509);
   (2530, 2531); (2558, 2558); (2561, 2562); (2620, 2620); (2625, 2626); (2631, 2632);
   (2635, 2637); (2641, 2641); (2672, 2673); (2677, 2677); (2689, 2690); (2748, 2748);
   (2753, 2757); (2759, 2760); (2765, 2765); (2786, 2787); (2810, 2815); (2817, 2817);
   (2876, 2876); (2879, 2879); (2881, 2884); (2893, 2893); (2901, 2902); (2914, 2915);
   (2946, 2946); (3008, 3008); (3021, 3021); (3072, 3072); (3076, 3076); (3132, 3132);
   (3134, 3136); (3142, 3144); (3146, 3149); (3157, 3158); (3170, 3171); (3201, 3201);
   (3260, 3260); (3263, 3263); (3270, 3270); (3276, 3277); (3298, 3299); (3328, 3329);
   (3387, 3388); (3393, 3396); (3405, 3405); (3426, 3427); (3457, 3457); (3530, 3530);
   (3538, 3540); (3542, 3542); (3633, 3633); (3636, 3642); (3654, 3662); (3761, 3761);
   (3764, 3772); (3782, 3782); (3784, 3789); (3864, 3865); (3893, 3893); (3895, 3895);
   (3897, 3897); (3953, 3966); (3968, 3972); (3974, 3975); (3981, 3991); (3993, 4028);
   (4038, 4038); (4141, 4144); (4146, 4151); (4153, 4154); (4157, 4158); (4184, 4185);
   (4190, 4192); (4209, 4212); (4226, 4226); (4229, 4230); (4237, 4237); (4253, 4253);
   (4348, 4348); (4957, 4959); (5906, 5908); (5938, 5939); (5970, 5971); (6002, 6003);
   (6068, 6069); (6071, 6077); (6086, 6086); (6089, 6099); (6103, 6103); (6109, 6109);
   (6155, 6159); (6211, 6211); (6277, 6278); (6313, 6313); (6432, 6434); (6439, 6440);
   (6450, 6450); (6457, 6459); (6679, 6680); (6683, 6683); (6742, 6742); (6744, 6750);
   (6752, 6752); (6754, 6754); (6757, 6764); (6771, 6780); (6783, 6783); (6823, 6823);
   (6832, 6862); (6912, 6915); (6964, 6964); (6966, 6970); (6972, 6972); (6978, 6978);
   (7019, 7027); (7040, 7041); (7074, 7077); (7080, 7081); (7083, 7085); (7142, 7142);
   (7144, 7145); (7149, 7149); (7151, 7153); (7212, 7219); (7222, 7223); (7288, 7293);
   (7376, 7378); (7380, 7392); (7394, 7400); (7405, 7405); (7412, 7412); (7416, 7417);
   (7468, 7530); (7544, 7544); (7579, 7679); (8125, 8125); (8127, 8129); (8141, 8143);
   (8157, 8159); (8173, 8175); (8189, 8190); (8203, 8207); (8216, 8217); (8228, 8228);
   (8231, 8231); (8234, 8238); (8288, 8292); (8294, 8303); (8305, 8305); (8319, 8319);
   (8336, 8348); (8400, 8432); (11388, 11389); (11503, 11505); (11631, 11631); (11647, 11647);
   (11744, 11775); (11823, 11823); (12293, 12293); (12330, 12333); (12337, 12341);
   (12347, 12347); (12441, 12446); (12540, 12542); (40981, 40981); (42232, 42237);
   (42508, 42508); (42607, 42610); (42612, 42621); (42623, 42623); (42652, 42655);
   (42736, 42737); (42752, 42785); (42864, 42864); (42888, 42890); (42994, 42996);
   (43000, 43001); (43010, 43010); (43014, 43014); (43019, 43019); (43045, 43046);
   (43052, 43052); (43204, 43205); (43232, 43249); (43263, 43263); (43302, 43309);
   (43335, 43345); (43392, 43394); (43443, 43443); (43446, 43449); (43452, 43453);
   (43471, 43471); (43493, 43494); (43561, 43566); (43569, 43570); (43573, 43574);
   (43587, 43587); (43596, 43596); (43632, 43632); (43644, 43644); (43696, 43696);
   (43698, 43700); (43703, 43704); (43710, 43711); (43713, 43713); (43741, 43741);
   (43756, 43757); (43763, 43764); (43766, 43766); (43867, 43871); (43881, 43883);
   (44005, 44005); (44008, 44008); (44013, 44013); (64286, 64286); (64434, 64450);
   (65024, 65039); (65043, 65043); (65056, 65071); (65106, 65106); (65109, 65109);
   (65279, 65279); (65287, 65287); (65294, 65294); (65306, 65306); (65342, 65342);
   (65344, 65344); (65392, 65392); (65438, 65439); (65507, 65507); (65529, 65531);
   (66045, 66045); (66272, 66272); (66422, 66426); (67456, 67461); (67463, 67504);
   (67506, 67514); (68097, 68099); (68101, 68102); (68108, 68111); (68152, 68154);
   (68159, 68159); (68325, 68326); (68900, 68903); (69291, 69292); (69446, 69456);
   (69506, 69509); (69633, 69633); (69688, 69702); (69744, 69744); (69747, 69748);
   (69759, 69761); (69811, 69814); (69817, 69818); (69821, 69821); (69826, 69826);
   (69837, 69837); (69888, 69890); (69927, 69931); (69933, 69940); (70003, 70003);
   (70016, 70017); (70070, 70078); (70089, 70092); (70095, 70095); (70191, 70193);
   (70196, 70196); (70198, 70199); (70206, 70206); (70367, 70367); (70371, 70378);
   (70400, 70401); (70459, 70460); (70464, 70464); (70502, 70508); (70512, 70516);
   (70712, 70719); (70722, 70724); (70726, 70726); (70750, 70750); (70835, 70840);
   (70842, 70842); (70847, 70848); (70850, 70851); (71090, 71093); (71100, 71101);
   (71103, 71104); (71132, 71133); (71219, 71226); (71229, 71229); (71231, 71232);
   (71339, 71339); (71341, 71341); (71344, 71349); (71351, 71351); (71453, 71455);
   (71458, 71461); (71463, 71467); (71727, 71735); (71737, 71738); (71995, 71996);
   (71998, 71998); (72003, 72003); (72148, 72151); (72154, 72155); (72160, 72160);
   (72193, 72202); (72243, 72248); (72251, 72254); (72263, 72263); (72273, 72278);
   (72281, 72283); (72330, 72342); (72344, 72345); (72752, 72758); (72760, 72765);
   (72767, 72767); (72850, 72871); (72874, 72880); (72882, 72883); (72885, 72886);
   (73009, 73014); (73018, 73018); (73020, 73021); (73023, 73029); (73031, 73031);
   (73104, 73105); (73109, 73109); (73111, 73111); (73459, 73460); (78896, 78904);
   (92912, 92916); (92976, 92982); (92992, 92995); (94031, 94031); (94095, 94111);
   (94176, 94177); (94179, 94180); (110576, 110579); (110581, 110587); (110589, 110590);
   (113821, 113822); (113824, 113827); (118528, 118573); (118576, 118598); (119143, 119145);
   (119155, 119170); (119173, 119179); (119210, 119213); (119362, 119364); (121344, 121398);
   (121403, 121452); (121461, 121461); (121476, 121476); (121499, 121503); (121505, 121519);
   (122880, 122886); (122888, 122904); (122907, 122913); (122915, 122916); (122918, 122922);
   (123184, 123197); (123566, 123566); (123628, 123631); (125136, 125142); (125252, 125259);
   (127995, 127999); (917505, 917505); (917536, 917631); (917760, 917999)]%N.

(** The code points with the property Cased. *)
Definition cased_ranges : list (N * N) :=
  [(65, 90); (97, 122); (170, 170); (181, 181); (186, 186); (192, 214); (216, 246);
   (248, 442); (444, 447); (452, 659); (661, 696); (704, 705); (736, 740); (837, 837);
   (880, 883); (886, 887); (890, 893); (895, 895); (902, 902); (904, 906); (908, 908);
   (910, 929); (931, 1013); (1015, 1153); (1162, 1327); (1329, 1366); (1376, 1416);
   (4256, 4293); (4295, 4295); (4301, 4301); (4304, 4346); (4349, 4351); (5024, 5109);
   (5112, 5117); (7296, 7304); (7312, 7354); (7357, 7359); (7424, 7615); (7680, 7957);
   (7960, 7965); (7968, 8005); (8008, 8013); (8016, 8023); (8025, 8025); (8027, 8027);
   (8029, 8029); (8031, 8061); (8064, 8116); (8118, 8124); (8126, 8126); (8130, 8132);
   (8134, 8140); (8144, 8147); (8150, 8155); (8160, 8172); (8178, 8180); (8182, 8188);
   (8305, 8305); (8319, 8319); (8336, 8348); (8450, 8450); (8455, 8455); (8458, 8467);
   (8469, 8469); (8473, 8477); (8484, 8484); (8486, 8486); (8488, 8488); (8490, 8493);
   (8495, 8500); (8505, 8505); (8508, 8511); (8517, 8521); (8526, 8526); (8544, 8575);
   (8579, 8580); (9398, 9449); (11264, 11492); (11499, 11502); (11506, 11507); (11520, 11557);
   (11559, 11559); (11565, 11565); (42560, 42605); (42624, 42653); (42786, 42887);
   (42891, 42894); (42896, 42954); (42960, 42961); (42963, 42963); (42965, 42969);
   (42997, 42998); (43000, 43002); (43824, 43866); (43868, 43880); (43888, 43967);
   (64256, 64262); (64275, 64279); (65313, 65338); (65345, 65370); (66560, 66639);
   (66736, 66771); (66776, 66811); (66928, 66938); (66940, 66954); (66956, 66962);
   (66964, 66965); (66967, 66977); (66979, 66993); (66995, 67001); (67003, 67004);
   (67456, 67456); (67459, 67461); (67463, 67504); (67506, 67514); (68736, 68786);
   (68800, 68850); (71840, 71903); (93760, 93823); (119808, 119892); (119894, 119964);
   (119966, 119967); (119970, 119970); (119973, 119974); (119977, 119980); (119982, 119993);
   (119995, 119995); (119997, 120003); (120005, 120069); (120071, 120074); (120077, 120084);
   (120086, 120092); (120094, 120121); (120123, 120126); (120128, 120132); (120134, 120134);
   (120138, 120144); (120146, 120485); (120488, 120512); (120514, 120538); (120540, 120570);
   (120572, 120596); (120598, 120628); (120630, 120654); (120656, 120686); (120688, 120712);
   (120714, 120744); (120746, 120770); (120772, 120779); (122624, 122633); (122635, 122654);
   (125184, 125251); (127280, 127305); (127312, 127337); (127344, 127369)]%N.

(** For each cased letter that occurs literally in one of the program's
    patterns, the characters that match it under [re.IGNORECASE]. *)
Definition ignorecase_classes : list (N * list N) :=
  [
   (97, [65; 97]); (101, [69; 101]); (114, [82; 114]); (116, [84; 116]); (1041, [1041;
   1073]); (1042, [1042; 1074; 7296]); (1043, [1043; 1075]); (1048, [1048; 1080]); (1057,
   [1057; 1089; 7299]); (1061, [1061; 1093]); (1069, [1069; 1101]); (1072, [1040; 1072]);
   (1074, [1042; 1074; 7296]); (1075, [1043; 1075]); (1076, [1044; 1076; 7297]); (1077,
   [1045; 1077]); (1080, [1048; 1080]); (1082, [1050; 1082]); (1083, [1051; 1083]); (1085,
   [1053; 1085]); (1086, [1054; 1086; 7298]); (1088, [1056; 1088]); (1089, [1057; 1089;
   7299]); (1090, [1058; 1090; 7300; 7301]); (1095, [1063; 1095]); (1099, [1067; 1099]);
   (1101, [1069; 1101]); (1103, [1071; 1103])
  ]%N.

Definition in_ranges (rs : list (N * N)) (c : N) : bool :=
  existsb (fun r => (fst r <=? c)%N && (c <=? snd r)%N) rs.

(** [Py_UNICODE_TODECIMAL]: the digit value of a decimal character. *)
Definition todecimal (c : N) : option N :=
  match List.find (fun z => (z <=? c)%N && (c <? z + 10)%N) decimal_zeros with
  | Some z => Some (c - z)%N
  | None => None
  end.

Definition is_decimal (c : N) : bool :=
  match todecimal c with Some _ => true | None => false end.
Definition is_space (c : N) : bool := in_ranges space_ranges c.
Definition is_word (c : N) : bool := in_ranges word_ranges c.
Definition is_ascii_digit (c : N) : bool := (48 <=? c)%N && (c <=? 57)%N.

Definition lower_char (c : N) : N :=
  match List.find (fun r => match r with (a, b, st, _) =>
                     (a <=? c)%N && (c <=? b)%N && ((c - a) mod st =? 0)%N end) lower_runs with
  | Some (a, _, _, t) => (t + (c - a))%N
  | None => c
  end.

Definition is_case_ignorable (c : N) : bool := in_ranges case_ignorable_ranges c.
Definition is_cased (c : N) : bool := in_ranges cased_ranges c.

(** The first character of [s] that is not case-ignorable. *)
Fixpoint skip_ignorable (s : str) : option N :=
  match s with
  | c :: r => if is_case_ignorable c then skip_ignorable r else Some c
  | [] => None
  end.

(** The context test of [str.lower] for a capital sigma: it is final when a
    cased letter precedes it and none follows, case-ignorable characters
    skipped on both sides.  [before] is the text before it, reversed. *)
Definition final_sigma (before after : str) : bool :=
  match skip_ignorable before with
  | Some c =>
    is_cased c && match skip_ignorable after with
                  | Some d => negb (is_cased d)
                  | None => true
                  end
  | None => false
  end.

Fixpoint lower_from (before s : str) : str :=
  match s with
  | c :: r =>
    (if (c =? 931)%N then [if final_sigma before r then 962%N else 963%N]
     else if (c =? 304)%N then [105; 775]%N
     else [lower_char c]) ++ lower_from (c :: before) r
  | [] => []
  end.

(** [str.lower]: the full lower-case mapping, whose one expanding case is
    U+0130 (to i followed by U+0307), and the final form of the sigma. *)
Definition str_lower (s : str) : str := lower_from [] s.

(** ** Exceptions and results *)

Inductive exn : Type :=
| ValueError (msg : str)
| AttributeError (msg : str)
| ValidationError (errors : list (str * str))   (* pydantic: (location, error type) *)
| InvalidOperation                              (* decimal.InvalidOperation *)
| Overflow.                                     (* decimal.Overflow *)

Inductive result (A : Type) : Type :=
| Ok (a : A)
| Raise (e : exn).
Arguments Ok {A} a.
Arguments Raise {A} e.

Definition bind {A B} (m : result A) (k : A -> result B) : result B :=
  match m with
  | Ok a => k a
  | Raise e => Raise e
  end.

Notation "'let*' x ':=' m 'in' k" := (bind m (fun x => k))
  (at level 10, x pattern, m at level 100, k at level 200).

(** ** Decimal numbers *)

(** A finite [Decimal]: [(-1)^dsign * dint * 10^dexp].  The coefficient is the
    integer that Python keeps as the digit string [_int]. *)
Record Dec : Type := mkDec { dsign : bool; dint : N; dexp : Z }.

Definition prec : Z := 28.
Definition Emax : Z := 999999.
Definition Emin : Z := -999999.
Definition Etiny : Z := Emin - prec + 1.
Definition Etop : Z := Emax - prec + 1.

(** Decimal digits of a coefficient, most significant first, as code points
    ([48] is the character 0).  [digits_of 0 = [48]]. *)
Fixpoint digits_fuel (fuel : nat) (n : N) (acc : list N) : list N :=
  match fuel with
  | O => acc
  | S f =>
    let acc' := (48 + n mod 10)%N :: acc in
    if (n <? 10)%N then acc' else digits_fuel f (n / 10)%N acc'
  end.

Definition digits_of (n : N) : str := digits_fuel (S (N.to_nat (N.log2 n))) n [].

(** [len(self._int)] *)
Definition ndigits (n : N) : Z := Z.of_nat (length (digits_of n)).

(** [self.adjusted()] *)
Definition adjusted (d : Dec) : Z := dexp d + ndigits (dint d) - 1.

Inductive rounding : Type := ROUND_HALF_UP | ROUND_HALF_EVEN.

(** Drop the last [k] digits of coefficient [c], rounding the magnitude. *)
Definition round_coef (r : rounding) (c : N) (k : N) : N :=
  let p := (10 ^ k)%N in
  let q := (c / p)%N in
  let m := (c mod p)%N in
  match r with
  | ROUND_HALF_UP => if (p <=? 2 * m)%N then (q + 1)%N else q
  | ROUND_HALF_EVEN =>
    if (p <? 2 * m)%N || ((2 * m =? p)%N && N.odd q) then (q + 1)%N else q
  end.

(** [Decimal._rescale(exp, rounding)] *)
Definition rescale (r : rounding) (d : Dec) (e : Z) : Dec :=
  if (dint d =? 0)%N then mkDec (dsign d) 0 e
  else if e <=? dexp d
  then mkDec (dsign d) (dint d * 10 ^ Z.to_N (dexp d - e)) e
  else mkDec (dsign d) (round_coef r (dint d) (Z.to_N (e - dexp d))) e.

(** [Decimal._fix(context)]: round to the context's precision and exponent
    range (clamp = 0); Overflow is trapped. *)
Definition fix_ (d : Dec) : result Dec :=
  if (dint d =? 0)%N then
    Ok (mkDec (dsign d) 0 (Z.min (Z.max (dexp d) Etiny) Emax))
  else
    let exp_min := ndigits (dint d) + dexp d - prec in
    if Etop <? exp_min then Raise Overflow
    else
      let exp_min := if exp_min <? Etiny then Etiny else exp_min in
      if dexp d <? exp_min then
        let c := round_coef ROUND_HALF_EVEN (dint d) (Z.to_N (exp_min - dexp d)) in
        let '(c, exp_min) :=
          if prec <? ndigits c then ((c / 10)%N, exp_min + 1) else (c, exp_min) in
        if Etop <? exp_min then Raise Overflow
        else Ok (mkDec (dsign d) c exp_min)
      else Ok d.

(** [Decimal.__add__]: the exact sum at the smaller exponent, then [_fix]. *)
Definition dec_add (a b : Dec) : result Dec :=
  let e := Z.min (dexp a) (dexp b) in
  let ca := (dint a * 10 ^ Z.to_N (dexp a - e))%N in
  let cb := (dint b * 10 ^ Z.to_N (dexp b - e))%N in
  if Bool.eqb (dsign a) (dsign b) then fix_ (mkDec (dsign a) (ca + cb) e)
  else if (cb <? ca)%N then fix_ (mkDec (dsign a) (ca - cb) e)
  else if (ca <? cb)%N then fix_ (mkDec (dsign b) (cb - ca) e)
  else fix_ (mkDec false 0 e).

(** [Decimal.copy_negate] *)
Definition dec_neg (a : Dec) : Dec := mkDec (negb (dsign a)) (dint a) (dexp a).

(** [Decimal.__sub__]: [self + other.copy_negate()] *)
Definition dec_sub (a b : Dec) : result Dec := dec_add a (dec_neg b).

(** [Decimal.__mul__] *)
Definition dec_mul (a b : Dec) : result Dec :=
  fix_ (mkDec (xorb (dsign a) (dsign b)) (dint a * dint b) (dexp a + dexp b)).

(** [Decimal.quantize(exp, rounding)] with [exp] a finite Decimal of exponent
    [e]; InvalidOperation is trapped. *)
Definition quantize (r : rounding) (d : Dec) (e : Z) : result Dec :=
  if negb ((Etiny <=? e) && (e <=? Emax)) then Raise InvalidOperation
  else if (dint d =? 0)%N then fix_ (mkDec (dsign d) 0 e)
  else if Emax <? adjusted d then Raise InvalidOperation
  else if prec <? adjusted d - e + 1 then Raise InvalidOperation
  else
    let ans := rescale r d e in
    if Emax <? adjusted ans then Raise InvalidOperation
    else if prec <? ndigits (dint ans) then Raise InvalidOperation
    else fix_ ans.

(** [Decimal("0.01")] *)
Definition dec_001 : Dec := mkDec false 1 (-2).

(** main.py, [_round]: [val.quantize(Decimal("0.01"), ROUND_HALF_UP)] *)
Definition _round (val : Dec) : result Dec := quantize ROUND_HALF_UP val (dexp dec_001).

(** The coefficient with its sign. *)
Definition signed (d : Dec) : Z :=
  if dsign d then (- Z.of_N (dint d))%Z else Z.of_N (dint d).

(** The rational value of a Decimal, [signed d * 10 ^ dexp d]. *)
Definition dec_value (d : Dec) : Q := (inject_Z (signed d) * inject_Z 10 ^ dexp d)%Q.

(** Rounding of a rational to the nearest integer, ties away from zero. *)
Definition round_half_away (q : Q) : Z :=
  if Qle_bool 0 q then Qfloor (q + (1 # 2))%Q else (- Qfloor (- q + (1 # 2))%Q)%Z.

(** Rounding of a rational to two decimal places, ties away from zero. *)
Definition round2 (q : Q) : Q := (inject_Z (round_half_away (q * inject_Z 100)) / inject_Z 100)%Q.

(** ** Decimal numbers as text *)

(** ['0' * n] *)
Definition zeros (n : Z) : str := repeat 48%N (Z.to_nat n).

(** ["%+d" % z] *)
Definition signed_digits (z : Z) : str :=
  (if z <? 0 then 45%N else 43%N) :: digits_of (Z.abs_N z).

(** [Decimal.__str__] (scientific string, capitals = 1); also what an
    f-string field [{x}] renders for a Decimal [x]. *)
Definition dec_to_str (d : Dec) : str :=
  let sign := if dsign d then [45%N] else [] in
  let int := digits_of (dint d) in
  let len := Z.of_nat (length int) in
  let leftdigits := dexp d + len in
  let dotplace := if (dexp d <=? 0) && (-6 <? leftdigits) then leftdigits else 1 in
  let '(intpart, fracpart) :=
    if dotplace <=? 0 then ([48%N], 46%N :: zeros (- dotplace) ++ int)
    else if len <=? dotplace then (int ++ zeros (dotplace - len), [])
    else (take (Z.to_nat dotplace) int, 46%N :: drop (Z.to_nat dotplace) int) in
  let exp :=
    if leftdigits =? dotplace then [] else 69%N :: signed_digits (leftdigits - dotplace) in
  sign ++ intpart ++ fracpart ++ exp.

(** The longest prefix of decimal characters, as digit values, and the rest. *)
Fixpoint span_digits (s : str) : list N * str :=
  match s with
  | [] => ([], [])
  | c :: r =>
    match todecimal c with
    | Some v => let '(ds, r') := span_digits r in (v :: ds, r')
    | None => ([], s)
    end
  end.

(** [int(digits)] *)
Definition digits_value (ds : list N) : N := fold_left (fun acc v => acc * 10 + v)%N ds 0%N.

(** An optional leading sign. *)
Definition split_sign (s : str) : bool * str :=
  match s with
  | c :: r => if (c =? 45)%N then (true, r) else if (c =? 43)%N then (false, r) else (false, s)
  | [] => (false, s)
  end.

(** [Decimal(s)] for a string [s]: the grammar of finite numbers,
    [sign? (digits [. digits*] | . digits) (E sign? digits)?]; anything else
    raises InvalidOperation.  The construction is exact.  (The constructor
    also strips white space and underscores and accepts the names of the
    special values; no caller in this program passes such a string.) *)
Definition Decimal_of_str (s : str) : result Dec :=
  let '(sg, s1) := split_sign s in
  let '(ip, s2) := span_digits s1 in
  let '(fp, s3) :=
    match s2 with
    | c :: r => if (c =? 46)%N then span_digits r else ([], s2)
    | [] => ([], s2)
    end in
  if (length ip =? 0)%nat && (length fp =? 0)%nat then Raise InvalidOperation
  else
    let coef := digits_value (ip ++ fp) in
    let flen := Z.of_nat (length fp) in
    match s3 with
    | [] => Ok (mkDec sg coef (- flen))
    | e :: s4 =>
      if (e =? 69)%N || (e =? 101)%N then
        let '(esg, s5) := split_sign s4 in
        let '(ed, s6) := span_digits s5 in
        match ed, s6 with
        | _ :: _, [] =>
          let ev := Z.of_N (digits_value ed) in
          Ok (mkDec sg coef ((if esg then - ev else ev) - flen))
        | _, _ => Raise InvalidOperation
        end
      else Raise InvalidOperation
    end.

(** [s.replace(",", ".")] *)
Definition replace_comma (s : str) : str := map (fun c => if (c =? 44)%N then 46%N else c) s.

(** parser_old_bill.py, [TelegramBillParser._normalize_decimal] *)
Definition _normalize_decimal (value_str : str) : result Dec :=
  let normalized := replace_comma value_str in
  Decimal_of_str normalized.

(** ** Data model *)

(** parser_old_bill.py, [UtilityReading] *)
Record UtilityReading : Type := mkReading {
  previous : Dec;
  current : Dec;
  consumption : Dec;
  rate : Dec;
  amount : Dec
}.

(** A [datetime] at midnight. *)
Record datetime : Type := mkDate { year : Z; month : Z; day : Z }.

(** parser_old_bill.py, [UtilityBill] *)
Record UtilityBill : Type := mkBill {
  cold_water : option UtilityReading;
  hot_water : option UtilityReading;
  water_disposal : option UtilityReading;
  electricity : option UtilityReading;
  total : Dec;
  date : datetime
}.

(** main.py, [InputData] *)
Record InputData : Type := mkInput {
  cw : Dec;
  hw : Dec;
  el : Dec;
  cw_rate : option Dec;
  hw_rate : option Dec;
  wd_rate : option Dec;
  el_rate : option Dec
}.

(** ** Billing calculator (main.py) *)

Definition msg_no_rate : str :=
  U "Отсутствует тариф (rate) в старом сообщении, и он не указан в команде.".

(** The message of the AttributeError that [None.current] raises. *)
Definition msg_none_current : str := U "'NoneType' object has no attribute 'current'".

(** [_get_rate(override, fallback)] *)
Definition _get_rate (override : option Dec) (fallback : option UtilityReading) : result Dec :=
  match override with
  | Some r => Ok r
  | None =>
    match fallback with
    | Some f => Decimal_of_str (dec_to_str (rate f))
    | None => Raise (AttributeError msg_no_rate)
    end
  end.

(** [reading.current] for an optional reading. *)
Definition current_of (reading : option UtilityReading) : result Dec :=
  match reading with
  | Some r => Ok (current r)
  | None => Raise (AttributeError msg_none_current)
  end.

(** The local variables of [_build_message] at the point where the report is
    formatted. *)
Record Calculation : Type := mkCalc {
  c_cw_rate : Dec; c_hw_rate : Dec; c_el_rate : Dec; c_wd_rate : Dec;
  c_cw_old : Dec; c_hw_old : Dec; c_el_old : Dec;
  c_cw_cons : Dec; c_hw_cons : Dec; c_wd_cons : Dec; c_el_cons : Dec;
  c_cw_amt : Dec; c_hw_amt : Dec; c_wd_amt : Dec; c_el_amt : Dec;
  c_total : Dec
}.

(** The statements of [_build_message] before the [return], in order. *)
Definition calculate (old_values : UtilityBill) (inp : InputData) : result Calculation :=
  let* cw_rate_ := _get_rate (cw_rate inp) (cold_water old_values) in
  let* hw_rate_ := _get_rate (hw_rate inp) (hot_water old_values) in
  let* el_rate_ := _get_rate (el_rate inp) (electricity old_values) in
  let wd_reading := water_disposal old_values in
  let* wd_rate_ :=
    match wd_reading with
    | Some _ => _get_rate (wd_rate inp) wd_reading
    | None => Ok (match wd_rate inp with Some r => r | None => mkDec false 0 0 end)
    end in
  let* cw_old := current_of (cold_water old_values) in
  let* cw_cons := dec_sub (cw inp) cw_old in
  let* hw_old := current_of (hot_water old_values) in
  let* hw_cons := dec_sub (hw inp) hw_old in
  let* wd_cons := dec_add cw_cons hw_cons in
  let* el_old := current_of (electricity old_values) in
  let* el_cons := dec_sub (el inp) el_old in
  let* cw_amt := (let* p := dec_mul cw_cons cw_rate_ in _round p) in
  let* hw_amt := (let* p := dec_mul hw_cons hw_rate_ in _round p) in
  let* wd_amt := (let* p := dec_mul wd_cons wd_rate_ in _round p) in
  let* el_amt := (let* p := dec_mul el_cons el_rate_ in _round p) in
  let* total_ :=
    (let* s1 := dec_add cw_amt hw_amt in
     let* s2 := dec_add s1 wd_amt in
     let* s3 := dec_add s2 el_amt in
     _round s3) in
  Ok (mkCalc cw_rate_ hw_rate_ el_rate_ wd_rate_ cw_old hw_old el_old
             cw_cons hw_cons wd_cons el_cons cw_amt hw_amt wd_amt el_amt total_).

(** Two decimal digits, zero padded. *)
Definition two_digits (n : Z) : str :=
  if n <? 10 then 48%N :: digits_of (Z.to_N n) else digits_of (Z.to_N n).

(** [dt.strftime("%d.%m.%Y")]; the C library's [%Y] does not pad the year. *)
Definition strftime_dmy (dt : datetime) : str :=
  two_digits (day dt) ++ [46%N] ++ two_digits (month dt) ++ [46%N] ++ digits_of (Z.to_N (year dt)).

Definition nl : str := [10%N].

(** The f-string that [_build_message] returns. *)
Definition render (inp : InputData) (c : Calculation) (date_str : str) : str :=
  U "Хол. вода:" ++ nl ++ U "Было - " ++ dec_to_str (c_cw_old c) ++ nl
    ++ U "Стало - " ++ dec_to_str (cw inp) ++ nl ++ nl
  ++ dec_to_str (c_cw_cons c) ++ U " * " ++ dec_to_str (c_cw_rate c) ++ U " = "
    ++ dec_to_str (c_cw_amt c) ++ nl ++ nl
  ++ U "Гор. вода:" ++ nl ++ U "Было - " ++ dec_to_str (c_hw_old c) ++ nl
    ++ U "Стало - " ++ dec_to_str (hw inp) ++ nl ++ nl
  ++ dec_to_str (c_hw_cons c) ++ U " * " ++ dec_to_str (c_hw_rate c) ++ U " = "
    ++ dec_to_str (c_hw_amt c) ++ nl ++ nl
  ++ U "Водоотведение:" ++ nl
  ++ dec_to_str (c_wd_cons c) ++ U " * " ++ dec_to_str (c_wd_rate c) ++ U " = "
    ++ dec_to_str (c_wd_amt c) ++ nl ++ nl
  ++ U "Электроэнергия:" ++ nl ++ U "Было - " ++ dec_to_str (c_el_old c) ++ nl
    ++ U "Стало - " ++ dec_to_str (el inp) ++ nl ++ nl
  ++ dec_to_str (c_el_cons c) ++ U " * " ++ dec_to_str (c_el_rate c) ++ U " = "
    ++ dec_to_str (c_el_amt c) ++ nl ++ nl
  ++ U "Итого: " ++ dec_to_str (c_total c) ++ nl ++ nl
  ++ U "#счетчики " ++ date_str.

(** [_build_message(old_values, inp)]; [now] is the value of [datetime.now()]. *)
Definition _build_message (now : datetime) (old_values : UtilityBill) (inp : InputData)
  : result str :=
  let* c := calculate old_values inp in
  let date_str := strftime_dmy now in
  Ok (render inp c date_str).

(** ** Regular expressions

    The fragment of [re] that the program's patterns use, with the
    backtracking semantics of the engine: alternatives are tried in priority
    order (greedy repetitions the longest first, lazy ones the shortest first)
    and the first complete match wins. *)

Inductive cclass : Type :=
| CDigit        (* \d *)
| CAsciiDigit   (* [0-9] *)
| CSpace        (* \s *)
| CWord         (* \w *)
| CSep.         (* [.,] *)

Definition in_class (k : cclass) (c : N) : bool :=
  match k with
  | CDigit => is_decimal c
  | CAsciiDigit => is_ascii_digit c
  | CSpace => is_space c
  | CWord => is_word c
  | CSep => (c =? 46)%N || (c =? 44)%N
  end.

#[local] Unset Elimination Schemes.
Inductive re : Type :=
| Lit (c : N)              (* a literal character *)
| Cls (k : cclass)         (* one character of a class *)
| Star (k : cclass)        (* k*  *)
| Plus (k : cclass)        (* k+  *)
| PlusLazy (k : cclass)    (* k+? *)
| Opt (body : list re)     (* (?:body)? *)
| Grp (body : list re).    (* (body), a capturing group *)
#[local] Set Elimination Schemes.

(** A literal character of the pattern against a character of the subject. *)
Definition lit_eq (ignorecase : bool) (c x : N) : bool :=
  if ignorecase then
    match List.find (fun e => (fst e =? c)%N) ignorecase_classes with
    | Some e => existsb (N.eqb x) (snd e)
    | None => (x =? c)%N
    end
  else (x =? c)%N.

Section Matcher.
Variable ignorecase : bool.
Context {R : Type}.

(** Greedy [k*]: consume while possible, give back one character at a time. *)
Fixpoint star_greedy (p : N -> bool) (s : str) (k : str -> option R) : option R :=
  match s with
  | [] => k []
  | x :: s' =>
    if p x then
      match star_greedy p s' k with
      | Some v => Some v
      | None => k s
      end
    else k s
  end.

(** Lazy [k*?]: try to go on first, consume one more character on failure. *)
Fixpoint star_lazy (p : N -> bool) (s : str) (k : str -> option R) : option R :=
  match k s with
  | Some v => Some v
  | None =>
    match s with
    | [] => None
    | x :: s' => if p x then star_lazy p s' k else None
    end
  end.

(** Match one node at the head of [s]; [caps] are the groups closed so
    far, [k] is the rest of the match. *)
Fixpoint mre (r : re) (s : str) (caps : list str)
         (k : str -> list str -> option R) {struct r} : option R :=
  let mseq_ :=
    fix mseq_ (rs : list re) (s : str) (caps : list str)
            (k : str -> list str -> option R) {struct rs} : option R :=
      match rs with
      | [] => k s caps
      | r' :: rs' => mre r' s caps (fun s' caps' => mseq_ rs' s' caps' k)
      end in
  match r with
  | Lit c =>
    match s with
    | x :: s' => if lit_eq ignorecase c x then k s' caps else None
    | [] => None
    end
  | Cls cl =>
    match s with
    | x :: s' => if in_class cl x then k s' caps else None
    | [] => None
    end
  | Star cl => star_greedy (in_class cl) s (fun s' => k s' caps)
  | Plus cl =>
    match s with
    | x :: s' =>
      if in_class cl x then star_greedy (in_class cl) s' (fun s'' => k s'' caps) else None
    | [] => None
    end
  | PlusLazy cl =>
    match s with
    | x :: s' =>
      if in_class cl x then star_lazy (in_class cl) s' (fun s'' => k s'' caps) else None
    | [] => None
    end
  | Opt body =>
    match mseq_ body s caps k with
    | Some v => Some v
    | None => k s caps
    end
  | Grp body =>
    mseq_ body s caps
          (fun s' caps' => k s' (caps' ++ [take (length s - length s') s]))
  end.

(** Match a sequence of nodes. *)
Fixpoint mseq (rs : list re) (s : str) (caps : list str)
         (k : str -> list str -> option R) {struct rs} : option R :=
  match rs with
  | [] => k s caps
  | r :: rs' => mre r s caps (fun s' caps' => mseq rs' s' caps' k)
  end.
End Matcher.

(** A match of [pat] at the head of [s]: the matched text, the rest of the
    subject and the groups. *)
Definition match_at (ignorecase : bool) (pat : list re) (s : str)
  : option (str * str * list str) :=
  mseq ignorecase pat s []
       (fun s' caps => Some (take (length s - length s') s, s', caps)).

(** [re.search(pat, s).groups()]: the groups of the leftmost match. *)
Fixpoint search (ignorecase : bool) (pat : list re) (s : str) : option (list str) :=
  match match_at ignorecase pat s with
  | Some (_, _, caps) => Some caps
  | None =>
    match s with
    | [] => None
    | _ :: s' => search ignorecase pat s'
    end
  end.

(** [re.findall(pat, s)]: every match from left to right, each as its text
    and its groups; the scan resumes where the previous match ended. *)
Fixpoint findall_from (fuel : nat) (ignorecase : bool) (pat : list re) (s : str)
  : list (str * list str) :=
  match fuel with
  | O => []
  | S fuel' =>
    match match_at ignorecase pat s with
    | Some (m, rest, caps) =>
      (m, caps) ::
        match m, s with
        | [], _ :: s' => findall_from fuel' ignorecase pat s'
        | [], [] => []
        | _ :: _, _ => findall_from fuel' ignorecase pat rest
        end
    | None =>
      match s with
      | [] => []
      | _ :: s' => findall_from fuel' ignorecase pat s'
      end
    end
  end.

Definition findall (ignorecase : bool) (pat : list re) (s : str) : list (str * list str) :=
  findall_from (S (length s)) ignorecase pat s.

(** The literal text [t] as a pattern. *)
Definition lits (t : str) : list re := map Lit t.

(** ** Old-bill parser (parser_old_bill.py) *)

(** [\d+(?:[.,]\d+)?] *)
Definition number : list re := [Plus CDigit; Opt [Cls CSep; Plus CDigit]].

(** [\s*] *)
Definition ws : re := Star CSpace.

(** [(\d+(?:[.,]\d+)?)\s*\*\s*(\d+(?:[.,]\d+)?)\s*=\s*(\d+(?:[.,]\d+)?)] *)
Definition cost_line : list re :=
  [Grp number; ws; Lit 42; ws; Grp number; ws; Lit 61; ws; Grp number].

(** [Было\s*-\s*(\d+)\s*Стало\s*-\s*(\d+)\s*] followed by the cost line *)
Definition meter_lines : list re :=
  lits (U "Было") ++ [ws; Lit 45; ws; Grp [Plus CDigit]; ws]
  ++ lits (U "Стало") ++ [ws; Lit 45; ws; Grp [Plus CDigit]; ws]
  ++ cost_line.

(** [TelegramBillParser.patterns] *)
Definition pat_cold_water : list re :=
  lits (U "Хол.") ++ [ws] ++ lits (U "вода:") ++ [ws] ++ meter_lines.
Definition pat_hot_water : list re :=
  lits (U "Гор.") ++ [ws] ++ lits (U "вода:") ++ [ws] ++ meter_lines.
Definition pat_water_disposal : list re :=
  lits (U "Водоотведение:") ++ [ws] ++ cost_line.
Definition pat_electricity : list re :=
  lits (U "Электроэнергия:") ++ [ws] ++ meter_lines.
Definition pat_total : list re :=
  lits (U "Итого:") ++ [ws; Grp number].
Definition pat_date : list re :=
  lits (U "#счетчики")
  ++ [ws; Grp [Cls CDigit; Cls CDigit; Lit 46; Cls CDigit; Cls CDigit; Lit 46;
                 Cls CDigit; Cls CDigit; Cls CDigit; Cls CDigit]].

(** [s.strip()] *)
Fixpoint lstrip (s : str) : str :=
  match s with
  | c :: r => if is_space c then lstrip r else s
  | [] => []
  end.
Definition strip (s : str) : str := rev (lstrip (rev (lstrip s))).

(** [re.sub(r'\s+', ' ', s)]; [in_run] tells that the previous character was
    white space. *)
Fixpoint collapse_ws (in_run : bool) (s : str) : str :=
  match s with
  | [] => []
  | c :: r =>
    if is_space c then (if in_run then collapse_ws true r else 32%N :: collapse_ws true r)
    else c :: collapse_ws false r
  end.

Definition clean (message : str) : str := collapse_ws false (strip message).

Definition is_leap (y : Z) : bool :=
  (y mod 4 =? 0) && (negb (y mod 100 =? 0) || (y mod 400 =? 0)).

Definition days_in_month (y m : Z) : Z :=
  if m =? 2 then (if is_leap y then 29 else 28)
  else if (m =? 4) || (m =? 6) || (m =? 9) || (m =? 11) then 30 else 31.

Definition msg_bad_date (s : str) : str :=
  U "time data '" ++ s ++ U "' does not match format '%d.%m.%Y'".

(** [datetime.strptime(s, '%d.%m.%Y')] for a string of the shape that the
    date pattern captures: the directives [%d], [%m] and [%Y] accept
    [3[0-1]|[1-2]\d|0[1-9]], [1[0-2]|0[1-9]] and [\d\d\d\d]; the date must
    exist. *)
Definition strptime_dmy (s : str) : result datetime :=
  match s with
  | [d1; d2; p1; m1; m2; p2; y1; y2; y3; y4] =>
    let dd : option Z :=
      if (d1 =? 51)%N && ((d2 =? 48)%N || (d2 =? 49)%N) then Some (30 + Z.of_N (d2 - 48))
      else if (d1 =? 49)%N || (d1 =? 50)%N
      then (fun v => 10 * Z.of_N (d1 - 48) + Z.of_N v) <$> todecimal d2
      else if (d1 =? 48)%N && (49 <=? d2)%N && (d2 <=? 57)%N then Some (Z.of_N (d2 - 48))
      else None in
    let mm : option Z :=
      if (m1 =? 49)%N && (48 <=? m2)%N && (m2 <=? 50)%N then Some (10 + Z.of_N (m2 - 48))
      else if (m1 =? 48)%N && (49 <=? m2)%N && (m2 <=? 57)%N then Some (Z.of_N (m2 - 48))
      else None in
    let yy : option Z :=
      match todecimal y1, todecimal y2, todecimal y3, todecimal y4 with
      | Some a, Some b, Some c, Some d => Some (Z.of_N (a * 1000 + b * 100 + c * 10 + d))
      | _, _, _, _ => None
      end in
    match dd, mm, yy with
    | Some d, Some m, Some y =>
      if negb ((p1 =? 46)%N && (p2 =? 46)%N) then Raise (ValueError (msg_bad_date s))
      else if y =? 0 then Raise (ValueError (U "year 0 is out of range"))
      else if days_in_month y m <? d
      then Raise (ValueError (U "day is out of range for month"))
      else Ok (mkDate y m d)
    | _, _, _ => Raise (ValueError (msg_bad_date s))
    end
  | _ => Raise (ValueError (msg_bad_date s))
  end.

Definition msg_unpack : str := U "not enough values to unpack".

(** [previous, current, consumption, rate, amount =
     [self._normalize_decimal(x) for x in match.groups()]] and the
    [UtilityReading] built from them. *)
Definition metered_reading (groups : list str) : result UtilityReading :=
  match groups with
  | [g1; g2; g3; g4; g5] =>
    let* previous_ := _normalize_decimal g1 in
    let* current_ := _normalize_decimal g2 in
    let* consumption_ := _normalize_decimal g3 in
    let* rate_ := _normalize_decimal g4 in
    let* amount_ := _normalize_decimal g5 in
    Ok (mkReading previous_ current_ consumption_ rate_ amount_)
  | _ => Raise (ValueError msg_unpack)
  end.

(** The water-disposal branch: [current] is the sum of the consumptions of
    the water sections already extracted. *)
Definition disposal_reading (cold hot : option UtilityReading) (groups : list str)
  : result UtilityReading :=
  match groups with
  | [g1; g2; g3] =>
    let* consumption_ := _normalize_decimal g1 in
    let* rate_ := _normalize_decimal g2 in
    let* amount_ := _normalize_decimal g3 in
    let total_water_consumption := mkDec false 0 0 in
    let* total_water_consumption :=
      match cold with
      | Some r => dec_add total_water_consumption (consumption r)
      | None => Ok total_water_consumption
      end in
    let* total_water_consumption :=
      match hot with
      | Some r => dec_add total_water_consumption (consumption r)
      | None => Ok total_water_consumption
      end in
    Ok (mkReading (mkDec false 0 0) total_water_consumption consumption_ rate_ amount_)
  | _ => Raise (ValueError msg_unpack)
  end.

(** One [if match: data[key] = ...] step; [None] means that the key stays
    absent from [data]. *)
Definition section (pat : list re) (build : list str -> result UtilityReading)
           (cleaned_message : str) : result (option UtilityReading) :=
  match search true pat cleaned_message with
  | Some groups => let* r := build groups in Ok (Some r)
  | None => Ok None
  end.

(** The constructor call that ends [parse_message], [UtilityBill] applied to
    the keys of [data]: the four readings are declared
    [Optional[UtilityReading] = Field(...)], that is required (a key may hold
    [None] but may not be absent); [total] and [date] are always in [data]
    here.  An absent key is reported as a [missing] error. *)
Definition UtilityBill_init (cold hot disposal elec : option UtilityReading)
           (total_ : Dec) (date_ : datetime) : result UtilityBill :=
  let miss (name : str) (v : option UtilityReading) : list (str * str) :=
    match v with Some _ => [] | None => [(name, U "missing")] end in
  match miss (U "cold_water") cold ++ miss (U "hot_water") hot
        ++ miss (U "water_disposal") disposal ++ miss (U "electricity") elec with
  | [] => Ok (mkBill cold hot disposal elec total_ date_)
  | errors => Raise (ValidationError errors)
  end.

Definition msg_no_total : str := U "Не найдена общая сумма в сообщении".
Definition msg_no_date : str := U "Не найдена дата в сообщении".

(** [TelegramBillParser.parse_message] *)
Definition parse_message (message : str) : result UtilityBill :=
  let cleaned_message := clean message in
  let* cold := section pat_cold_water metered_reading cleaned_message in
  let* hot := section pat_hot_water metered_reading cleaned_message in
  let* disposal := section pat_water_disposal (disposal_reading cold hot) cleaned_message in
  let* elec := section pat_electricity metered_reading cleaned_message in
  let* total_ :=
    match search true pat_total cleaned_message with
    | None => Raise (ValueError msg_no_total)
    | Some groups => _normalize_decimal (List.hd [] groups)
    end in
  let* date_ :=
    match search true pat_date cleaned_message with
    | None => Raise (ValueError msg_no_date)
    | Some groups => strptime_dmy (List.hd [] groups)
    end in
  UtilityBill_init cold hot disposal elec total_ date_.

(** ** New-reading parser (main.py) *)

(** [[0-9]+(?:[.,][0-9]+)?] *)
Definition ascii_number : list re := [Plus CAsciiDigit; Opt [Cls CSep; Plus CAsciiDigit]].

(** [(\w+?)\s*=\s*([0-9]+(?:[.,][0-9]+)?)] *)
Definition pat_pair : list re := [Grp [PlusLazy CWord]; ws; Lit 61; ws; Grp ascii_number].

(** [(\w+_rate)\s*=\s*([0-9]+(?:[.,][0-9]+)?)] *)
Definition pat_rate_pair : list re :=
  [Grp (Plus CWord :: lits (U "_rate")); ws; Lit 61; ws; Grp ascii_number].

(** The first word of [s] removed. *)
Fixpoint drop_word (s : str) : str :=
  match s with
  | c :: r => if is_space c then s else drop_word r
  | [] => []
  end.

(** [text.split(maxsplit=1)[1] if len(text.split(maxsplit=1)) == 2 else ""]:
    what follows the first word and the white space after it. *)
Definition payload_of (text : str) : str := lstrip (drop_word (lstrip text)).

(** [{k.lower(): Decimal(v.replace(",", ".")) for k, v in pairs}], a later
    pair replacing an earlier one with the same key. *)
Fixpoint dict_of_pairs (pairs : list (str * list str)) (acc : gmap str Dec)
  : result (gmap str Dec) :=
  match pairs with
  | [] => Ok acc
  | (_, groups) :: rest =>
    match groups with
    | [k; v] =>
      let* d := Decimal_of_str (replace_comma v) in
      dict_of_pairs rest (<[str_lower k := d]> acc)
    | _ => Raise (ValueError msg_unpack)
    end
  end.

(** The key of [data] that populates a field (the alias first, then the
    field name: [populate_by_name]) and its value. *)
Definition lookup_field (data : gmap str Dec) (alias : option str) (name : str)
  : option (str * Dec) :=
  match alias with
  | Some a =>
    match data !! a with
    | Some v => Some (a, v)
    | None => (fun v => (name, v)) <$> data !! name
    end
  | None => (fun v => (name, v)) <$> data !! name
  end.

(** Validation of [InputData] from a dictionary ([InputData.model_validate]
    and the keyword constructor): [cw], [hw] and [el] are required, the four
    rates default to [None], and a key that populates no field is refused
    ([extra = forbid]). *)
Definition InputData_validate (data : gmap str Dec) : result InputData :=
  let f_cw := lookup_field data (Some (U "cold_water")) (U "cw") in
  let f_hw := lookup_field data (Some (U "hot_water")) (U "hw") in
  let f_el := lookup_field data (Some (U "electricity")) (U "el") in
  let f_cw_rate := lookup_field data None (U "cw_rate") in
  let f_hw_rate := lookup_field data None (U "hw_rate") in
  let f_wd_rate := lookup_field data None (U "wd_rate") in
  let f_el_rate := lookup_field data None (U "el_rate") in
  let used : list str :=
    omap (fmap fst) [f_cw; f_hw; f_el; f_cw_rate; f_hw_rate; f_wd_rate; f_el_rate] in
  let miss (alias : str) (f : option (str * Dec)) : list (str * str) :=
    match f with Some _ => [] | None => [(alias, U "missing")] end in
  let missing :=
    miss (U "cold_water") f_cw ++ miss (U "hot_water") f_hw ++ miss (U "electricity") f_el in
  let extra :=
    (fun k => (k, U "extra_forbidden"))
      <$> filter (fun k => k ∉ used) (fst <$> map_to_list data) in
  match f_cw, f_hw, f_el, missing ++ extra with
  | Some (_, cw_), Some (_, hw_), Some (_, el_), [] =>
    Ok (mkInput cw_ hw_ el_ (snd <$> f_cw_rate) (snd <$> f_hw_rate)
                (snd <$> f_wd_rate) (snd <$> f_el_rate))
  | _, _, _, errors => Raise (ValidationError errors)
  end.

Definition msg_unrecognized : str :=
  U "Не смог распознать команду. Форматы: 'cw=587 hw=49 el=8108 hw_rate=275' или '587 49 8108'.".

(** The second format of [_parse_input]: three numbers, then optional
    [*_rate] pairs. *)
Definition grammar_b (payload : str) : result InputData :=
  let nums := fst <$> findall false number payload in
  match nums with
  | n1 :: n2 :: n3 :: _ =>
    let* cw_ := Decimal_of_str (replace_comma n1) in
    let* hw_ := Decimal_of_str (replace_comma n2) in
    let* el_ := Decimal_of_str (replace_comma n3) in
    let rest_pairs := findall true pat_rate_pair payload in
    let* rates := dict_of_pairs rest_pairs ∅ in
    InputData_validate (<[U "cw" := cw_]> (<[U "hw" := hw_]> (<[U "el" := el_]> rates)))
  | _ => Raise (ValueError msg_unrecognized)
  end.

(** The required keys of the first format. *)
Definition has_trio (data : gmap str Dec) : bool :=
  bool_decide (is_Some (data !! U "cw")) && bool_decide (is_Some (data !! U "hw"))
  && bool_decide (is_Some (data !! U "el")).

(** [_parse_input(text)] *)
Definition _parse_input (text : str) : result InputData :=
  let payload := payload_of text in
  if existsb (N.eqb 61) payload then
    let pairs := findall true pat_pair payload in
    match pairs with
    | _ :: _ =>
      let* data := dict_of_pairs pairs ∅ in
      if has_trio data then InputData_validate data else grammar_b payload
    | [] => grammar_b payload
    end
  else grammar_b payload.

(** ** Predicates used in the statements *)

(** An ASCII digit. *)
Definition ascii_digit (c : N) : Prop := (48 <= c <= 57)%N.

(** A decimal character. *)
Definition decimal_char (c : N) : Prop := is_decimal c = true.

(** The digit values of a text of decimal characters. *)
Definition digit_values (ds : str) : list N :=
  map (fun c => match todecimal c with Some v => v | None => 0%N end) ds.

(** [_round(cons * rate)], the amount of one utility. *)
Definition cost (cons rate : Dec) : result Dec :=
  let* p := dec_mul cons rate in _round p.

(** The exact product of two Decimals has at most [prec] digits and is not
    subnormal: the context does not round it. *)
Definition product_fits (a b : Dec) : Prop :=
  Z.of_N (dint a * dint b) < 10 ^ prec /\ Etiny <= dexp a + dexp b.

(** The same for the exact sum. *)
Definition sum_fits (a b : Dec) : Prop :=
  let e := Z.min (dexp a) (dexp b) in
  Z.abs (signed a * 10 ^ (dexp a - e) + signed b * 10 ^ (dexp b - e)) < 10 ^ prec
  /\ Etiny <= e.

(** The same for the exact difference. *)
Definition diff_fits (a b : Dec) : Prop := sum_fits a (dec_neg b).

(** The rate that the calculator uses for water disposal when the old bill
    has no water-disposal reading. *)
Definition disposal_default (inp : InputData) : Dec :=
  match wd_rate inp with Some r => r | None => mkDec false 0 0 end.

(** A Decimal written as a literal. *)
Definition D (s : string) : Dec :=
  match Decimal_of_str (U s) with Ok d => d | Raise _ => mkDec false 0 0 end.

(** A reading of a meter that went from [prev] to [cur]. *)
Definition reading (prev cur r : string) : UtilityReading :=
  mkReading (D prev) (D cur) (D "0") (D r) (D "0").

(** The old bill of the example in parser_old_bill.py. *)
Definition old_sample : UtilityBill :=
  mkBill (Some (mkReading (D "579") (D "587") (D "8") (D "59.8") (D "478")))
         (Some (mkReading (D "47") (D "49") (D "2") (D "272.14") (D "544.28")))
         (Some (mkReading (D "0") (D "10") (D "10") (D "45.91") (D "459.1")))
         (Some (mkReading (D "7984") (D "8108") (D "124") (D "6.99") (D "866.76")))
         (D "2348.14") (mkDate 2025 6 22).

(** New readings [595 50 8200] without overrides. *)
Definition inp_sample : InputData :=
  mkInput (D "595") (D "50") (D "8200") None None None None.

(** What the calculator computes for them. *)
Definition calc_sample : Calculation :=
  Eval vm_compute in
    match calculate old_sample inp_sample with
    | Ok c => c
    | Raise _ => let z := mkDec false 0 0 in mkCalc z z z z z z z z z z z z z z z z
    end.

(** An old bill whose meters stand at zero. *)
Definition old_zero : UtilityBill :=
  mkBill (Some (reading "0" "0" "1")) (Some (reading "0" "0" "1"))
         (Some (reading "0" "0" "1")) (Some (reading "0" "0" "1"))
         (D "0") (mkDate 2025 6 22).

(** Half a unit of cold water at a rate of 29 significant digits. *)
Definition inp_long_rate : InputData :=
  mkInput (D "0.5") (D "0") (D "0")
          (Some (D "0.0099999999999999999999999999999")) None None None.

(** A cold-water reading of 29 digits, at rate zero. *)
Definition inp_long_reading : InputData :=
  mkInput (D "10000000000000000000000000001") (D "0") (D "0")
          (Some (D "0")) None (Some (D "0")) None.

(** Meters at zero except electricity, which stands at 28 nines, and new
    readings whose amounts are long but add up to 0.07. *)
Definition old_long_el : UtilityBill :=
  mkBill (Some (reading "0" "0" "1")) (Some (reading "0" "0" "1"))
         (Some (reading "0" "0" "0")) (Some (reading "0" "9999999999999999999999999999" "0.01"))
         (D "0") (mkDate 2025 6 22).

Definition inp_long_amounts : InputData :=
  mkInput (D "50000000000000000000000000.03") (D "50000000000000000000000000.03") (D "0")
          None None None None.

(** Old bills that lack one reading. *)
Definition old_no_cold : UtilityBill :=
  mkBill None (hot_water old_sample) (water_disposal old_sample) (electricity old_sample)
         (total old_sample) (date old_sample).
Definition old_no_hot : UtilityBill :=
  mkBill (cold_water old_sample) None (water_disposal old_sample) (electricity old_sample)
         (total old_sample) (date old_sample).
Definition old_no_disposal : UtilityBill :=
  mkBill (cold_water old_sample) (hot_water old_sample) None (electricity old_sample)
         (total old_sample) (date old_sample).


(** Readings below the old ones. *)
Definition inp_lower : InputData :=
  mkInput (D "580") (D "49") (D "8108") None None None None.

(** A value in the range of household meters and tariffs: below a hundred
    million, with at most three decimals. *)
Definition small (d : Dec) : Prop := (dint d < 10 ^ 8)%N /\ -3 <= dexp d <= 0.

Definition small_reading (r : UtilityReading) : Prop := small (current r) /\ small (rate r).

Definition small_option (o : option Dec) : Prop :=
  match o with Some d => small d | None => True end.

Definition small_input (inp : InputData) : Prop :=
  small (cw inp) /\ small (hw inp) /\ small (el inp)
  /\ small_option (cw_rate inp) /\ small_option (hw_rate inp)
  /\ small_option (wd_rate inp) /\ small_option (el_rate inp).

(** An amount is the exact product rounded to two places, when the context
    does not round the product first. *)
Definition amount_ok (cons rate amt : Dec) : Prop :=
  dexp amt = -2
  /\ (product_fits cons rate ->
      (dec_value amt == round2 (dec_value cons * dec_value rate))%Q).

(** The running sums of the four amounts, taken in the order in which
    [_build_message] adds them and counted in hundredths, stay below
    [10 ^ prec] in magnitude: the context rounds none of them. *)
Definition running_sums_fit (c : Calculation) : Prop :=
  let a := signed (c_cw_amt c) in
  let b := signed (c_hw_amt c) in
  let w := signed (c_wd_amt c) in
  let e := signed (c_el_amt c) in
  Z.abs (a + b) < 10 ^ prec /\ Z.abs (a + b + w) < 10 ^ prec
  /\ Z.abs (a + b + w + e) < 10 ^ prec.

(** The sum of the four amounts. *)
Definition amounts_sum (c : Calculation) : Q :=
  (dec_value (c_cw_amt c) + dec_value (c_hw_amt c)
   + dec_value (c_wd_amt c) + dec_value (c_el_amt c))%Q.

(** A bill with cold-water, hot-water and electricity readings, all of
    household size. *)
Definition small_bill (old_values : UtilityBill) : Prop :=
  (exists r, cold_water old_values = Some r /\ small_reading r)
  /\ (exists r, hot_water old_values = Some r /\ small_reading r)
  /\ (exists r, electricity old_values = Some r /\ small_reading r)
  /\ match water_disposal old_values with Some r => small (rate r) | None => True end.

(** The rate that the contract of rate resolution designates: the override,
    else the rate of the old reading. *)
Definition resolved (override : option Dec) (fallback : option UtilityReading) : option Dec :=
  match override with
  | Some r => Some r
  | None => rate <$> fallback
  end.

(** [w] is a prefix of [s]. *)
Fixpoint is_prefix (w s : str) : bool :=
  match w, s with
  | [], _ => true
  | _ :: _, [] => false
  | a :: w', b :: s' => (a =? b)%N && is_prefix w' s'
  end.

(** [w in s] *)
Fixpoint is_infix (w s : str) : bool :=
  is_prefix w s || match s with [] => false | _ :: s' => is_infix w s' end.

(** The line of the report that shows a consumption, its rate and the
    amount. *)
Definition cost_text (cons rate amt : Dec) : str :=
  dec_to_str cons ++ U " * " ++ dec_to_str rate ++ U " = " ++ dec_to_str amt.

(** The names under which the program and its reports know the metered
    utilities. *)
Definition utility_names : list str :=
  [U "cw"; U "hw"; U "el"; U "wd"; U "cold"; U "hot"; U "electricity"; U "disposal";
   U "Хол"; U "хол"; U "Гор"; U "гор"; U "Электро"; U "электро"; U "Водоотвед"; U "водоотвед"].



(** [r] is [a - b] as the decimal context computes it: the exact difference
    when that has at most [prec] digits. *)
Definition difference_ok (a b r : Dec) : Prop :=
  dec_sub a b = Ok r
  /\ (diff_fits a b -> (dec_value r == dec_value a - dec_value b)%Q).

(** [r] is [a + b] as the decimal context computes it. *)
Definition addition_ok (a b r : Dec) : Prop :=
  dec_add a b = Ok r
  /\ (sum_fits a b -> (dec_value r == dec_value a + dec_value b)%Q).

(** The texts that a pattern node ([rmatch]) and a sequence of nodes
    ([smatch]) can match, with the groups captured on the way. *)
Inductive rmatch (ic : bool) : re -> str -> list str -> Prop :=
| R_lit c x : lit_eq ic c x = true -> rmatch ic (Lit c) [x] []
| R_cls k x : in_class k x = true -> rmatch ic (Cls k) [x] []
| R_star k ds : Forall (fun x => in_class k x = true) ds -> rmatch ic (Star k) ds []
| R_plus k ds :
    ds <> [] -> Forall (fun x => in_class k x = true) ds -> rmatch ic (Plus k) ds []
| R_plus_lazy k ds :
    ds <> [] -> Forall (fun x => in_class k x = true) ds -> rmatch ic (PlusLazy k) ds []
| R_opt_some body w c : smatch ic body w c -> rmatch ic (Opt body) w c
| R_opt_none body : rmatch ic (Opt body) [] []
| R_grp body w c : smatch ic body w c -> rmatch ic (Grp body) w (c ++ [w])
with smatch (ic : bool) : list re -> str -> list str -> Prop :=
| S_nil : smatch ic [] [] []
| S_cons r rs w1 c1 w2 c2 :
    rmatch ic r w1 c1 -> smatch ic rs w2 c2 -> smatch ic (r :: rs) (w1 ++ w2) (c1 ++ c2).

(** A text of decimal characters, not empty: what [\d+] matches. *)
Definition digits_text (w : str) : Prop := w <> [] /\ Forall decimal_char w.

(** What [\d+(?:[.,]\d+)?] matches. *)
Definition number_text (w : str) : Prop :=
  digits_text w
  \/ exists i sep f, w = i ++ sep :: f /\ digits_text i /\ in_class CSep sep = true
                     /\ digits_text f.

(** Soundness of the matcher for a node and for a sequence: a successful
    match has consumed a text of the pattern and passed the groups on. *)
Definition sound_node (ic : bool) (R : Type) (r : re) : Prop :=
  forall s caps (k : str -> list str -> option R) v, mre ic r s caps k = Some v ->
  exists w s' c, s = w ++ s' /\ rmatch ic r w c /\ k s' (caps ++ c) = Some v.

Definition sound_seq (ic : bool) (R : Type) (rs : list re) : Prop :=
  forall s caps (k : str -> list str -> option R) v, mseq ic rs s caps k = Some v ->
  exists w s' c, s = w ++ s' /\ smatch ic rs w c /\ k s' (caps ++ c) = Some v.

(** The example message of parser_old_bill.py. *)
Definition msg_sample : str := U "
    Хол. вода:
    Было - 579
    Стало - 587

    8 * 59,8 = 478

    Гор. вода:
    Было - 47
    Стало - 49

    2 * 272,14 = 544,28

    Водоотведение:
    10 * 45,91 = 459,1

    Электроэнергия:
    Было - 7984
    Стало - 8108

    124 * 6,99 = 866,76

    Итого: 2348,14

    #счетчики 22.06.2025
    ".


(** The same message without the cold-water section. *)
Definition msg_no_cold_section : str := U "
    Гор. вода:
    Было - 47
    Стало - 49

    2 * 272,14 = 544,28

    Водоотведение:
    10 * 45,91 = 459,1

    Электроэнергия:
    Было - 7984
    Стало - 8108

    124 * 6,99 = 866,76

    Итого: 2348,14

    #счетчики 22.06.2025
    ".

(** The same message with a fractional previous cold-water reading. *)
Definition msg_fractional : str := U "
    Хол. вода:
    Было - 579.5
    Стало - 587

    7.5 * 59,8 = 448.50

    Гор. вода:
    Было - 47
    Стало - 49

    2 * 272,14 = 544,28

    Водоотведение:
    10 * 45,91 = 459,1

    Электроэнергия:
    Было - 7984
    Стало - 8108

    124 * 6,99 = 866,76

    Итого: 2348,14

    #счетчики 22.06.2025
    ".

(** The same message without the total, and without the date. *)
Definition msg_without_total : str := U "
    Хол. вода:
    Было - 579
    Стало - 587

    8 * 59,8 = 478

    #счетчики 22.06.2025
    ".
Definition msg_without_date : str := U "
    Хол. вода:
    Было - 579
    Стало - 587

    8 * 59,8 = 478

    Итого: 2348,14
    ".


Definition label_hot_water : list re := lits (U "Гор.") ++ [ws] ++ lits (U "вода:").
Definition label_water_disposal : list re := lits (U "Водоотведение:").
Definition label_electricity : list re := lits (U "Электроэнергия:").


(** ** The command parser *)

(** The numeric tokens of a payload: the matches of the number pattern of
    the second format, from left to right. *)
Definition tokens (payload : str) : list str := fst <$> findall false number payload.

(** The dictionary entry of a key=value match: the key in lower case and the
    value as a Decimal. *)
Definition pair_entry (p : str * list str) : option (str * Dec) :=
  match snd p with
  | [k; v] =>
    match Decimal_of_str (replace_comma v) with
    | Ok d => Some (str_lower k, d)
    | Raise _ => None
    end
  | _ => None
  end.

(** The entries of all key=value pairs of a payload, and of its pairs whose
    key ends in [_rate]. *)
Definition keyed_entries (payload : str) : list (str * Dec) :=
  omap pair_entry (findall true pat_pair payload).

Definition rate_entries (payload : str) : list (str * Dec) :=
  omap pair_entry (findall true pat_rate_pair payload).

(** The value of the last entry with key [k]. *)
Fixpoint last_entry (k : str) (es : list (str * Dec)) : option Dec :=
  match es with
  | [] => None
  | (k', d) :: rest =>
    match last_entry k rest with
    | Some d' => Some d'
    | None => if bool_decide (k' = k) then Some d else None
    end
  end.

Definition has_key (k : str) (es : list (str * Dec)) : bool :=
  existsb (fun e => bool_decide (fst e = k)) es.

(** The dictionary that a list of entries builds, a later entry replacing
    an earlier one. *)
Definition dict_of (es : list (str * Dec)) (acc : gmap str Dec) : gmap str Dec :=
  fold_left (fun m e => <[fst e := snd e]> m) es acc.

Definition trio_names : list str := [U "cw"; U "hw"; U "el"].
Definition rate_names : list str := [U "cw_rate"; U "hw_rate"; U "wd_rate"; U "el_rate"].
Definition field_names : list str := trio_names ++ rate_names.
Definition alias_names : list str := [U "cold_water"; U "hot_water"; U "electricity"].

(** The first format applies: the payload has an equals sign and its keyed
    pairs include the three readings. *)
Definition grammar_a_applies (payload : str) : bool :=
  existsb (N.eqb 61) payload
  && forallb (fun k => has_key k (keyed_entries payload)) trio_names.

(** The input with the readings [cw_], [hw_], [el_] and the rates that the
    entries [es] give. *)
Definition input_of (cw_ hw_ el_ : Dec) (es : list (str * Dec)) : InputData :=
  mkInput cw_ hw_ el_ (last_entry (U "cw_rate") es) (last_entry (U "hw_rate") es)
          (last_entry (U "wd_rate") es) (last_entry (U "el_rate") es).

(** All keys of the entries are among [names]. *)
Definition keys_within (names : list str) (es : list (str * Dec)) : bool :=
  forallb (fun e => bool_decide (fst e ∈ names)) es.

(** The keys of [data] that populate a field of [InputData], and all its
    keys. *)
Definition used_keys (data : gmap str Dec) : list str :=
  omap (fmap fst)
    [lookup_field data (Some (U "cold_water")) (U "cw");
     lookup_field data (Some (U "hot_water")) (U "hw");
     lookup_field data (Some (U "electricity")) (U "el");
     lookup_field data None (U "cw_rate"); lookup_field data None (U "hw_rate");
     lookup_field data None (U "wd_rate"); lookup_field data None (U "el_rate")].

Definition data_keys (data : gmap str Dec) : list str := fst <$> map_to_list data.

(** Commands: the positional format with a rate after the readings, with a
    rate before them, with two numbers only, with an unknown key after the
    readings, the keyed format with an unknown key, two numbers followed by
    a rate, and the keyed format with an unknown key whose value has a
    sign. *)
Definition cmd_positional : str := U ".meter 587 49 8108 hw_rate=275".
Definition cmd_rate_first : str := U ".meter hw_rate=275 587 49 8108".
Definition cmd_short : str := U ".meter 587 49".
Definition cmd_positional_unknown : str := U ".meter 587 49 8108 foo=5".
Definition cmd_keyed_unknown : str := U ".meter cw=587 hw=49 el=8108 foo=5".
Definition cmd_rate_as_reading : str := U ".meter 587 49 hw_rate=275".
Definition cmd_keyed_negative : str := U ".meter cw=1 hw=2 el=3 foo=-7".

(** ** The report and its re-reading *)

(** A Decimal that is written as a digit string: not negative, exponent
    zero. *)
Definition integral (d : Dec) : Prop := dsign d = false /\ dexp d = 0.

(** A Decimal that is written as digits with an optional fraction: not
    negative and without exponent notation. *)
Definition plain (d : Dec) : Prop :=
  dsign d = false /\ dexp d <= 0 /\ -6 < dexp d + ndigits (dint d).

(** A text of ASCII digits, not empty, and such a text with an optional
    fraction after a point. *)
Definition ascii_digits (w : str) : Prop := w <> [] /\ Forall ascii_digit w.

Definition plain_text (w : str) : Prop :=
  exists ip fp, w = ip ++ fp /\ ascii_digits ip
                /\ (fp = [] \/ exists fd, fp = 46%N :: fd /\ ascii_digits fd).

(** The literal text [t] agrees with [w], character by character. *)
Fixpoint lits_agree (ic : bool) (t w : str) : bool :=
  match t, w with
  | [], [] => true
  | a :: t', x :: w' => lit_eq ic a x && lits_agree ic t' w'
  | _, _ => false
  end.

(** [w] differs from the literal text [t] at one of its own characters. *)
Fixpoint mismatch (ic : bool) (t w : str) : bool :=
  match t, w with
  | a :: t', x :: w' => if lit_eq ic a x then mismatch ic t' w' else true
  | _, _ => false
  end.

(** No position of [w] starts a match of the literal text [t]. *)
Fixpoint all_mismatch (ic : bool) (t w : str) : bool :=
  match w with
  | [] => true
  | _ :: w' => mismatch ic t w && all_mismatch ic t w'
  end.

(** The first character of [t] matches no digit and no point. *)
Definition avoids_numbers (ic : bool) (t : str) : bool :=
  match t with
  | a :: _ => forallb (fun x => negb (lit_eq ic a x)) [46; 48; 49; 50; 51; 52; 53; 54; 55; 56; 57]%N
  | [] => false
  end.

(** The state of [collapse_ws] after the text [w]. *)
Definition ends_in_space (in_run : bool) (w : str) : bool :=
  match last w with Some c => is_space c | None => in_run end.

(** A section with a meter as [_build_message] lays it out, before the
    text [rest]: the label, the old and the new reading, and the cost line
    of consumption, rate and amount; the water-disposal section, which has
    the cost line only; and the lines of the total and the date. *)
Definition meter_text (label P C K R_ A rest : str) : str :=
  label ++ nl ++ U "Было - " ++ P ++ nl ++ U "Стало - " ++ C ++ nl ++ nl
  ++ K ++ U " * " ++ R_ ++ U " = " ++ A ++ nl ++ nl ++ rest.

Definition disposal_text (K R_ A rest : str) : str :=
  U "Водоотведение:" ++ nl ++ K ++ U " * " ++ R_ ++ U " = " ++ A ++ nl ++ nl ++ rest.

Definition closing_text (T date_str : str) : str :=
  U "Итого: " ++ T ++ nl ++ nl ++ U "#счетчики " ++ date_str.

(** The same on one line, as [parse_message] cleans them. *)
Definition meter_line (label P C K R_ A rest : str) : str :=
  label ++ U " Было - " ++ P ++ U " Стало - " ++ C ++ U " "
  ++ K ++ U " * " ++ R_ ++ U " = " ++ A ++ U " " ++ rest.

Definition disposal_line (K R_ A rest : str) : str :=
  U "Водоотведение: " ++ K ++ U " * " ++ R_ ++ U " = " ++ A ++ U " " ++ rest.

Definition closing_line (T date_str : str) : str :=
  U "Итого: " ++ T ++ U " #счетчики " ++ date_str.

(** The report on one line. *)
Definition report_line (inp : InputData) (c : Calculation) (date_str : str) : str :=
  meter_line (U "Хол. вода:") (dec_to_str (c_cw_old c)) (dec_to_str (cw inp))
    (dec_to_str (c_cw_cons c)) (dec_to_str (c_cw_rate c)) (dec_to_str (c_cw_amt c))
  (meter_line (U "Гор. вода:") (dec_to_str (c_hw_old c)) (dec_to_str (hw inp))
    (dec_to_str (c_hw_cons c)) (dec_to_str (c_hw_rate c)) (dec_to_str (c_hw_amt c))
  (disposal_line
    (dec_to_str (c_wd_cons c)) (dec_to_str (c_wd_rate c)) (dec_to_str (c_wd_amt c))
  (meter_line (U "Электроэнергия:") (dec_to_str (c_el_old c)) (dec_to_str (el inp))
    (dec_to_str (c_el_cons c)) (dec_to_str (c_el_rate c)) (dec_to_str (c_el_amt c))
  (closing_line (dec_to_str (c_total c)) date_str)))).

(** A text without white space, and a text that ends with a character that
    is none. *)
Definition nospace (w : str) : Prop := Forall (fun x => is_space x = false) w.

Definition ends_nonspace (s : str) : Prop :=
  exists a c, s = a ++ [c] /\ is_space c = false.

(** The character after a number: the text ends, or goes on with a
    character that is no digit and no separator. *)
Definition stops (s : str) : Prop :=
  match s with
  | [] => True
  | x :: _ => in_class CDigit x = false /\ in_class CSep x = false
  end.

(** The label [t] starts at no position of the pieces of a section with
    the label [label], whatever its numbers are. *)
Definition passes_meter_line (t label : str) : bool :=
  avoids_numbers true t && all_mismatch true t label
  && all_mismatch true t (U " Было - ") && all_mismatch true t (U " Стало - ")
  && all_mismatch true t (U " ") && all_mismatch true t (U " * ")
  && all_mismatch true t (U " = ").

Definition passes_disposal_line (t : str) : bool :=
  avoids_numbers true t && all_mismatch true t (U "Водоотведение: ")
  && all_mismatch true t (U " ") && all_mismatch true t (U " * ")
  && all_mismatch true t (U " = ").

(** Every number of the report is written without sign and exponent, the
    meter readings as integers. *)
Definition printable (inp : InputData) (c : Calculation) : Prop :=
  (integral (c_cw_old c) /\ integral (cw inp) /\ plain (c_cw_cons c)
   /\ plain (c_cw_rate c) /\ plain (c_cw_amt c))
  /\ (integral (c_hw_old c) /\ integral (hw inp) /\ plain (c_hw_cons c)
      /\ plain (c_hw_rate c) /\ plain (c_hw_amt c))
  /\ (plain (c_wd_cons c) /\ plain (c_wd_rate c) /\ plain (c_wd_amt c))
  /\ (integral (c_el_old c) /\ integral (el inp) /\ plain (c_el_cons c)
      /\ plain (c_el_rate c) /\ plain (c_el_amt c))
  /\ plain (c_total c).

(** A date of the calendar whose year has four digits. *)
Definition valid_date (dt : datetime) : Prop :=
  1000 <= year dt <= 9999 /\ 1 <= month dt <= 12
  /\ 1 <= day dt <= days_in_month (year dt) (month dt).

(** The bill that the report of a calculation shows: per meter the old and
    the new reading, consumption, rate and amount; for water disposal, which
    has no meter, zero and the consumption. *)
Definition bill_of (inp : InputData) (c : Calculation) (now : datetime) : UtilityBill :=
  mkBill
    (Some (mkReading (c_cw_old c) (cw inp) (c_cw_cons c) (c_cw_rate c) (c_cw_amt c)))
    (Some (mkReading (c_hw_old c) (hw inp) (c_hw_cons c) (c_hw_rate c) (c_hw_amt c)))
    (Some (mkReading (mkDec false 0 0) (c_wd_cons c) (c_wd_cons c) (c_wd_rate c)
                     (c_wd_amt c)))
    (Some (mkReading (c_el_old c) (el inp) (c_el_cons c) (c_el_rate c) (c_el_amt c)))
    (c_total c) (mkDate (year now) (month now) (day now)).

(** New readings with a fractional cold-water reading, and below the old
    cold-water reading. *)
Definition inp_fractional : InputData :=
  mkInput (D "595.5") (D "50") (D "8200") None None None None.

(** The day, the month and the year that [strptime] reads from the
    characters of [%d], [%m] and [%Y]. *)
Definition day_of (d1 d2 : N) : option Z :=
  if (d1 =? 51)%N && ((d2 =? 48)%N || (d2 =? 49)%N) then Some (30 + Z.of_N (d2 - 48))
  else if (d1 =? 49)%N || (d1 =? 50)%N
  then (fun v => 10 * Z.of_N (d1 - 48) + Z.of_N v) <$> todecimal d2
  else if (d1 =? 48)%N && (49 <=? d2)%N && (d2 <=? 57)%N then Some (Z.of_N (d2 - 48))
  else None.

Definition month_of (m1 m2 : N) : option Z :=
  if (m1 =? 49)%N && (48 <=? m2)%N && (m2 <=? 50)%N then Some (10 + Z.of_N (m2 - 48))
  else if (m1 =? 48)%N && (49 <=? m2)%N && (m2 <=? 57)%N then Some (Z.of_N (m2 - 48))
  else None.

Definition year_of (y1 y2 y3 y4 : N) : option Z :=
  match todecimal y1, todecimal y2, todecimal y3, todecimal y4 with
  | Some a, Some b, Some c, Some d => Some (Z.of_N (a * 1000 + b * 100 + c * 10 + d))
  | _, _, _, _ => None
  end.

(** * Properties *)

(** ** The result monad *)

Lemma bind_Ok_inv {A B} (m : result A) (k : A -> result B) (b : B) :
  bind m k = Ok b -> exists a, m = Ok a /\ k a = Ok b.
Proof. destruct m as [a|e]; simpl; [eauto | discriminate]. Qed.

Lemma bind_Ok {A B} (m : result A) (k : A -> result B) (a : A) :
  m = Ok a -> bind m k = k a.
Proof. intros ->. reflexivity. Qed.

(** ** Digits of a coefficient *)

Lemma digits_fuel_S (f : nat) (n : N) (acc : list N) :
  digits_fuel (S f) n acc =
  if (n <? 10)%N then (48 + n mod 10)%N :: acc
  else digits_fuel f (n / 10) ((48 + n mod 10)%N :: acc).
Proof. reflexivity. Qed.

Lemma digits_fuel_acc (f : nat) : forall (n : N) (acc : list N),
  digits_fuel f n acc = digits_fuel f n [] ++ acc.
Proof.
  induction f as [|f IH]; intros n acc; [reflexivity|].
  rewrite !digits_fuel_S.
  destruct (n <? 10)%N; [reflexivity|].
  rewrite IH, (IH _ [_]), <- app_assoc. reflexivity.
Qed.

Lemma div10_lt_pow2 (n : N) (f : nat) :
  (n < 2 ^ N.of_nat (S f))%N -> (n / 10 < 2 ^ N.of_nat f)%N.
Proof.
  intros H. rewrite Nat2N.inj_succ, N.pow_succ_r' in H.
  apply N.Div0.div_lt_upper_bound. lia.
Qed.

Lemma digits_fuel_indep (f1 : nat) : forall (f2 : nat) (n : N),
  (n < 2 ^ N.of_nat (S f1))%N -> (n < 2 ^ N.of_nat (S f2))%N ->
  digits_fuel (S f1) n [] = digits_fuel (S f2) n [].
Proof.
  induction f1 as [|f1 IH]; intros f2 n H1 H2;
    rewrite (digits_fuel_S _ n), (digits_fuel_S f2 n).
  - change (2 ^ N.of_nat 1)%N with 2%N in H1.
    replace (n <? 10)%N with true by (symmetry; apply N.ltb_lt; lia). reflexivity.
  - destruct (n <? 10)%N eqn:E; [reflexivity|].
    apply N.ltb_ge in E.
    destruct f2 as [|f2]; [change (2 ^ N.of_nat 1)%N with 2%N in H2; lia|].
    rewrite (digits_fuel_acc (S f1)), (digits_fuel_acc (S f2)).
    f_equal. apply IH; apply div10_lt_pow2; assumption.
Qed.

Lemma lt_pow2_log2 (n : N) : (n < 2 ^ N.of_nat (S (N.to_nat (N.log2 n))))%N.
Proof.
  destruct (N.eq_dec n 0%N) as [->|Hn]; [reflexivity|].
  replace (N.of_nat (S (N.to_nat (N.log2 n)))) with (N.succ (N.log2 n)) by lia.
  apply N.log2_spec. lia.
Qed.

(** The digits, least significant last. *)
Lemma digits_of_eq (n : N) :
  digits_of n =
  if (n <? 10)%N then [(48 + n)%N] else digits_of (n / 10) ++ [(48 + n mod 10)%N].
Proof.
  unfold digits_of. rewrite digits_fuel_S.
  destruct (n <? 10)%N eqn:E.
  - apply N.ltb_lt in E. rewrite N.mod_small by assumption. reflexivity.
  - apply N.ltb_ge in E. rewrite digits_fuel_acc. f_equal.
    pose proof (lt_pow2_log2 n) as Hn.
    destruct (N.to_nat (N.log2 n)) as [|f] eqn:Ef.
    + change (2 ^ N.of_nat 1)%N with 2%N in Hn. lia.
    + apply digits_fuel_indep; [apply div10_lt_pow2; assumption | apply lt_pow2_log2].
Qed.

Lemma digits_of_small (n : N) : (n < 10)%N -> digits_of n = [(48 + n)%N].
Proof.
  intros H. rewrite digits_of_eq.
  replace (n <? 10)%N with true by (symmetry; apply N.ltb_lt; assumption). reflexivity.
Qed.

Lemma digits_of_big (n : N) :
  (10 <= n)%N -> digits_of n = digits_of (n / 10) ++ [(48 + n mod 10)%N].
Proof.
  intros H. rewrite digits_of_eq at 1.
  replace (n <? 10)%N with false by (symmetry; apply N.ltb_ge; assumption). reflexivity.
Qed.

(** Induction on a number through its decimal digits. *)
Lemma digits_ind (P : N -> Prop) :
  (forall n, (n < 10)%N -> P n) ->
  (forall n, (10 <= n)%N -> P (n / 10)%N -> P n) ->
  forall n, P n.
Proof.
  intros Hs Hb n. induction n as [n IH] using (well_founded_induction N.lt_wf_0).
  destruct (N.lt_ge_cases n 10%N) as [H|H]; [apply Hs; assumption|].
  apply Hb; [assumption|]. apply IH. apply N.div_lt; lia.
Qed.

Lemma ndigits_small (n : N) : (n < 10)%N -> ndigits n = 1.
Proof. intros H. unfold ndigits. rewrite digits_of_small by assumption. reflexivity. Qed.

Lemma ndigits_big (n : N) : (10 <= n)%N -> ndigits n = ndigits (n / 10) + 1.
Proof.
  intros H. unfold ndigits. rewrite digits_of_big by assumption.
  rewrite length_app. simpl. lia.
Qed.

Lemma ndigits_pos (n : N) : 1 <= ndigits n.
Proof.
  induction n as [n H|n H IH] using digits_ind.
  - rewrite ndigits_small by assumption. lia.
  - rewrite ndigits_big by assumption. lia.
Qed.

(** A coefficient is below the power of ten of its length ... *)
Lemma ndigits_upper (n : N) : (n < 10 ^ Z.to_N (ndigits n))%N.
Proof.
  induction n as [n H|n H IH] using digits_ind.
  - rewrite ndigits_small by assumption. exact H.
  - rewrite ndigits_big by assumption.
    pose proof (ndigits_pos (n / 10)) as Hp.
    replace (Z.to_N (ndigits (n / 10) + 1)) with (N.succ (Z.to_N (ndigits (n / 10)))) by lia.
    rewrite N.pow_succ_r'.
    pose proof (N.mul_succ_div_gt n 10 ltac:(lia)) as Hdm.
    set (p := (10 ^ _)%N) in *. lia.
Qed.

(** ... and, unless it is zero, at least the power of ten before. *)
Lemma ndigits_lower (n : N) : (0 < n)%N -> (10 ^ Z.to_N (ndigits n - 1) <= n)%N.
Proof.
  induction n as [n H|n H IH] using digits_ind; intros Hn.
  - rewrite ndigits_small by assumption. simpl. lia.
  - rewrite ndigits_big by assumption.
    pose proof (ndigits_pos (n / 10)) as Hp.
    replace (Z.to_N (ndigits (n / 10) + 1 - 1))
      with (N.succ (Z.to_N (ndigits (n / 10) - 1))) by lia.
    rewrite N.pow_succ_r'.
    assert (0 < n / 10)%N as Hq by (apply N.div_str_pos; lia).
    specialize (IH Hq).
    pose proof (N.Div0.mul_div_le n 10) as Hdm.
    set (p := (10 ^ _)%N) in *. lia.
Qed.

(** The length of a coefficient, from its size. *)
Lemma ndigits_le (n : N) (k : Z) : 1 <= k -> (n < 10 ^ Z.to_N k)%N -> ndigits n <= k.
Proof.
  intros Hk Hn.
  destruct (N.eq_dec n 0%N) as [->|Hz]; [rewrite ndigits_small; lia|].
  pose proof (ndigits_lower n ltac:(lia)) as Hl.
  destruct (Z_le_gt_dec (ndigits n) k) as [|Hgt]; [assumption|exfalso].
  assert (10 ^ Z.to_N k <= 10 ^ Z.to_N (ndigits n - 1))%N
    by (apply N.pow_le_mono_r; lia).
  lia.
Qed.

Lemma ndigits_gt (n : N) (k : Z) : 0 <= k -> (10 ^ Z.to_N k <= n)%N -> k < ndigits n.
Proof.
  intros Hk Hn. pose proof (ndigits_upper n) as Hu.
  destruct (Z_lt_le_dec k (ndigits n)) as [|Hle]; [assumption|exfalso].
  assert (10 ^ Z.to_N (ndigits n) <= 10 ^ Z.to_N k)%N
    by (apply N.pow_le_mono_r; lia).
  lia.
Qed.

(** ** Decimal arithmetic *)

(** A value that fits the context is left alone by [_fix]. *)
Lemma fix_id (d : Dec) :
  ndigits (dint d) <= prec -> Etiny <= dexp d <= Etop -> fix_ d = Ok d.
Proof.
  intros Hn He. unfold fix_.
  destruct (dint d =? 0)%N eqn:Ez.
  - apply N.eqb_eq in Ez. destruct d as [s c e]; simpl in *. subst c.
    f_equal. f_equal. unfold Etiny, Etop, Emin, Emax, prec in *. lia.
  - unfold Etiny, Etop, Emin, Emax, prec in *.
    replace (999999 - 28 + 1 <? ndigits (dint d) + dexp d - 28) with false
      by (symmetry; apply Z.ltb_ge; lia).
    destruct (ndigits (dint d) + dexp d - 28 <? -999999 - 28 + 1) eqn:E1.
    + replace (dexp d <? -999999 - 28 + 1) with false
        by (symmetry; apply Z.ltb_ge; lia). reflexivity.
    + replace (dexp d <? ndigits (dint d) + dexp d - 28) with false
        by (symmetry; apply Z.ltb_ge; lia). reflexivity.
Qed.

(** [_fix] of a zero only clamps the exponent. *)
Lemma fix_zero (s : bool) (e : Z) :
  fix_ (mkDec s 0 e) = Ok (mkDec s 0 (Z.min (Z.max e Etiny) Emax)).
Proof. reflexivity. Qed.

(** Rounding half up, as one integer division. *)
Lemma round_half_up_div (c k : N) :
  round_coef ROUND_HALF_UP c k = ((2 * c + 10 ^ k) / (2 * 10 ^ k))%N.
Proof.
  unfold round_coef.
  assert (10 ^ k <> 0)%N as Hp by (apply N.pow_nonzero; lia).
  set (p := (10 ^ k)%N) in *.
  pose proof (N.div_mod c p Hp) as Hdm.
  pose proof (N.mod_lt c p Hp) as Hm.
  set (q := (c / p)%N) in *. set (m := (c mod p)%N) in *.
  destruct (p <=? 2 * m)%N eqn:E.
  - apply N.leb_le in E.
    apply (N.div_unique _ _ _ (2 * m - p)%N); nia.
  - apply N.leb_gt in E.
    apply (N.div_unique _ _ _ (2 * m + p)%N); nia.
Qed.

Lemma round_half_up_bounds (c k : N) :
  (c / 10 ^ k <= round_coef ROUND_HALF_UP c k <= c / 10 ^ k + 1)%N.
Proof. unfold round_coef. destruct (_ <=? _)%N; lia. Qed.

Lemma round_half_even_bounds (c k : N) :
  (c / 10 ^ k <= round_coef ROUND_HALF_EVEN c k <= c / 10 ^ k + 1)%N.
Proof. unfold round_coef. destruct (_ || _); lia. Qed.

(** *** Rational values *)

Lemma Q10_neq0 : ~ (inject_Z 10 == 0)%Q.
Proof. discriminate. Qed.

Lemma Qpow10_nonneg (k : Z) : 0 <= k -> (inject_Z 10 ^ k == inject_Z (10 ^ k))%Q.
Proof. intros H. symmetry. apply Zpower_Qpower. assumption. Qed.

Lemma Qpow10_pos (k : Z) : (0 < inject_Z 10 ^ k)%Q.
Proof. apply Qpower_0_lt. reflexivity. Qed.

Lemma dec_value_mul (a b : Dec) :
  (dec_value a * dec_value b
   == inject_Z (signed a * signed b) * inject_Z 10 ^ (dexp a + dexp b))%Q.
Proof.
  unfold dec_value. rewrite Qpower_plus by exact Q10_neq0.
  rewrite inject_Z_mult. ring.
Qed.

Lemma signed_zero (d : Dec) : dint d = 0%N -> signed d = 0.
Proof. intros H. unfold signed. rewrite H. destruct (dsign d); reflexivity. Qed.

Lemma dec_value_zero (d : Dec) : dint d = 0%N -> (dec_value d == 0)%Q.
Proof. intros H. unfold dec_value. rewrite signed_zero by assumption. ring. Qed.

Lemma round_half_away_comp (x y : Q) : (x == y)%Q -> round_half_away x = round_half_away y.
Proof.
  intros H. unfold round_half_away.
  assert (Qle_bool 0 x = Qle_bool 0 y) as -> by (rewrite H; reflexivity).
  assert (Qfloor (x + (1 # 2)) = Qfloor (y + (1 # 2))) as -> by (rewrite H; reflexivity).
  assert (Qfloor (- x + (1 # 2)) = Qfloor (- y + (1 # 2))) as -> by (rewrite H; reflexivity).
  reflexivity.
Qed.

Lemma round2_comp (x y : Q) : (x == y)%Q -> (round2 x == round2 y)%Q.
Proof.
  intros H. unfold round2.
  rewrite (round_half_away_comp (x * inject_Z 100) (y * inject_Z 100)); [reflexivity|].
  rewrite H. reflexivity.
Qed.

(** Rounding a fraction half away from zero, in integers. *)
Lemma round_half_away_frac (n : Z) (D : positive) :
  round_half_away (n # D) = Z.sgn n * ((2 * Z.abs n + Zpos D) / (2 * Zpos D)).
Proof.
  unfold round_half_away.
  destruct (Qle_bool 0 (n # D)) eqn:E.
  - apply Qle_bool_iff in E. unfold Qle in E. simpl in E.
    assert (0 <= n) as Hn by lia.
    unfold Qplus, Qfloor. simpl.
    destruct (Z.eq_dec n 0) as [->|Hz].
    + simpl. apply Z.div_small. lia.
    + rewrite Z.sgn_pos, Z.abs_eq by lia.
      rewrite (Z.mul_1_l (_ / _)). f_equal; lia.
  - assert (~ (0 <= n # D)%Q) as Hn by (intros H; apply Qle_bool_iff in H; congruence).
    unfold Qle in Hn. simpl in Hn.
    assert (n < 0) as Hneg by lia.
    unfold Qplus, Qopp, Qfloor. simpl.
    rewrite Z.sgn_neg, Z.abs_neq by lia.
    match goal with
    | |- - (?a / ?b) = -1 * (?c / ?d) =>
      replace a with c by lia; replace b with d by lia
    end.
    set (w := _ / _). lia.
Qed.

Lemma round_half_away_Z (z : Z) : round_half_away (inject_Z z) = z.
Proof.
  unfold inject_Z. rewrite round_half_away_frac.
  replace ((2 * Z.abs z + 1) / (2 * 1)) with (Z.abs z)
    by (apply (Z.div_unique _ _ _ 1); lia).
  lia.
Qed.

Lemma signed_abs (d : Dec) : Z.abs (signed d) = Z.of_N (dint d).
Proof. unfold signed. destruct (dsign d); lia. Qed.

Lemma of_N_pow10 (k : Z) : 0 <= k -> Z.of_N (10 ^ Z.to_N k) = 10 ^ k.
Proof. intros H. rewrite N2Z.inj_pow, Z2N.id by assumption. reflexivity. Qed.

Lemma ndigits_le_prec (c : N) : Z.of_N c < 10 ^ prec -> ndigits c <= prec.
Proof.
  intros H. apply ndigits_le; [unfold prec; lia|].
  apply N2Z.inj_lt. rewrite of_N_pow10 by (unfold prec; lia). assumption.
Qed.

(** The sum before rounding: the exact sum of the signed coefficients at the
    smaller exponent. *)
Lemma dec_add_fix (a b : Dec) :
  let e := Z.min (dexp a) (dexp b) in
  let z := signed a * 10 ^ (dexp a - e) + signed b * 10 ^ (dexp b - e) in
  exists s c, dec_add a b = fix_ (mkDec s c e) /\ signed (mkDec s c e) = z.
Proof.
  intros e z. unfold dec_add. fold e.
  assert (0 <= dexp a - e) as Ha by (unfold e; lia).
  assert (0 <= dexp b - e) as Hb by (unfold e; lia).
  set (ca := (dint a * 10 ^ Z.to_N (dexp a - e))%N).
  set (cb := (dint b * 10 ^ Z.to_N (dexp b - e))%N).
  assert (Z.of_N ca = Z.of_N (dint a) * 10 ^ (dexp a - e)) as Hca
    by (unfold ca; rewrite N2Z.inj_mul, of_N_pow10 by assumption; reflexivity).
  assert (Z.of_N cb = Z.of_N (dint b) * 10 ^ (dexp b - e)) as Hcb
    by (unfold cb; rewrite N2Z.inj_mul, of_N_pow10 by assumption; reflexivity).
  assert (z = (if dsign a then - Z.of_N ca else Z.of_N ca)
              + (if dsign b then - Z.of_N cb else Z.of_N cb)) as Hzz.
  { unfold z, signed. rewrite Hca, Hcb. destruct (dsign a), (dsign b); ring. }
  clearbody ca cb. clear Hca Hcb. rewrite Hzz. clear Hzz z.
  destruct (Bool.eqb (dsign a) (dsign b)) eqn:Es.
  - apply Bool.eqb_prop in Es. rewrite <- Es.
    eexists _, _. split; [reflexivity|].
    unfold signed; simpl. rewrite N2Z.inj_add. destruct (dsign a); lia.
  - apply Bool.eqb_false_iff in Es.
    destruct (cb <? ca)%N eqn:E1; [apply N.ltb_lt in E1|apply N.ltb_ge in E1].
    + eexists _, _. split; [reflexivity|].
      unfold signed; simpl. rewrite N2Z.inj_sub by lia.
      destruct (dsign a), (dsign b); try congruence; lia.
    + destruct (ca <? cb)%N eqn:E2; [apply N.ltb_lt in E2|apply N.ltb_ge in E2].
      * eexists _, _. split; [reflexivity|].
        unfold signed; simpl. rewrite N2Z.inj_sub by lia.
        destruct (dsign a), (dsign b); try congruence; lia.
      * assert (ca = cb) as -> by lia.
        eexists _, _. split; [reflexivity|].
        unfold signed; simpl. destruct (dsign a), (dsign b); try congruence; lia.
Qed.

(** The sum is exact as long as it fits the precision. *)
Lemma dec_add_exact (a b : Dec) :
  let e := Z.min (dexp a) (dexp b) in
  let z := signed a * 10 ^ (dexp a - e) + signed b * 10 ^ (dexp b - e) in
  Z.abs z < 10 ^ prec -> Etiny <= e <= Etop ->
  exists r, dec_add a b = Ok r /\ dexp r = e /\ signed r = z.
Proof.
  intros e z Hz He.
  destruct (dec_add_fix a b) as (s & c & Hadd & Hs). fold e in Hadd, Hs. fold z in Hs.
  exists (mkDec s c e). split; [|split; [reflexivity|assumption]].
  rewrite Hadd. apply fix_id; [|assumption]. simpl.
  apply ndigits_le_prec. rewrite <- Hs, signed_abs in Hz. exact Hz.
Qed.

Lemma dec_value_shift (n e k : Z) :
  0 <= k -> (inject_Z (n * 10 ^ k) * inject_Z 10 ^ e == inject_Z n * inject_Z 10 ^ (e + k))%Q.
Proof.
  intros Hk. rewrite Qpower_plus by exact Q10_neq0.
  rewrite inject_Z_mult, (Qpow10_nonneg k) by assumption. ring.
Qed.

Lemma dec_add_value (a b r : Dec) (z e : Z) :
  e = Z.min (dexp a) (dexp b) ->
  z = signed a * 10 ^ (dexp a - e) + signed b * 10 ^ (dexp b - e) ->
  dexp r = e -> signed r = z ->
  (dec_value r == dec_value a + dec_value b)%Q.
Proof.
  intros He Hz Hre Hrz. unfold dec_value. rewrite Hre, Hrz, Hz.
  rewrite inject_Z_plus, Qmult_plus_distr_l.
  rewrite !dec_value_shift by lia.
  replace (e + (dexp a - e)) with (dexp a) by lia.
  replace (e + (dexp b - e)) with (dexp b) by lia.
  reflexivity.
Qed.

Lemma signed_neg (b : Dec) : signed (dec_neg b) = - signed b.
Proof. unfold signed, dec_neg. simpl. destruct (dsign b); simpl; lia. Qed.

Lemma dec_value_neg (b : Dec) : (dec_value (dec_neg b) == - dec_value b)%Q.
Proof. unfold dec_value. rewrite signed_neg, inject_Z_opp. simpl. ring. Qed.

(** The product is exact as long as it fits the precision. *)
Lemma dec_mul_exact (a b : Dec) :
  Z.of_N (dint a * dint b) < 10 ^ prec -> Etiny <= dexp a + dexp b <= Etop ->
  exists r, dec_mul a b = Ok r /\ dexp r = dexp a + dexp b
            /\ dint r = (dint a * dint b)%N /\ signed r = signed a * signed b.
Proof.
  intros Hc He. unfold dec_mul. eexists. rewrite fix_id.
  - split; [reflexivity|]. split; [reflexivity|]. split; [reflexivity|].
    unfold signed; simpl. rewrite N2Z.inj_mul.
    destruct (dsign a), (dsign b); simpl; ring.
  - simpl. apply ndigits_le_prec. assumption.
  - simpl. assumption.
Qed.

Lemma Qscale100 (n e : Z) :
  (inject_Z n * inject_Z 10 ^ e * inject_Z 100 == inject_Z n * inject_Z 10 ^ (e + 2))%Q.
Proof.
  rewrite Qpower_plus by exact Q10_neq0.
  assert (inject_Z 10 ^ 2 == inject_Z 100)%Q as -> by reflexivity. ring.
Qed.

Lemma Qpow10_frac (n k : Z) :
  0 < k -> (inject_Z n * inject_Z 10 ^ (- k) == n # Z.to_pos (10 ^ k))%Q.
Proof.
  intros Hk. rewrite Qpower_opp, Qpow10_nonneg by lia.
  rewrite Qmake_Qdiv. unfold Qdiv.
  rewrite Z2Pos.id by (apply Z.pow_pos_nonneg; lia). reflexivity.
Qed.

Lemma quantize_range_ok : negb ((Etiny <=? dexp dec_001) && (dexp dec_001 <=? Emax)) = false.
Proof. reflexivity. Qed.

(** What [_round] returns, when it returns: the value rounded to two
    places, ties away from zero. *)
Lemma round_sound (d amt : Dec) :
  _round d = Ok amt ->
  dexp amt = -2 /\ dsign amt = dsign d
  /\ signed amt = round_half_away (dec_value d * inject_Z 100).
Proof.
  unfold _round, quantize. rewrite quantize_range_ok. cbn [dexp dec_001].
  destruct (dint d =? 0)%N eqn:Ez.
  - apply N.eqb_eq in Ez. rewrite fix_zero. intros [= <-]. simpl.
    split; [reflexivity|]. split; [reflexivity|].
    rewrite (round_half_away_comp _ (inject_Z 0)).
    + rewrite round_half_away_Z. unfold signed. simpl. destruct (dsign d); reflexivity.
    + rewrite dec_value_zero by assumption. reflexivity.
  - apply N.eqb_neq in Ez.
    destruct (Emax <? adjusted d); [discriminate|].
    destruct (prec <? adjusted d - -2 + 1); [discriminate|].
    destruct (Emax <? adjusted (rescale ROUND_HALF_UP d (-2))); [discriminate|].
    destruct (prec <? ndigits (dint (rescale ROUND_HALF_UP d (-2)))) eqn:En; [discriminate|].
    apply Z.ltb_ge in En.
    assert (dexp (rescale ROUND_HALF_UP d (-2)) = -2) as Hexp
      by (unfold rescale; destruct (_ =? _)%N; [|destruct (_ <=? _)]; reflexivity).
    rewrite fix_id; [|assumption|rewrite Hexp; unfold Etiny, Etop, Emin, Emax, prec; lia].
    intros [= <-]. split; [assumption|].
    unfold rescale. replace (dint d =? 0)%N with false by (symmetry; apply N.eqb_neq; assumption).
    unfold dec_value.
    destruct (-2 <=? dexp d) eqn:Ee; [apply Z.leb_le in Ee|apply Z.leb_gt in Ee];
      (split; [reflexivity|]).
    + rewrite (round_half_away_comp _ (inject_Z (signed d * 10 ^ (dexp d + 2)))).
      * rewrite round_half_away_Z. unfold signed. simpl.
        rewrite N2Z.inj_mul, of_N_pow10 by lia.
        replace (dexp d - -2) with (dexp d + 2) by lia.
        destruct (dsign d); ring.
      * rewrite Qscale100, inject_Z_mult, Qpow10_nonneg by lia. reflexivity.
    + set (k := -2 - dexp d). assert (0 < k) as Hk by (unfold k; lia).
      rewrite (round_half_away_comp _ (signed d # Z.to_pos (10 ^ k))).
      * rewrite round_half_away_frac, signed_abs.
        rewrite Z2Pos.id by (apply Z.pow_pos_nonneg; lia).
        unfold signed at 1. cbn [dsign dint].
        rewrite round_half_up_div.
        rewrite N2Z.inj_div, N2Z.inj_add, !N2Z.inj_mul.
        rewrite of_N_pow10 by lia. fold k. change (Z.of_N 2) with 2.
        assert (0 < Z.of_N (dint d)) as Hpos by lia.
        unfold signed. destruct (dsign d).
        -- rewrite Z.sgn_neg by lia. ring.
        -- rewrite Z.sgn_pos by lia. ring.
      * rewrite Qscale100. replace (dexp d + 2) with (- k) by (unfold k; lia).
        apply Qpow10_frac. assumption.
Qed.

Lemma round_value (d amt : Dec) :
  _round d = Ok amt -> (dec_value amt == round2 (dec_value d))%Q.
Proof.
  intros H. apply round_sound in H as (He & _ & Hs).
  unfold round2. rewrite <- Hs. unfold dec_value. rewrite He.
  unfold Qdiv. reflexivity.
Qed.

(** When [_fix] has nothing to round, the value is unchanged. *)
Lemma fix_value (d r : Dec) :
  fix_ d = Ok r -> ndigits (dint d) <= prec -> Etiny <= dexp d ->
  (dec_value r == dec_value d)%Q.
Proof.
  unfold fix_. intros H Hn He.
  destruct (dint d =? 0)%N eqn:Ez.
  - apply N.eqb_eq in Ez. injection H as <-.
    rewrite (dec_value_zero d Ez). apply dec_value_zero. reflexivity.
  - destruct (Etop <? ndigits (dint d) + dexp d - prec); [discriminate|].
    destruct (ndigits (dint d) + dexp d - prec <? Etiny) eqn:E1.
    + replace (dexp d <? Etiny) with false in H by (symmetry; apply Z.ltb_ge; lia).
      injection H as <-. reflexivity.
    + replace (dexp d <? ndigits (dint d) + dexp d - prec) with false in H
        by (symmetry; apply Z.ltb_ge; lia).
      injection H as <-. reflexivity.
Qed.

(** A sum that succeeded and fits the precision is the exact sum. *)
Lemma dec_add_value_ok (a b r : Dec) :
  dec_add a b = Ok r ->
  let e := Z.min (dexp a) (dexp b) in
  Z.abs (signed a * 10 ^ (dexp a - e) + signed b * 10 ^ (dexp b - e)) < 10 ^ prec ->
  Etiny <= e ->
  (dec_value r == dec_value a + dec_value b)%Q.
Proof.
  intros H e Hz He.
  destruct (dec_add_fix a b) as (s & c & Hadd & Hs). fold e in Hadd, Hs.
  rewrite Hadd in H. apply fix_value in H.
  - rewrite H. eapply (dec_add_value a b); [reflexivity|reflexivity|reflexivity|exact Hs].
  - simpl. apply ndigits_le_prec. rewrite <- Hs, signed_abs in Hz. exact Hz.
  - assumption.
Qed.

(** A product that succeeded and fits the precision is the exact product. *)
Lemma dec_mul_value_ok (a b r : Dec) :
  dec_mul a b = Ok r ->
  Z.of_N (dint a * dint b) < 10 ^ prec -> Etiny <= dexp a + dexp b ->
  (dec_value r == dec_value a * dec_value b)%Q.
Proof.
  unfold dec_mul. intros H Hc He. apply fix_value in H.
  - rewrite H, dec_value_mul. unfold dec_value. cbn [dexp].
    assert (signed (mkDec (xorb (dsign a) (dsign b)) (dint a * dint b) (dexp a + dexp b))
            = signed a * signed b) as ->; [|reflexivity].
    unfold signed; simpl. rewrite N2Z.inj_mul. destruct (dsign a), (dsign b); simpl; ring.
  - simpl. apply ndigits_le_prec. assumption.
  - assumption.
Qed.

(** ** Decimal numbers as text *)

Lemma todecimal_ascii (c : N) : ascii_digit c -> todecimal c = Some (c - 48)%N.
Proof.
  intros [H1 H2]. unfold todecimal, decimal_zeros. cbn [List.find].
  replace ((48 <=? c)%N && (c <? 48 + 10)%N) with true; [reflexivity|].
  symmetry. apply andb_true_iff. split; [apply N.leb_le|apply N.ltb_lt]; lia.
Qed.

Lemma is_decimal_ascii (c : N) : ascii_digit c -> is_decimal c = true.
Proof. intros H. unfold is_decimal. rewrite todecimal_ascii by assumption. reflexivity. Qed.

Lemma find_zero_none (c : N) (l : list N) :
  Forall (fun z => c < z \/ z + 10 <= c)%N l ->
  List.find (fun z => (z <=? c)%N && (c <? z + 10)%N) l = None.
Proof.
  induction 1 as [|z l Hz Hl IH]; [reflexivity|]. simpl.
  replace ((z <=? c)%N && (c <? z + 10)%N) with false; [assumption|].
  symmetry. apply andb_false_iff.
  destruct Hz; [left; apply N.leb_gt|right; apply N.ltb_ge]; assumption.
Qed.

(** No decimal character lies below the ASCII digits or between them and
    the Arabic-Indic digits. *)
Lemma todecimal_gap (c : N) : (c < 48 \/ 57 < c < 1632)%N -> todecimal c = None.
Proof.
  intros H. unfold todecimal. rewrite find_zero_none; [reflexivity|].
  unfold decimal_zeros. repeat (constructor; [cbv beta; lia|]). constructor.
Qed.

Lemma digits_of_ascii (n : N) : Forall ascii_digit (digits_of n).
Proof.
  induction n as [n H|n H IH] using digits_ind.
  - rewrite digits_of_small by assumption. constructor; [|constructor].
    unfold ascii_digit. lia.
  - rewrite digits_of_big by assumption. apply Forall_app. split; [assumption|].
    constructor; [|constructor]. unfold ascii_digit.
    assert (n mod 10 < 10)%N by (apply N.mod_lt; lia).
    set (m := (n mod 10)%N) in *. clearbody m. lia.
Qed.

Lemma digits_of_nonempty (n : N) : digits_of n <> [].
Proof.
  pose proof (ndigits_pos n) as H. unfold ndigits in H.
  destruct (digits_of n); [simpl in H; lia|discriminate].
Qed.

Lemma ascii_decimal (c : N) : ascii_digit c -> decimal_char c.
Proof. apply is_decimal_ascii. Qed.

Lemma Forall_ascii_decimal (ds : str) : Forall ascii_digit ds -> Forall decimal_char ds.
Proof. intros H. eapply Forall_impl; [exact H|exact ascii_decimal]. Qed.

Lemma span_digits_app (ds rest : str) :
  Forall decimal_char ds ->
  match rest with [] => True | c :: _ => todecimal c = None end ->
  span_digits (ds ++ rest) = (digit_values ds, rest).
Proof.
  intros Hds Hrest. induction Hds as [|c ds Hc Hds IH]; cbn [app span_digits].
  - destruct rest as [|c r]; [reflexivity|]. cbn [span_digits]. rewrite Hrest. reflexivity.
  - unfold decimal_char, is_decimal in Hc. cbn [digit_values map].
    destruct (todecimal c) as [v|]; [|discriminate]. rewrite IH. reflexivity.
Qed.

Lemma span_digits_all (ds : str) :
  Forall decimal_char ds -> span_digits ds = (digit_values ds, []).
Proof.
  intros H. rewrite <- (app_nil_r ds) at 1. apply span_digits_app; [assumption|exact I].
Qed.

Lemma digits_value_app (xs ys : list N) :
  digits_value (xs ++ ys) = fold_left (fun acc v => acc * 10 + v)%N ys (digits_value xs).
Proof. unfold digits_value. apply fold_left_app. Qed.

Lemma digits_value_snoc (xs : list N) (y : N) :
  digits_value (xs ++ [y]) = (digits_value xs * 10 + y)%N.
Proof. rewrite digits_value_app. reflexivity. Qed.

Lemma fold_digits_zero (ys : list N) (k : nat) :
  fold_left (fun acc v => acc * 10 + v)%N (repeat 0%N k ++ ys) 0%N
  = fold_left (fun acc v => acc * 10 + v)%N ys 0%N.
Proof. induction k as [|k IH]; simpl; [reflexivity|exact IH]. Qed.

Lemma digits_value_zeros (k : Z) (ys : list N) :
  digits_value (digit_values (zeros k) ++ ys) = digits_value ys.
Proof.
  unfold digits_value, zeros.
  replace (digit_values (repeat 48%N (Z.to_nat k))) with (repeat 0%N (Z.to_nat k)).
  - apply fold_digits_zero.
  - induction (Z.to_nat k) as [|n IH]; [reflexivity|].
    cbn [repeat digit_values map]. fold (digit_values (repeat 48%N n)).
    rewrite <- IH. reflexivity.
Qed.

(** Reading back the digits of a coefficient. *)
Lemma digits_value_of (n : N) : digits_value (digit_values (digits_of n)) = n.
Proof.
  induction n as [n H|n H IH] using digits_ind.
  - rewrite digits_of_small by assumption. unfold digits_value, digit_values.
    cbn [map]. rewrite todecimal_ascii by (unfold ascii_digit; lia). cbn [fold_left]. lia.
  - rewrite digits_of_big by assumption. unfold digit_values in *.
    rewrite map_app. cbn [map]. rewrite digits_value_snoc, IH.
    assert (n mod 10 < 10)%N as Hm by (apply N.mod_lt; lia).
    assert (n = 10 * (n / 10) + n mod 10)%N as Hdm by (apply N.div_mod; lia).
    set (q := (n / 10)%N) in *. set (m := (n mod 10)%N) in *. clearbody q m.
    rewrite todecimal_ascii by (unfold ascii_digit; lia). lia.
Qed.

Lemma zeros_ascii (k : Z) : Forall ascii_digit (zeros k).
Proof.
  unfold zeros. induction (Z.to_nat k); simpl; constructor; [unfold ascii_digit; lia|assumption].
Qed.

Lemma length_zeros (k : Z) : 0 <= k -> Z.of_nat (length (zeros k)) = k.
Proof. intros H. unfold zeros. rewrite repeat_length. lia. Qed.

Lemma decimal_char_not (c x : N) : decimal_char c -> todecimal x = None -> c <> x.
Proof. unfold decimal_char, is_decimal. intros H Hx ->. rewrite Hx in H. discriminate. Qed.

Lemma split_sign_digit (c : N) (r : str) : decimal_char c -> split_sign (c :: r) = (false, c :: r).
Proof.
  intros H. unfold split_sign.
  replace (c =? 45)%N with false
    by (symmetry; apply N.eqb_neq, (decimal_char_not c 45 H); reflexivity).
  replace (c =? 43)%N with false
    by (symmetry; apply N.eqb_neq, (decimal_char_not c 43 H); reflexivity).
  reflexivity.
Qed.

Lemma split_sign_signed (z : Z) :
  split_sign (signed_digits z) = (z <? 0, digits_of (Z.abs_N z)).
Proof. unfold signed_digits, split_sign. destruct (z <? 0); reflexivity. Qed.

Lemma length_digit_values (ds : str) : length (digit_values ds) = length ds.
Proof. apply length_map. Qed.

(** Reading a number written as sign, integer part, optional fraction and
    optional exponent. *)
Lemma Decimal_of_str_parts (sg dot : bool) (ip fp : str) (ex : option Z) :
  Forall decimal_char ip -> ip <> [] -> Forall decimal_char fp -> (dot = false -> fp = []) ->
  Decimal_of_str
    ((if sg then [45%N] else []) ++ ip ++ (if dot then 46%N :: fp else [])
     ++ match ex with None => [] | Some z => 69%N :: signed_digits z end)
  = Ok (mkDec sg (digits_value (digit_values ip ++ digit_values fp))
              (match ex with None => 0 | Some z => z end - Z.of_nat (length fp))).
Proof.
  intros Hip Hne Hfp Hdot. unfold Decimal_of_str.
  set (ep := match ex with None => [] | Some z => 69%N :: signed_digits z end).
  set (rest1 := (if dot then 46%N :: fp else []) ++ ep).
  assert (match rest1 with [] => True | c :: _ => todecimal c = None end) as Hr1.
  { unfold rest1, ep. destruct dot; [apply todecimal_gap; lia|].
    destruct ex; [apply todecimal_gap; lia|exact I]. }
  assert (match ep with [] => True | c :: _ => todecimal c = None end) as Hep.
  { unfold ep. destruct ex; [apply todecimal_gap; lia|exact I]. }
  assert (split_sign ((if sg then [45%N] else []) ++ ip ++ rest1) = (sg, ip ++ rest1)) as ->.
  { destruct sg; [reflexivity|]. destruct ip as [|c ip]; [congruence|].
    inversion Hip; subst. apply split_sign_digit. assumption. }
  rewrite (span_digits_app ip rest1 Hip Hr1).
  assert (match rest1 with
          | c :: r => if (c =? 46)%N then span_digits r else ([], rest1)
          | [] => ([], rest1)
          end = (digit_values fp, ep)) as ->.
  { unfold rest1. destruct dot.
    - cbn [app]. change (46 =? 46)%N with true. cbv iota.
      apply span_digits_app; assumption.
    - rewrite (Hdot eq_refl). cbn [app]. unfold ep. destruct ex; reflexivity. }
  rewrite length_digit_values.
  destruct ip as [|c0 ip0]; [congruence|]. cbn [length Nat.eqb andb].
  rewrite length_digit_values.
  unfold ep. destruct ex as [z|]; [|reflexivity].
  change ((69 =? 69)%N || (69 =? 101)%N) with true. cbv iota.
  rewrite split_sign_signed.
  rewrite (span_digits_all _ (Forall_ascii_decimal _ (digits_of_ascii _))).
  pose proof (digits_of_nonempty (Z.abs_N z)) as Hnz.
  destruct (digit_values (digits_of (Z.abs_N z))) as [|v vs] eqn:Ev.
  { apply (f_equal (@length N)) in Ev. rewrite length_digit_values in Ev.
    destruct (digits_of (Z.abs_N z)); [congruence|discriminate]. }
  rewrite <- Ev, digits_value_of.
  f_equal. f_equal. destruct (z <? 0) eqn:Ez; [apply Z.ltb_lt in Ez|apply Z.ltb_ge in Ez]; lia.
Qed.

Lemma Decimal_of_str_shape (sg dot : bool) (ip fp : str) (ex : option Z) (s : str) (r : Dec) :
  Forall decimal_char ip -> ip <> [] -> Forall decimal_char fp -> (dot = false -> fp = []) ->
  s = (if sg then [45%N] else []) ++ ip ++ (if dot then 46%N :: fp else [])
      ++ match ex with None => [] | Some z => 69%N :: signed_digits z end ->
  r = mkDec sg (digits_value (digit_values ip ++ digit_values fp))
            (match ex with None => 0 | Some z => z end - Z.of_nat (length fp)) ->
  Decimal_of_str s = Ok r.
Proof. intros H1 H2 H3 H4 -> ->. apply Decimal_of_str_parts; assumption. Qed.

Ltac list_eq := cbv iota; cbn [app]; rewrite ?app_nil_r, <- ?app_assoc; cbn [app]; reflexivity.

(** [Decimal(str(d))] is [d]. *)
Lemma Decimal_of_str_to_str (d : Dec) : Decimal_of_str (dec_to_str d) = Ok d.
Proof.
  destruct d as [sg c e]. unfold dec_to_str. cbn [dsign dint dexp].
  pose proof (Forall_ascii_decimal _ (digits_of_ascii c)) as Hds.
  pose proof (digits_of_nonempty c) as Hne.
  pose proof (digits_value_of c) as Hval.
  set (ds := digits_of c) in *.
  set (len := Z.of_nat (length ds)).
  assert (1 <= len) as Hlen by (unfold len; destruct ds; [congruence|simpl; lia]).
  destruct ((e <=? 0) && (-6 <? e + len)) eqn:Ea.
  - apply andb_true_iff in Ea as [Ea1 Ea2]. apply Z.leb_le in Ea1. apply Z.ltb_lt in Ea2.
    rewrite Z.eqb_refl.
    destruct (e + len <=? 0) eqn:E1; [apply Z.leb_le in E1|apply Z.leb_gt in E1].
    + apply (Decimal_of_str_shape sg true [48%N] (zeros (- (e + len)) ++ ds) None).
      * constructor; [reflexivity|constructor].
      * discriminate.
      * apply Forall_app. split; [apply Forall_ascii_decimal, zeros_ascii|assumption].
      * discriminate.
      * list_eq.
      * f_equal.
        -- unfold digit_values at 2. rewrite map_app. fold (digit_values (zeros (- (e + len)))).
           fold (digit_values ds). change (digit_values [48%N]) with (digit_values (zeros 1)).
           rewrite digits_value_zeros, digits_value_zeros. symmetry. exact Hval.
        -- rewrite length_app, Nat2Z.inj_add, length_zeros by lia. fold len. lia.
    + destruct (len <=? e + len) eqn:E2; [apply Z.leb_le in E2|apply Z.leb_gt in E2].
      * assert (e = 0) as -> by lia. replace (0 + len - len) with 0 by lia.
        change (zeros 0) with (@nil N).
        apply (Decimal_of_str_shape sg false ds [] None); try assumption; try reflexivity;
          [constructor|list_eq|].
        f_equal. change (digit_values []) with (@nil N). rewrite app_nil_r.
        symmetry. exact Hval.
      * apply (Decimal_of_str_shape sg true (take (Z.to_nat (e + len)) ds)
                                   (drop (Z.to_nat (e + len)) ds) None).
        -- apply Forall_take. assumption.
        -- intros Ht. apply (f_equal (@length N)) in Ht. rewrite length_take in Ht.
           cbn [length] in Ht. unfold len in *. lia.
        -- apply Forall_drop. assumption.
        -- discriminate.
        -- list_eq.
        -- f_equal.
           ++ unfold digit_values. rewrite <- map_app, take_drop. symmetry. exact Hval.
           ++ rewrite length_drop. unfold len in *. lia.
  - assert ((e + len =? 1) = false) as ->.
    { apply Z.eqb_neq. intros H1. apply andb_false_iff in Ea.
      destruct Ea as [Ea|Ea]; [apply Z.leb_gt in Ea|apply Z.ltb_ge in Ea]; lia. }
    change (1 <=? 0) with false. cbv iota.
    destruct (len <=? 1) eqn:E2; [apply Z.leb_le in E2|apply Z.leb_gt in E2].
    + assert (len = 1) as Hl1 by lia. rewrite Hl1. change (zeros (1 - 1)) with (@nil N).
      apply (Decimal_of_str_shape sg false ds [] (Some (e + 1 - 1)));
        try assumption; try reflexivity; [constructor|list_eq|].
      f_equal; [|simpl; lia].
      change (digit_values []) with (@nil N). rewrite app_nil_r. symmetry. exact Hval.
    + apply (Decimal_of_str_shape sg true (take (Z.to_nat 1) ds) (drop (Z.to_nat 1) ds)
                                 (Some (e + len - 1))).
      * apply Forall_take. assumption.
      * intros Ht. apply (f_equal (@length N)) in Ht. rewrite length_take in Ht.
        cbn [length] in Ht. unfold len in *. lia.
      * apply Forall_drop. assumption.
      * discriminate.
      * list_eq.
      * f_equal.
        -- unfold digit_values. rewrite <- map_app, take_drop. symmetry. exact Hval.
        -- rewrite length_drop. unfold len in *. lia.
Qed.

(** ** Billing calculator *)

Ltac inv_bind H :=
  let x := fresh "x" in
  let Hx := fresh "Hx" in
  apply bind_Ok_inv in H as (x & Hx & H).

(** What a successful calculation went through. *)
Lemma calculate_inv (old_values : UtilityBill) (inp : InputData) (c : Calculation) :
  calculate old_values inp = Ok c ->
  _get_rate (cw_rate inp) (cold_water old_values) = Ok (c_cw_rate c)
  /\ _get_rate (hw_rate inp) (hot_water old_values) = Ok (c_hw_rate c)
  /\ _get_rate (el_rate inp) (electricity old_values) = Ok (c_el_rate c)
  /\ match water_disposal old_values with
     | Some _ => _get_rate (wd_rate inp) (water_disposal old_values)
     | None => Ok (disposal_default inp)
     end = Ok (c_wd_rate c)
  /\ current_of (cold_water old_values) = Ok (c_cw_old c)
  /\ current_of (hot_water old_values) = Ok (c_hw_old c)
  /\ current_of (electricity old_values) = Ok (c_el_old c)
  /\ dec_sub (cw inp) (c_cw_old c) = Ok (c_cw_cons c)
  /\ dec_sub (hw inp) (c_hw_old c) = Ok (c_hw_cons c)
  /\ dec_add (c_cw_cons c) (c_hw_cons c) = Ok (c_wd_cons c)
  /\ dec_sub (el inp) (c_el_old c) = Ok (c_el_cons c)
  /\ cost (c_cw_cons c) (c_cw_rate c) = Ok (c_cw_amt c)
  /\ cost (c_hw_cons c) (c_hw_rate c) = Ok (c_hw_amt c)
  /\ cost (c_wd_cons c) (c_wd_rate c) = Ok (c_wd_amt c)
  /\ cost (c_el_cons c) (c_el_rate c) = Ok (c_el_amt c)
  /\ exists s1 s2 s3,
       dec_add (c_cw_amt c) (c_hw_amt c) = Ok s1
       /\ dec_add s1 (c_wd_amt c) = Ok s2
       /\ dec_add s2 (c_el_amt c) = Ok s3
       /\ _round s3 = Ok (c_total c).
Proof.
  unfold calculate. cbv zeta. intros H.
  apply bind_Ok_inv in H as (r1 & H1 & H). apply bind_Ok_inv in H as (r2 & H2 & H).
  apply bind_Ok_inv in H as (r3 & H3 & H). apply bind_Ok_inv in H as (r4 & H4 & H).
  apply bind_Ok_inv in H as (o1 & H5 & H). apply bind_Ok_inv in H as (c1 & H6 & H).
  apply bind_Ok_inv in H as (o2 & H7 & H). apply bind_Ok_inv in H as (c2 & H8 & H).
  apply bind_Ok_inv in H as (c3 & H9 & H). apply bind_Ok_inv in H as (o3 & H10 & H).
  apply bind_Ok_inv in H as (c4 & H11 & H). apply bind_Ok_inv in H as (a1 & H12 & H).
  apply bind_Ok_inv in H as (a2 & H13 & H). apply bind_Ok_inv in H as (a3 & H14 & H).
  apply bind_Ok_inv in H as (a4 & H15 & H). apply bind_Ok_inv in H as (t & H16 & H).
  apply bind_Ok_inv in H16 as (s1 & Hs1 & H16).
  apply bind_Ok_inv in H16 as (s2 & Hs2 & H16).
  apply bind_Ok_inv in H16 as (s3 & Hs3 & H16).
  injection H as <-. cbn [c_cw_rate c_hw_rate c_el_rate c_wd_rate c_cw_old c_hw_old c_el_old
    c_cw_cons c_hw_cons c_wd_cons c_el_cons c_cw_amt c_hw_amt c_wd_amt c_el_amt c_total].
  repeat (split; [assumption|]).
  exists s1, s2, s3. repeat (split; [assumption|]). assumption.
Qed.

Lemma cost_sound (cons rate amt : Dec) : cost cons rate = Ok amt -> amount_ok cons rate amt.
Proof.
  unfold cost. intros H. apply bind_Ok_inv in H as (p & Hp & H).
  split; [apply (round_sound p amt H)|].
  intros [Hc He]. rewrite (round_value p amt H).
  apply round2_comp. apply dec_mul_value_ok; assumption.
Qed.

(** Adding two amounts of two decimal places, when the sum fits the
    precision. *)
Lemma add_amounts (a b r : Dec) :
  dexp a = -2 -> dexp b = -2 -> Z.abs (signed a + signed b) < 10 ^ prec ->
  dec_add a b = Ok r ->
  dexp r = -2 /\ signed r = signed a + signed b
  /\ (dec_value r == dec_value a + dec_value b)%Q.
Proof.
  intros Ha Hb Hfit Hadd.
  pose proof (dec_add_exact a b) as Hex. cbv zeta in Hex.
  rewrite Ha, Hb in Hex. change (Z.min (-2) (-2)) with (-2) in Hex.
  change (-2 - -2) with 0 in Hex. change (10 ^ 0) with 1 in Hex.
  rewrite !Z.mul_1_r in Hex.
  destruct Hex as (r' & Hr' & He & Hs);
    [assumption|unfold Etiny, Etop, Emin, Emax, prec; lia|].
  rewrite Hadd in Hr'. injection Hr' as <-.
  split; [assumption|]. split; [assumption|].
  apply (dec_add_value a b r (signed a + signed b) (-2)); try assumption.
  - rewrite Ha, Hb. reflexivity.
  - rewrite Ha, Hb. change (-2 - -2) with 0. change (10 ^ 0) with 1. ring.
Qed.

(** A value of two decimal places is its own rounding. *)
Lemma round2_two_places (d : Dec) : dexp d = -2 -> (round2 (dec_value d) == dec_value d)%Q.
Proof.
  intros He. unfold round2.
  rewrite (round_half_away_comp _ (inject_Z (signed d))).
  - rewrite round_half_away_Z. unfold dec_value. rewrite He. reflexivity.
  - unfold dec_value. rewrite Qscale100, He. simpl. ring.
Qed.

(** C1 (as amended). Each amount has two decimal places and is the exact
    product consumption x rate rounded half away from zero, provided the
    product of the two coefficients is below [10 ^ prec] and the exponents
    add up to at least [Etiny], so that the decimal context does not round
    the product first.  The total has two decimal places and is the sum of
    the four rounded amounts, rounded again, which leaves it unchanged,
    provided each running sum of the amounts, in the order cold water, hot
    water, water disposal, electricity, stays below [10 ^ prec] hundredths
    in magnitude, so that the context rounds none of them.  Consumption 8 at
    rate 59.8 costs 478.40. *)
Theorem C1_amounts_and_total (old_values : UtilityBill) (inp : InputData) (c : Calculation) :
  calculate old_values inp = Ok c ->
  amount_ok (c_cw_cons c) (c_cw_rate c) (c_cw_amt c)
  /\ amount_ok (c_hw_cons c) (c_hw_rate c) (c_hw_amt c)
  /\ amount_ok (c_wd_cons c) (c_wd_rate c) (c_wd_amt c)
  /\ amount_ok (c_el_cons c) (c_el_rate c) (c_el_amt c)
  /\ dexp (c_total c) = -2
  /\ (running_sums_fit c ->
      (dec_value (c_total c) == round2 (amounts_sum c))%Q
      /\ (dec_value (c_total c) == amounts_sum c)%Q)
  /\ cost (D "8") (D "59.8") = Ok (D "478.40").
Proof.
  intros H. apply calculate_inv in H
    as (_ & _ & _ & _ & _ & _ & _ & _ & _ & _ & _ & A1 & A2 & A3 & A4 & s1 & s2 & s3
        & S1 & S2 & S3 & T).
  apply cost_sound in A1, A2, A3, A4.
  repeat (split; [assumption|]).
  split; [apply (round_sound s3 _ T)|].
  split; [|reflexivity].
  intros (F1 & F2 & F3). unfold amounts_sum.
  destruct A1 as [E1 _], A2 as [E2 _], A3 as [E3 _], A4 as [E4 _].
  apply add_amounts in S1 as (Es1 & Bs1 & Vs1); [|assumption|assumption|assumption].
  apply add_amounts in S2 as (Es2 & Bs2 & Vs2); [|assumption|assumption|rewrite Bs1; assumption].
  apply add_amounts in S3 as (Es3 & Bs3 & Vs3);
    [|assumption|assumption|rewrite Bs2, Bs1; assumption].
  assert (dec_value s3 == dec_value (c_cw_amt c) + dec_value (c_hw_amt c)
                          + dec_value (c_wd_amt c) + dec_value (c_el_amt c))%Q as Hsum
    by (rewrite Vs3, Vs2, Vs1; reflexivity).
  rewrite (round_value s3 _ T). split.
  - apply round2_comp. assumption.
  - rewrite (round2_two_places s3 Es3). assumption.
Qed.

Lemma C1_witness :
  calculate old_sample inp_sample = Ok calc_sample
  /\ amount_ok (c_cw_cons calc_sample) (c_cw_rate calc_sample) (c_cw_amt calc_sample)
  /\ (dec_value (c_total calc_sample) == amounts_sum calc_sample)%Q.
Proof.
  split; [reflexivity|].
  destruct (C1_amounts_and_total old_sample inp_sample calc_sample eq_refl)
    as (H1 & _ & _ & _ & _ & H & _).
  split; [exact H1|]. apply H. vm_compute. repeat split; reflexivity.
Defined.

(** C1 fails as stated: half a unit at a rate of 29 significant digits.  The
    exact product 0.00499999999999999999999999999995 rounds to 0.00, but the
    context first rounds it to 0.005000000000000000000000000000 and the
    amount is 0.01.  The total fails too: for amounts that add up to 0.07
    over a running sum of 29 digits it is 0.11. *)
Lemma C1_counterexample :
  (exists c, calculate old_zero inp_long_rate = Ok c
     /\ ~ (dec_value (c_cw_amt c)
           == round2 (dec_value (c_cw_cons c) * dec_value (c_cw_rate c)))%Q)
  /\ (exists c, calculate old_long_el inp_long_amounts = Ok c
        /\ (amounts_sum c == 7 # 100)%Q /\ c_total c = D "0.11").
Proof.
  split.
  - eexists. split; [vm_compute; reflexivity|].
    intros H. vm_compute in H. discriminate H.
  - eexists. split; [vm_compute; reflexivity|]. split; vm_compute; reflexivity.
Qed.

(** *** The calculator succeeds on household-sized values *)

Lemma pow10_le_1000 (k : Z) : 0 <= k <= 3 -> 1 <= 10 ^ k <= 1000.
Proof.
  intros H. split.
  - change 1 with (10 ^ 0). apply Z.pow_le_mono_r; lia.
  - change 1000 with (10 ^ 3). apply Z.pow_le_mono_r; lia.
Qed.

Lemma add_bounded (a b : Dec) (A B : Z) :
  Z.of_N (dint a) < A -> Z.of_N (dint b) < B ->
  -3 <= dexp a <= 0 -> -3 <= dexp b <= 0 -> (A + B) * 1000 <= 10 ^ prec ->
  exists r, dec_add a b = Ok r /\ Z.of_N (dint r) < (A + B) * 1000 /\ -3 <= dexp r <= 0.
Proof.
  intros Ha Hb Ea Eb HAB.
  pose proof (dec_add_exact a b) as Hex. cbv zeta in Hex.
  set (e := Z.min (dexp a) (dexp b)) in *.
  pose proof (pow10_le_1000 (dexp a - e) ltac:(unfold e; lia)) as P1.
  pose proof (pow10_le_1000 (dexp b - e) ltac:(unfold e; lia)) as P2.
  set (p1 := 10 ^ (dexp a - e)) in *. set (p2 := 10 ^ (dexp b - e)) in *.
  pose proof (signed_abs a) as Sa. pose proof (signed_abs b) as Sb.
  pose proof (N2Z.is_nonneg (dint a)) as Na. pose proof (N2Z.is_nonneg (dint b)) as Nb.
  assert (Z.abs (signed a * p1 + signed b * p2) < (A + B) * 1000) as Hz.
  { pose proof (Z.abs_triangle (signed a * p1) (signed b * p2)) as Ht.
    rewrite !Z.abs_mul, Sa, Sb in Ht.
    rewrite (Z.abs_eq p1), (Z.abs_eq p2) in Ht by lia.
    assert (Z.of_N (dint a) * p1 <= Z.of_N (dint a) * 1000)
      by (apply Z.mul_le_mono_nonneg_l; lia).
    assert (Z.of_N (dint b) * p2 <= Z.of_N (dint b) * 1000)
      by (apply Z.mul_le_mono_nonneg_l; lia).
    lia. }
  destruct Hex as (r & Hr & He & Hs);
    [lia|unfold e, Etiny, Etop, Emin, Emax, prec; lia|].
  exists r. split; [assumption|]. split.
  - rewrite <- (signed_abs r), Hs. assumption.
  - rewrite He. unfold e. lia.
Qed.

Lemma neg_bounds (b : Dec) : dint (dec_neg b) = dint b /\ dexp (dec_neg b) = dexp b.
Proof. split; reflexivity. Qed.

Lemma sub_small (a b : Dec) :
  small a -> small b ->
  exists r, dec_sub a b = Ok r /\ Z.of_N (dint r) < 2 * 10 ^ 11 /\ -3 <= dexp r <= 0.
Proof.
  intros [Ha Ea] [Hb Eb]. unfold dec_sub.
  apply (add_bounded a (dec_neg b) (10 ^ 8) (10 ^ 8)); try assumption.
  - change (10 ^ 8) with (Z.of_N (10 ^ 8)). lia.
  - change (10 ^ 8) with (Z.of_N (10 ^ 8)). cbn [dec_neg dint]. lia.
  - unfold prec. lia.
Qed.

(** A value of two decimal places within the precision is left alone. *)
Lemma round_two_places (d : Dec) :
  dexp d = -2 -> Z.of_N (dint d) < 10 ^ prec -> _round d = Ok d.
Proof.
  intros He Hc. pose proof (ndigits_le_prec _ Hc) as Hn.
  pose proof (ndigits_pos (dint d)) as Hp.
  unfold _round, quantize. rewrite quantize_range_ok. cbn [dexp dec_001].
  destruct (dint d =? 0)%N eqn:Ez.
  - apply N.eqb_eq in Ez. destruct d as [s c e]. simpl in *. subst. reflexivity.
  - unfold adjusted. rewrite He.
    replace (Emax <? -2 + ndigits (dint d) - 1) with false
      by (symmetry; apply Z.ltb_ge; unfold Emax, prec in *; lia).
    replace (prec <? -2 + ndigits (dint d) - 1 - -2 + 1) with false
      by (symmetry; apply Z.ltb_ge; lia).
    assert (rescale ROUND_HALF_UP d (-2) = d) as ->.
    { unfold rescale. rewrite Ez, He. change (-2 <=? -2) with true. cbv iota.
      change (Z.to_N (-2 - -2)) with 0%N. rewrite N.pow_0_r, N.mul_1_r.
      destruct d; simpl in *; subst; reflexivity. }
    rewrite He.
    replace (Emax <? -2 + ndigits (dint d) - 1) with false
      by (symmetry; apply Z.ltb_ge; unfold Emax, prec in *; lia).
    replace (prec <? ndigits (dint d)) with false by (symmetry; apply Z.ltb_ge; lia).
    apply fix_id; [assumption|rewrite He; unfold Etiny, Etop, Emin, Emax, prec; lia].
Qed.

Lemma cost_bounded (cons rate : Dec) (A : Z) :
  Z.of_N (dint cons) < A -> -3 <= dexp cons <= 0 -> small rate -> A <= 10 ^ 15 ->
  exists amt, cost cons rate = Ok amt /\ dexp amt = -2 /\ Z.of_N (dint amt) <= 10 ^ 25.
Proof.
  intros Hc Ec [Hr Er] HA.
  assert (Z.of_N (dint rate) < 10 ^ 8) as Hr' by (change (10 ^ 8) with (Z.of_N (10 ^ 8)); lia).
  pose proof (N2Z.is_nonneg (dint cons)) as Nc. pose proof (N2Z.is_nonneg (dint rate)) as Nr.
  assert (Z.of_N (dint cons * dint rate) < 10 ^ 23) as Hprod.
  { rewrite N2Z.inj_mul.
    assert (Z.of_N (dint cons) * Z.of_N (dint rate) <= Z.of_N (dint cons) * 10 ^ 8)
      by (apply Z.mul_le_mono_nonneg_l; lia).
    destruct (Z.eq_dec (Z.of_N (dint cons)) 0) as [E0|E0]; [rewrite E0; lia|].
    assert (Z.of_N (dint cons) * Z.of_N (dint rate) < Z.of_N (dint cons) * 10 ^ 8)
      by (apply Z.mul_lt_mono_pos_l; lia).
    lia. }
  destruct (dec_mul_exact cons rate) as (p & Hp & Ep & Cp & _);
    [unfold prec; lia|unfold Etiny, Etop, Emin, Emax, prec; lia|].
  unfold cost. rewrite Hp. cbn [bind].
  assert (ndigits (dint p) <= 23) as Hn.
  { apply ndigits_le; [lia|]. apply N2Z.inj_lt. rewrite of_N_pow10 by lia.
    rewrite Cp. assumption. }
  pose proof (ndigits_pos (dint p)) as Hpos.
  unfold _round, quantize. rewrite quantize_range_ok. cbn [dexp dec_001].
  destruct (dint p =? 0)%N eqn:Ez.
  { rewrite fix_zero. eexists. split; [reflexivity|]. split; [reflexivity|].
    cbn [dint]. change (Z.of_N 0) with 0. lia. }
  unfold adjusted at 1 2.
  replace (Emax <? dexp p + ndigits (dint p) - 1) with false
    by (symmetry; apply Z.ltb_ge; unfold Emax; lia).
  replace (prec <? dexp p + ndigits (dint p) - 1 - -2 + 1) with false
    by (symmetry; apply Z.ltb_ge; unfold prec; lia).
  set (ans := rescale ROUND_HALF_UP p (-2)).
  assert (dexp ans = -2 /\ Z.of_N (dint ans) <= 10 ^ 25) as [Ea Ca].
  { unfold ans, rescale. rewrite Ez.
    destruct (-2 <=? dexp p) eqn:E2; [apply Z.leb_le in E2|apply Z.leb_gt in E2];
      (split; [reflexivity|]); cbn [dint].
    - rewrite N2Z.inj_mul, of_N_pow10 by lia.
      assert (10 ^ (dexp p - -2) <= 10 ^ 2) by (apply Z.pow_le_mono_r; lia).
      assert (Z.of_N (dint p) * 10 ^ (dexp p - -2) <= Z.of_N (dint p) * 10 ^ 2)
        by (apply Z.mul_le_mono_nonneg_l; lia).
      rewrite Cp in *. lia.
    - pose proof (round_half_up_bounds (dint p) (Z.to_N (-2 - dexp p))) as [_ Hb].
      assert (dint p / 10 ^ Z.to_N (-2 - dexp p) <= dint p)%N as Hd.
      { apply N.Div0.div_le_upper_bound.
        assert (1 <= 10 ^ Z.to_N (-2 - dexp p))%N
          by (change 1%N with (10 ^ 0)%N; apply N.pow_le_mono_r; lia).
        nia. }
      rewrite Cp in *. lia. }
  assert (ndigits (dint ans) <= 26) as Hna.
  { apply ndigits_le; [lia|]. apply N2Z.inj_lt. rewrite of_N_pow10 by lia. lia. }
  pose proof (ndigits_pos (dint ans)) as Hpa.
  unfold adjusted. rewrite Ea.
  replace (Emax <? -2 + ndigits (dint ans) - 1) with false
    by (symmetry; apply Z.ltb_ge; unfold Emax; lia).
  replace (prec <? ndigits (dint ans)) with false
    by (symmetry; apply Z.ltb_ge; unfold prec; lia).
  rewrite fix_id; [|unfold prec; lia|rewrite Ea; unfold Etiny, Etop, Emin, Emax, prec; lia].
  exists ans. split; [reflexivity|]. split; assumption.
Qed.

Lemma add_two_places (a b : Dec) :
  dexp a = -2 -> dexp b = -2 -> Z.of_N (dint a) + Z.of_N (dint b) < 10 ^ prec ->
  exists r, dec_add a b = Ok r /\ dexp r = -2
            /\ Z.of_N (dint r) <= Z.of_N (dint a) + Z.of_N (dint b).
Proof.
  intros Ha Hb Hfit.
  pose proof (dec_add_exact a b) as Hex. cbv zeta in Hex.
  rewrite Ha, Hb in Hex. change (Z.min (-2) (-2)) with (-2) in Hex.
  change (-2 - -2) with 0 in Hex. change (10 ^ 0) with 1 in Hex.
  rewrite !Z.mul_1_r in Hex.
  pose proof (signed_abs a) as Sa. pose proof (signed_abs b) as Sb.
  destruct Hex as (r & Hr & He & Hs);
    [lia|unfold Etiny, Etop, Emin, Emax, prec; lia|].
  exists r. split; [assumption|]. split; [assumption|].
  rewrite <- (signed_abs r), Hs. lia.
Qed.

Lemma get_rate_resolved (override : option Dec) (fallback : option UtilityReading) :
  _get_rate override fallback =
  match resolved override fallback with
  | Some r => Ok r
  | None => Raise (AttributeError msg_no_rate)
  end.
Proof.
  destruct override as [r|]; [reflexivity|].
  destruct fallback as [f|]; [|reflexivity].
  simpl. apply Decimal_of_str_to_str.
Qed.

Lemma get_rate_small (override : option Dec) (f : UtilityReading) :
  small_option override -> small (rate f) ->
  exists r, _get_rate override (Some f) = Ok r /\ small r.
Proof.
  intros Ho Hf. rewrite get_rate_resolved. destruct override as [r|]; simpl; eauto.
Qed.

Lemma small_zero : small (mkDec false 0 0).
Proof. split; simpl; lia. Qed.

(** On household-sized values the calculation always succeeds, whatever the
    order of old and new readings. *)
Lemma calculate_small (old_values : UtilityBill) (inp : InputData) :
  small_bill old_values -> small_input inp -> exists c, calculate old_values inp = Ok c.
Proof.
  intros ((rc & Hc & Sc1 & Sc2) & (rh & Hh & Sh1 & Sh2) & (re & He & Se1 & Se2) & Hw)
         (I1 & I2 & I3 & O1 & O2 & O3 & O4).
  unfold calculate. cbv zeta. rewrite Hc, Hh, He.
  destruct (get_rate_small (cw_rate inp) rc O1 Sc2) as (r1 & -> & R1). cbn [bind].
  destruct (get_rate_small (hw_rate inp) rh O2 Sh2) as (r2 & -> & R2). cbn [bind].
  destruct (get_rate_small (el_rate inp) re O4 Se2) as (r3 & -> & R3). cbn [bind].
  assert (exists r4,
    match water_disposal old_values with
    | Some _ => _get_rate (wd_rate inp) (water_disposal old_values)
    | None => Ok (match wd_rate inp with Some r => r | None => mkDec false 0 0 end)
    end = Ok r4 /\ small r4) as (r4 & -> & R4).
  { destruct (water_disposal old_values) as [rw|].
    - apply get_rate_small; assumption.
    - eexists. split; [reflexivity|].
      destruct (wd_rate inp); [assumption|apply small_zero]. }
  cbn [bind current_of].
  destruct (sub_small (cw inp) (current rc) I1 Sc1) as (c1 & -> & B1 & E1). cbn [bind].
  destruct (sub_small (hw inp) (current rh) I2 Sh1) as (c2 & -> & B2 & E2). cbn [bind].
  destruct (add_bounded c1 c2 _ _ B1 B2 E1 E2) as (c3 & -> & B3 & E3);
    [unfold prec; lia|]. cbn [bind].
  destruct (sub_small (el inp) (current re) I3 Se1) as (c4 & -> & B4 & E4). cbn [bind].
  destruct (cost_bounded c1 r1 _ B1 E1 R1) as (a1 & A1 & F1 & G1); [lia|].
  destruct (cost_bounded c2 r2 _ B2 E2 R2) as (a2 & A2 & F2 & G2); [lia|].
  destruct (cost_bounded c3 r4 _ B3 E3 R4) as (a3 & A3 & F3 & G3); [lia|].
  destruct (cost_bounded c4 r3 _ B4 E4 R3) as (a4 & A4 & F4 & G4); [lia|].
  unfold cost in A1, A2, A3, A4. rewrite A1. cbn [bind]. rewrite A2. cbn [bind].
  rewrite A3. cbn [bind]. rewrite A4. cbn [bind].
  pose proof (N2Z.is_nonneg (dint a1)). pose proof (N2Z.is_nonneg (dint a2)).
  pose proof (N2Z.is_nonneg (dint a3)). pose proof (N2Z.is_nonneg (dint a4)).
  destruct (add_two_places a1 a2 F1 F2) as (s1 & -> & T1 & U1); [unfold prec; lia|].
  cbn [bind].
  destruct (add_two_places s1 a3 T1 F3) as (s2 & -> & T2 & U2); [unfold prec; lia|].
  cbn [bind].
  destruct (add_two_places s2 a4 T2 F4) as (s3 & -> & T3 & U3); [unfold prec; lia|].
  cbn [bind].
  rewrite (round_two_places s3 T3) by (unfold prec; lia). cbn [bind].
  eexists. reflexivity.
Qed.

Ltac small_facts :=
  repeat match goal with
  | |- _ /\ _ => split
  | |- exists _, _ = _ /\ _ => eexists; split; [reflexivity|]
  | |- True => exact I
  | |- (_ < _)%N => vm_compute; reflexivity
  | |- _ <= _ => vm_compute; discriminate
  | |- _ => progress (unfold small_bill, small_input, small_reading, small_option, small)
  | |- _ => progress cbn [cold_water hot_water electricity water_disposal old_sample
                          old_no_disposal cw hw el cw_rate hw_rate wd_rate el_rate
                          inp_sample inp_lower current rate]
  end.

Lemma old_sample_small : small_bill old_sample.
Proof. small_facts. Defined.


Lemma inp_sample_small : small_input inp_sample.
Proof. small_facts. Defined.

Lemma inp_lower_small : small_input inp_lower.
Proof. small_facts. Defined.

(** C2 (as amended). [_get_rate] returns the override when one was
    supplied, otherwise the rate stored in the old reading, and raises its
    AttributeError when there is neither.  So for cold water, hot water and
    electricity the rate of a calculation is the override, else the
    inherited rate: a calculation on household-sized values succeeds with
    exactly these rates, and when a utility has neither override nor old
    reading the calculation fails with that AttributeError, whose fixed
    message is the same for every utility and does not name it. *)
Theorem C2_rate_resolution (old_values : UtilityBill) (inp : InputData) :
  (forall override fallback,
     _get_rate override fallback
     = match resolved override fallback with
       | Some r => Ok r
       | None => Raise (AttributeError msg_no_rate)
       end)
  /\ (forall c, calculate old_values inp = Ok c ->
       resolved (cw_rate inp) (cold_water old_values) = Some (c_cw_rate c)
       /\ resolved (hw_rate inp) (hot_water old_values) = Some (c_hw_rate c)
       /\ resolved (el_rate inp) (electricity old_values) = Some (c_el_rate c))
  /\ (small_bill old_values -> small_input inp ->
      exists c, calculate old_values inp = Ok c
        /\ resolved (cw_rate inp) (cold_water old_values) = Some (c_cw_rate c)
        /\ resolved (hw_rate inp) (hot_water old_values) = Some (c_hw_rate c)
        /\ resolved (el_rate inp) (electricity old_values) = Some (c_el_rate c))
  /\ (resolved (cw_rate inp) (cold_water old_values) = None
      \/ resolved (hw_rate inp) (hot_water old_values) = None
      \/ resolved (el_rate inp) (electricity old_values) = None ->
      calculate old_values inp = Raise (AttributeError msg_no_rate)).
Proof.
  assert (forall c, calculate old_values inp = Ok c ->
       resolved (cw_rate inp) (cold_water old_values) = Some (c_cw_rate c)
       /\ resolved (hw_rate inp) (hot_water old_values) = Some (c_hw_rate c)
       /\ resolved (el_rate inp) (electricity old_values) = Some (c_el_rate c)) as Hok.
  { intros c H. apply calculate_inv in H as (H1 & H2 & H3 & _).
    rewrite get_rate_resolved in H1, H2, H3.
    destruct (resolved (cw_rate inp) (cold_water old_values)); [|discriminate].
    destruct (resolved (hw_rate inp) (hot_water old_values)); [|discriminate].
    destruct (resolved (el_rate inp) (electricity old_values)); [|discriminate].
    injection H1 as ->. injection H2 as ->. injection H3 as ->. auto. }
  split; [exact get_rate_resolved|]. split; [exact Hok|]. split.
  - intros Hb Hi. destruct (calculate_small old_values inp Hb Hi) as (c & Hc).
    exists c. split; [exact Hc|]. apply Hok. exact Hc.
  - intros H. unfold calculate. rewrite !get_rate_resolved.
    destruct (resolved (cw_rate inp) (cold_water old_values)); [|reflexivity].
    destruct (resolved (hw_rate inp) (hot_water old_values)); [|reflexivity].
    destruct (resolved (el_rate inp) (electricity old_values)); [|reflexivity].
    destruct H as [H|[H|H]]; discriminate H.
Qed.

(** The sample bill with new readings and no override: every rate is
    inherited, 59.8 for cold water; without the cold-water reading the
    calculation fails. *)
Lemma C2_witness :
  (exists c, calculate old_sample inp_sample = Ok c
     /\ Some (D "59.8") = Some (c_cw_rate c)
     /\ Some (D "272.14") = Some (c_hw_rate c)
     /\ Some (D "6.99") = Some (c_el_rate c))
  /\ calculate old_no_cold inp_sample = Raise (AttributeError msg_no_rate).
Proof.
  split.
  - apply (C2_rate_resolution old_sample inp_sample);
      [apply old_sample_small|apply inp_sample_small].
  - apply (C2_rate_resolution old_no_cold inp_sample). left. reflexivity.
Defined.

(** C2 fails as stated: without a cold-water reading and without a
    hot-water reading the calculator raises one and the same error, and its
    message contains none of the names of the utilities. *)
Lemma C2_counterexample :
  calculate old_no_cold inp_sample = Raise (AttributeError msg_no_rate)
  /\ calculate old_no_hot inp_sample = Raise (AttributeError msg_no_rate)
  /\ existsb (fun w => is_infix w msg_no_rate) utility_names = false.
Proof. repeat split; vm_compute; reflexivity. Qed.



Lemma current_of_inv (o : option UtilityReading) (d : Dec) :
  current_of o = Ok d -> exists r, o = Some r /\ current r = d.
Proof. destruct o as [r|]; simpl; [intros [= <-]; eauto|discriminate]. Qed.

Lemma dec_sub_ok (a b r : Dec) : dec_sub a b = Ok r -> difference_ok a b r.
Proof.
  intros H. split; [assumption|]. intros [Hz He].
  unfold dec_sub in H. apply dec_add_value_ok in H; [|assumption|assumption].
  rewrite H, dec_value_neg. reflexivity.
Qed.

Lemma dec_add_ok (a b r : Dec) : dec_add a b = Ok r -> addition_ok a b r.
Proof.
  intros H. split; [assumption|]. intros [Hz He].
  apply dec_add_value_ok; assumption.
Qed.

(** *** What the report shows *)

Lemma is_prefix_app (w b : str) : is_prefix w (w ++ b) = true.
Proof.
  induction w as [|x w IH]; [reflexivity|]. cbn [app is_prefix].
  rewrite N.eqb_refl, IH. reflexivity.
Qed.

Lemma is_prefix_app_both (x w s : str) :
  is_prefix w s = true -> is_prefix (x ++ w) (x ++ s) = true.
Proof.
  intros H. induction x as [|a x IH]; [exact H|]. cbn [app is_prefix].
  rewrite N.eqb_refl, IH. reflexivity.
Qed.

Lemma is_infix_prefix (w s : str) : is_prefix w s = true -> is_infix w s = true.
Proof. intros H. destruct s; cbn [is_infix]; rewrite H; reflexivity. Qed.

Lemma is_infix_app_r (w a s : str) : is_infix w s = true -> is_infix w (a ++ s) = true.
Proof.
  intros H. induction a as [|x a IH]; [exact H|]. cbn [app is_infix].
  rewrite IH. apply orb_true_r.
Qed.

Lemma cost_text_prefix (cons rate amt : Dec) (rest : str) :
  is_prefix (cost_text cons rate amt)
            (dec_to_str cons ++ U " * " ++ dec_to_str rate ++ U " = " ++ dec_to_str amt ++ rest)
  = true.
Proof. unfold cost_text. do 4 apply is_prefix_app_both. apply is_prefix_app. Qed.

(** The report holds the cost line of each utility: consumption, rate and
    amount as Python writes these Decimals. *)
Lemma render_cost_lines (inp : InputData) (c : Calculation) (date_str : str) :
  is_infix (cost_text (c_cw_cons c) (c_cw_rate c) (c_cw_amt c)) (render inp c date_str) = true
  /\ is_infix (cost_text (c_hw_cons c) (c_hw_rate c) (c_hw_amt c)) (render inp c date_str)
     = true
  /\ is_infix (cost_text (c_wd_cons c) (c_wd_rate c) (c_wd_amt c)) (render inp c date_str)
     = true
  /\ is_infix (cost_text (c_el_cons c) (c_el_rate c) (c_el_amt c)) (render inp c date_str)
     = true.
Proof.
  unfold render. repeat split.
  - do 9 apply is_infix_app_r. apply is_infix_prefix, cost_text_prefix.
  - do 25 apply is_infix_app_r. apply is_infix_prefix, cost_text_prefix.
  - do 34 apply is_infix_app_r. apply is_infix_prefix, cost_text_prefix.
  - do 50 apply is_infix_app_r. apply is_infix_prefix, cost_text_prefix.
Qed.

(** A negative Decimal is written with a minus sign. *)
Lemma dec_to_str_negative (d : Dec) : dsign d = true -> exists t, dec_to_str d = 45%N :: t.
Proof.
  intros H. unfold dec_to_str. rewrite H. cbv zeta.
  destruct (if _ : bool then _ else _) as [ip fp]. cbn [app]. eauto.
Qed.

(** C4 (as amended). In a successful calculation the three metered
    consumptions are new reading minus old current reading and the disposal
    consumption is cold plus hot consumption, all computed in the decimal
    context: exact whenever the exact result, written at the smaller of the
    two exponents, stays below [10 ^ prec] in magnitude.  The amounts are
    computed from these consumptions, and the report holds, for each
    utility, the line with consumption, rate and amount as Python writes
    them, a negative one with its minus sign.  On household-sized values the
    calculation succeeds whether or not a new reading is below the old one;
    for the sample bill and new readings below the old ones the consumption
    is -7, the amount -418.60, and the report reads [-7 * 59.8 = -418.60]. *)
Theorem C4_consumption (old_values : UtilityBill) (inp : InputData) :
  (forall c, calculate old_values inp = Ok c ->
     exists rc rh re,
       cold_water old_values = Some rc /\ hot_water old_values = Some rh
       /\ electricity old_values = Some re
       /\ difference_ok (cw inp) (current rc) (c_cw_cons c)
       /\ difference_ok (hw inp) (current rh) (c_hw_cons c)
       /\ difference_ok (el inp) (current re) (c_el_cons c)
       /\ addition_ok (c_cw_cons c) (c_hw_cons c) (c_wd_cons c)
       /\ cost (c_cw_cons c) (c_cw_rate c) = Ok (c_cw_amt c)
       /\ cost (c_hw_cons c) (c_hw_rate c) = Ok (c_hw_amt c)
       /\ cost (c_wd_cons c) (c_wd_rate c) = Ok (c_wd_amt c)
       /\ cost (c_el_cons c) (c_el_rate c) = Ok (c_el_amt c)
       /\ forall now, exists report,
            _build_message now old_values inp = Ok report
            /\ report = render inp c (strftime_dmy now)
            /\ is_infix (cost_text (c_cw_cons c) (c_cw_rate c) (c_cw_amt c)) report = true
            /\ is_infix (cost_text (c_hw_cons c) (c_hw_rate c) (c_hw_amt c)) report = true
            /\ is_infix (cost_text (c_wd_cons c) (c_wd_rate c) (c_wd_amt c)) report = true
            /\ is_infix (cost_text (c_el_cons c) (c_el_rate c) (c_el_amt c)) report = true)
  /\ (forall d, dsign d = true -> exists t, dec_to_str d = 45%N :: t)
  /\ (small_bill old_values -> small_input inp -> exists c, calculate old_values inp = Ok c)
  /\ (exists c report,
        calculate old_sample inp_lower = Ok c
        /\ c_cw_cons c = D "-7" /\ c_cw_amt c = D "-418.60"
        /\ c_wd_cons c = D "-7" /\ c_wd_amt c = D "-321.37"
        /\ _build_message (mkDate 2025 7 22) old_sample inp_lower = Ok report
        /\ is_infix (U "-7 * 59.8 = -418.60") report = true
        /\ is_infix (U "-7 * 45.91 = -321.37") report = true).
Proof.
  split; [|split; [exact dec_to_str_negative|split]].
  - intros c H. pose proof H as Hc. apply calculate_inv in H
      as (_ & _ & _ & _ & O1 & O2 & O3 & S1 & S2 & S3 & S4 & A1 & A2 & A3 & A4 & _).
    apply current_of_inv in O1 as (rc & Hrc & Ec).
    apply current_of_inv in O2 as (rh & Hrh & Eh).
    apply current_of_inv in O3 as (re & Hre & Ee).
    exists rc, rh, re. rewrite Ec, Eh, Ee.
    repeat (split; [first [assumption | apply dec_sub_ok; assumption
                          | apply dec_add_ok; assumption]|]).
    intros now. exists (render inp c (strftime_dmy now)).
    split; [unfold _build_message; rewrite Hc; reflexivity|].
    split; [reflexivity|]. apply render_cost_lines.
  - apply calculate_small.
  - eexists. eexists. split; [vm_compute; reflexivity|].
    repeat (split; [vm_compute; reflexivity|]). vm_compute. reflexivity.
Qed.

Lemma C4_witness :
  exists c, calculate old_sample inp_lower = Ok c.
Proof.
  apply (C4_consumption old_sample inp_lower).
  - exact old_sample_small.
  - exact inp_lower_small.
Defined.

(** C4 fails as stated: with a new cold-water reading of 29 digits the
    calculation succeeds and the consumption is the difference rounded to
    28 digits, 1.000000000000000000000000000E+28, not the difference. *)
Lemma C4_counterexample :
  exists c, calculate old_zero inp_long_reading = Ok c
    /\ ~ (dec_value (c_cw_cons c)
          == dec_value (cw inp_long_reading) - dec_value (c_cw_old c))%Q.
Proof.
  eexists. split; [vm_compute; reflexivity|].
  intros H. vm_compute in H. discriminate H.
Qed.

(** ** Regular expressions *)

(** Induction on a pattern node, with the nodes of its body. *)
Lemma re_nested_ind (P : re -> Prop) :
  (forall c, P (Lit c)) -> (forall k, P (Cls k)) -> (forall k, P (Star k)) ->
  (forall k, P (Plus k)) -> (forall k, P (PlusLazy k)) ->
  (forall body, Forall P body -> P (Opt body)) ->
  (forall body, Forall P body -> P (Grp body)) ->
  forall r, P r.
Proof.
  intros HL HC HS HP HZ HO HG.
  fix IH 1. intros [c|k|k|k|k|body|body].
  - apply HL.
  - apply HC.
  - apply HS.
  - apply HP.
  - apply HZ.
  - apply HO. induction body as [|r body IHb]; constructor; [apply IH|exact IHb].
  - apply HG. induction body as [|r body IHb]; constructor; [apply IH|exact IHb].
Qed.

Section MatcherFacts.
Variable ic : bool.
Context {R : Type}.
Implicit Types (k : str -> list str -> option R) (v : R).

Lemma mseq_nil s caps k : mseq ic [] s caps k = k s caps.
Proof. reflexivity. Qed.

Lemma mseq_cons r rs s caps k :
  mseq ic (r :: rs) s caps k = mre ic r s caps (fun s' caps' => mseq ic rs s' caps' k).
Proof. reflexivity. Qed.

Lemma mre_opt body s caps k :
  mre ic (Opt body) s caps k
  = match mseq ic body s caps k with Some v => Some v | None => k s caps end.
Proof. reflexivity. Qed.

Lemma mre_grp body s caps k :
  mre ic (Grp body) s caps k
  = mseq ic body s caps
         (fun s' caps' => k s' (caps' ++ [take (length s - length s') s])).
Proof. reflexivity. Qed.

(** *** Soundness: a successful match consumed a text of the pattern *)

Lemma star_greedy_sound (p : N -> bool) (K : str -> option R) v : forall s,
  star_greedy p s K = Some v ->
  exists ds s', s = ds ++ s' /\ Forall (fun x => p x = true) ds /\ K s' = Some v.
Proof.
  induction s as [|x s IH]; cbn [star_greedy]; intros H.
  - exists [], []. auto.
  - destruct (p x) eqn:Ep.
    + destruct (star_greedy p s K) as [v'|] eqn:Es.
      * injection H as ->. destruct (IH eq_refl) as (ds & s' & -> & Hds & HK).
        exists (x :: ds), s'. auto.
      * exists [], (x :: s). auto.
    + exists [], (x :: s). auto.
Qed.

Lemma star_lazy_sound (p : N -> bool) (K : str -> option R) v : forall s,
  star_lazy p s K = Some v ->
  exists ds s', s = ds ++ s' /\ Forall (fun x => p x = true) ds /\ K s' = Some v.
Proof.
  induction s as [|x s IH]; cbn [star_lazy]; intros H.
  - destruct (K []) eqn:Ek; [|discriminate]. exists [], []. rewrite Ek. auto.
  - destruct (K (x :: s)) eqn:Ek.
    + exists [], (x :: s). rewrite Ek. auto.
    + destruct (p x) eqn:Ep; [|discriminate].
      destruct (IH H) as (ds & s' & -> & Hds & HK). exists (x :: ds), s'. auto.
Qed.

Lemma take_matched (w s' : str) : take (length (w ++ s') - length s') (w ++ s') = w.
Proof.
  rewrite length_app. replace (length w + length s' - length s')%nat with (length w) by lia.
  apply take_app_length.
Qed.

Lemma sound_seq_of_nodes (rs : list re) : Forall (sound_node ic R) rs -> sound_seq ic R rs.
Proof.
  induction 1 as [|r rs Hr Hrs IH]; intros s caps k v H.
  - exists [], s, []. rewrite app_nil_r. split; [reflexivity|]. split; [constructor|exact H].
  - rewrite mseq_cons in H. apply Hr in H as (w1 & s1 & c1 & -> & M1 & H).
    apply IH in H as (w2 & s2 & c2 & -> & M2 & H).
    exists (w1 ++ w2), s2, (c1 ++ c2). rewrite <- !app_assoc.
    split; [reflexivity|]. split; [constructor; assumption|].
    rewrite app_assoc. exact H.
Qed.

Lemma mre_sound (r : re) : sound_node ic R r.
Proof.
  induction r as [c|cl|cl|cl|cl|body IHb|body IHb] using re_nested_ind;
    intros s caps k v H.
  - cbn [mre] in H. destruct s as [|x s]; [discriminate|].
    destruct (lit_eq ic c x) eqn:E; [|discriminate].
    exists [x], s, []. rewrite app_nil_r. split; [reflexivity|]. split; [constructor|]; assumption.
  - cbn [mre] in H. destruct s as [|x s]; [discriminate|].
    destruct (in_class cl x) eqn:E; [|discriminate].
    exists [x], s, []. rewrite app_nil_r. split; [reflexivity|]. split; [constructor|]; assumption.
  - cbn [mre] in H. apply star_greedy_sound in H as (ds & s' & -> & Hds & H).
    exists ds, s', []. rewrite app_nil_r. split; [reflexivity|]. split; [constructor|]; assumption.
  - cbn [mre] in H. destruct s as [|x s]; [discriminate|].
    destruct (in_class cl x) eqn:E; [|discriminate].
    apply star_greedy_sound in H as (ds & s' & -> & Hds & H).
    exists (x :: ds), s', []. rewrite app_nil_r. split; [reflexivity|].
    split; [constructor; [discriminate|constructor; assumption]|assumption].
  - cbn [mre] in H. destruct s as [|x s]; [discriminate|].
    destruct (in_class cl x) eqn:E; [|discriminate].
    apply star_lazy_sound in H as (ds & s' & -> & Hds & H).
    exists (x :: ds), s', []. rewrite app_nil_r. split; [reflexivity|].
    split; [constructor; [discriminate|constructor; assumption]|assumption].
  - rewrite mre_opt in H. destruct (mseq ic body s caps k) as [v'|] eqn:E.
    + injection H as ->. apply (sound_seq_of_nodes body IHb) in E as (w & s' & c & -> & M & H).
      exists w, s', c. split; [reflexivity|]. split; [constructor|]; assumption.
    + exists [], s, []. rewrite app_nil_r. split; [reflexivity|].
      split; [apply R_opt_none|assumption].
  - rewrite mre_grp in H. apply (sound_seq_of_nodes body IHb) in H as (w & s' & c & -> & M & H).
    rewrite take_matched in H.
    exists w, s', (c ++ [w]). split; [reflexivity|]. split; [constructor; assumption|].
    rewrite app_assoc. exact H.
Qed.

Lemma mseq_sound (rs : list re) : sound_seq ic R rs.
Proof. apply sound_seq_of_nodes. apply Forall_forall. intros r _. apply mre_sound. Qed.

(** *** Forward rules: how a greedy match proceeds on a given text *)

Lemma star_greedy_max (p : N -> bool) (K : str -> option R) v (ds s : str) :
  Forall (fun x => p x = true) ds ->
  match s with [] => True | x :: _ => p x = false end ->
  K s = Some v -> star_greedy p (ds ++ s) K = Some v.
Proof.
  intros Hds Hs HK. induction Hds as [|d ds Hd Hds IH]; cbn [app].
  - destruct s as [|x s]; cbn [star_greedy]; [assumption|]. rewrite Hs. assumption.
  - cbn [star_greedy]. rewrite Hd, IH. reflexivity.
Qed.

Lemma fwd_lit c x rs s caps k v :
  lit_eq ic c x = true -> mseq ic rs s caps k = Some v ->
  mseq ic (Lit c :: rs) (x :: s) caps k = Some v.
Proof. intros E H. rewrite mseq_cons. cbn [mre]. rewrite E. exact H. Qed.

Lemma fwd_cls cl x rs s caps k v :
  in_class cl x = true -> mseq ic rs s caps k = Some v ->
  mseq ic (Cls cl :: rs) (x :: s) caps k = Some v.
Proof. intros E H. rewrite mseq_cons. cbn [mre]. rewrite E. exact H. Qed.

Lemma fwd_star cl ds rs s caps k v :
  Forall (fun x => in_class cl x = true) ds ->
  match s with [] => True | x :: _ => in_class cl x = false end ->
  mseq ic rs s caps k = Some v ->
  mseq ic (Star cl :: rs) (ds ++ s) caps k = Some v.
Proof.
  intros Hds Hs H. rewrite mseq_cons. cbn [mre]. apply star_greedy_max; assumption.
Qed.

Lemma fwd_plus cl ds rs s caps k v :
  ds <> [] -> Forall (fun x => in_class cl x = true) ds ->
  match s with [] => True | x :: _ => in_class cl x = false end ->
  mseq ic rs s caps k = Some v ->
  mseq ic (Plus cl :: rs) (ds ++ s) caps k = Some v.
Proof.
  intros Hne Hds Hs H. rewrite mseq_cons. cbn [mre].
  destruct ds as [|d ds]; [congruence|]. inversion Hds; subst. cbn [app].
  replace (in_class cl d) with true by (symmetry; assumption).
  apply star_greedy_max; assumption.
Qed.

Lemma fwd_grp body rs s caps k v :
  mseq ic body s caps
       (fun s' caps' => mseq ic rs s' (caps' ++ [take (length s - length s') s]) k) = Some v ->
  mseq ic (Grp body :: rs) s caps k = Some v.
Proof. intros H. rewrite mseq_cons, mre_grp. exact H. Qed.

Lemma fwd_opt_skip body rs s caps k v :
  mseq ic body s caps (fun s' caps' => mseq ic rs s' caps' k) = None ->
  mseq ic rs s caps k = Some v ->
  mseq ic (Opt body :: rs) s caps k = Some v.
Proof. intros E H. rewrite mseq_cons, mre_opt, E. exact H. Qed.

Lemma fwd_opt_take body rs s caps k v :
  mseq ic body s caps (fun s' caps' => mseq ic rs s' caps' k) = Some v ->
  mseq ic (Opt body :: rs) s caps k = Some v.
Proof. intros E. rewrite mseq_cons, mre_opt, E. reflexivity. Qed.

End MatcherFacts.

(** *** The matcher at the level of [match_at], [search] and [findall] *)

Lemma match_at_sound (ic : bool) (pat : list re) (s m rest : str) (caps : list str) :
  match_at ic pat s = Some (m, rest, caps) -> s = m ++ rest /\ smatch ic pat m caps.
Proof.
  unfold match_at. intros H.
  apply mseq_sound in H as (w & s' & c & -> & M & H).
  rewrite take_matched in H. injection H as <- <- <-. auto.
Qed.

Lemma search_sound (ic : bool) (pat : list re) (caps : list str) : forall s,
  search ic pat s = Some caps -> exists pre m rest, s = pre ++ m ++ rest /\ smatch ic pat m caps.
Proof.
  induction s as [|x s IH]; cbn [search]; intros H.
  - destruct (match_at ic pat []) as [[[m rest] c]|] eqn:E; [|discriminate].
    injection H as ->. apply match_at_sound in E as [E M]. exists [], m, rest. auto.
  - destruct (match_at ic pat (x :: s)) as [[[m rest] c]|] eqn:E.
    + injection H as ->. apply match_at_sound in E as [E M]. exists [], m, rest. auto.
    + destruct (IH H) as (pre & m & rest & -> & M). exists (x :: pre), m, rest. auto.
Qed.

Lemma findall_from_sound (ic : bool) (pat : list re) (fuel : nat) : forall s m caps,
  In (m, caps) (findall_from fuel ic pat s) -> smatch ic pat m caps.
Proof.
  induction fuel as [|fuel IH]; intros s m caps; cbn [findall_from]; [intros []|].
  destruct (match_at ic pat s) as [[[m' rest] c]|] eqn:E.
  - intros [H|H].
    + injection H as -> ->. apply match_at_sound in E. tauto.
    + destruct m' as [|y m']; [destruct s as [|x s]; [destruct H|]|]; eapply IH; exact H.
  - destruct s as [|x s]; [intros []|]. apply IH.
Qed.

Lemma findall_sound (ic : bool) (pat : list re) (s m : str) (caps : list str) :
  In (m, caps) (findall ic pat s) -> smatch ic pat m caps.
Proof. apply findall_from_sound. Qed.

Lemma search_here (ic : bool) (pat : list re) (s m rest : str) (caps : list str) :
  match_at ic pat s = Some (m, rest, caps) -> search ic pat s = Some caps.
Proof. intros H. destruct s; cbn [search]; rewrite H; reflexivity. Qed.

Lemma search_step (ic : bool) (pat : list re) (x : N) (s : str) :
  match_at ic pat (x :: s) = None -> search ic pat (x :: s) = search ic pat s.
Proof. intros H. cbn [search]. rewrite H. reflexivity. Qed.

(** *** Inversion of the declarative semantics *)

Lemma smatch_nil_inv ic w c : smatch ic [] w c -> w = [] /\ c = [].
Proof. inversion 1. auto. Qed.

Lemma smatch_cons_inv ic r rs w c :
  smatch ic (r :: rs) w c ->
  exists w1 c1 w2 c2, w = w1 ++ w2 /\ c = c1 ++ c2 /\ rmatch ic r w1 c1 /\ smatch ic rs w2 c2.
Proof. inversion 1; subst. eauto 10. Qed.

Lemma rmatch_lit_inv ic a w c : rmatch ic (Lit a) w c -> c = [] /\ exists x, w = [x] /\ lit_eq ic a x = true.
Proof. inversion 1; subst. eauto. Qed.

Lemma rmatch_cls_inv ic k w c :
  rmatch ic (Cls k) w c -> c = [] /\ exists x, w = [x] /\ in_class k x = true.
Proof. inversion 1; subst. eauto. Qed.

Lemma rmatch_star_inv ic k w c :
  rmatch ic (Star k) w c -> c = [] /\ Forall (fun x => in_class k x = true) w.
Proof. inversion 1; subst. auto. Qed.

Lemma rmatch_plus_inv ic k w c :
  rmatch ic (Plus k) w c -> c = [] /\ w <> [] /\ Forall (fun x => in_class k x = true) w.
Proof. inversion 1; subst. auto. Qed.

Lemma rmatch_plus_lazy_inv ic k w c :
  rmatch ic (PlusLazy k) w c -> c = [] /\ w <> [] /\ Forall (fun x => in_class k x = true) w.
Proof. inversion 1; subst. auto. Qed.

Lemma rmatch_opt_inv ic body w c :
  rmatch ic (Opt body) w c -> smatch ic body w c \/ (w = [] /\ c = []).
Proof. inversion 1; subst; auto. Qed.

Lemma rmatch_grp_inv ic body w c :
  rmatch ic (Grp body) w c -> exists c', c = c' ++ [w] /\ smatch ic body w c'.
Proof. inversion 1; subst. eauto. Qed.

(** Literals and white space capture nothing. *)
Lemma smatch_lits ic (t : str) : forall rs w c,
  smatch ic (lits t ++ rs) w c -> exists w1 w2, w = w1 ++ w2 /\ smatch ic rs w2 c.
Proof.
  induction t as [|a t IH]; intros rs w c H.
  - exists [], w. auto.
  - cbn [lits map app] in H. apply smatch_cons_inv in H as (w1 & c1 & w2 & c2 & -> & -> & R1 & H).
    apply rmatch_lit_inv in R1 as [-> _]. apply IH in H as (w3 & w4 & -> & H).
    exists (w1 ++ w3), w4. rewrite app_assoc. auto.
Qed.

Lemma smatch_ws ic rs w c :
  smatch ic (ws :: rs) w c -> exists w1 w2, w = w1 ++ w2 /\ smatch ic rs w2 c.
Proof.
  intros H. apply smatch_cons_inv in H as (w1 & c1 & w2 & c2 & -> & -> & R1 & H).
  apply rmatch_star_inv in R1 as [-> _]. eauto.
Qed.

Lemma smatch_lit ic a rs w c :
  smatch ic (Lit a :: rs) w c -> exists w1 w2, w = w1 ++ w2 /\ smatch ic rs w2 c.
Proof.
  intros H. apply smatch_cons_inv in H as (w1 & c1 & w2 & c2 & -> & -> & R1 & H).
  apply rmatch_lit_inv in R1 as [-> _]. eauto.
Qed.

(** What the digit and number groups capture. *)
Lemma smatch_digits ic w c : smatch ic [Plus CDigit] w c -> c = [] /\ digits_text w.
Proof.
  intros H. apply smatch_cons_inv in H as (w1 & c1 & w2 & c2 & -> & -> & R1 & H).
  apply smatch_nil_inv in H as [-> ->]. apply rmatch_plus_inv in R1 as (-> & Hne & Hf).
  rewrite !app_nil_r. split; [reflexivity|]. split; [exact Hne|exact Hf].
Qed.

Lemma smatch_number ic w c : smatch ic number w c -> c = [] /\ number_text w.
Proof.
  unfold number. intros H.
  apply smatch_cons_inv in H as (w1 & c1 & w2 & c2 & -> & -> & R1 & H).
  apply rmatch_plus_inv in R1 as (-> & Hne & Hf).
  apply smatch_cons_inv in H as (w3 & c3 & w4 & c4 & -> & -> & R2 & H).
  apply smatch_nil_inv in H as [-> ->]. rewrite !app_nil_r. cbn [app].
  apply rmatch_opt_inv in R2 as [R2|[-> ->]].
  - apply smatch_cons_inv in R2 as (w5 & c5 & w6 & c6 & -> & -> & R3 & H).
    apply rmatch_cls_inv in R3 as (-> & x & -> & Hx).
    apply smatch_digits in H as [-> Hd].
    split; [reflexivity|]. right. exists w1, x, w6.
    split; [reflexivity|]. split; [split; [exact Hne|exact Hf]|]. split; [exact Hx|exact Hd].
  - rewrite ?app_nil_r. split; [reflexivity|]. left. split; [exact Hne|exact Hf].
Qed.

Lemma smatch_grp_digits ic rs w c :
  smatch ic (Grp [Plus CDigit] :: rs) w c ->
  exists g w2 c2, c = g :: c2 /\ digits_text g /\ smatch ic rs w2 c2.
Proof.
  intros H. apply smatch_cons_inv in H as (w1 & c1 & w2 & c2 & -> & -> & R1 & H).
  apply rmatch_grp_inv in R1 as (c' & -> & R1). apply smatch_digits in R1 as [-> Hd].
  exists w1, w2, c2. auto.
Qed.

Lemma smatch_grp_number ic rs w c :
  smatch ic (Grp number :: rs) w c ->
  exists g w2 c2, c = g :: c2 /\ number_text g /\ smatch ic rs w2 c2.
Proof.
  intros H. apply smatch_cons_inv in H as (w1 & c1 & w2 & c2 & -> & -> & R1 & H).
  apply rmatch_grp_inv in R1 as (c' & -> & R1). apply smatch_number in R1 as [-> Hd].
  exists w1, w2, c2. auto.
Qed.

(** ** Old-bill parser *)

Lemma replace_comma_id (s : str) : Forall (fun c => c <> 44%N) s -> replace_comma s = s.
Proof.
  induction 1 as [|c s Hc Hs IH]; [reflexivity|]. cbn [replace_comma map].
  fold (replace_comma s). rewrite IH.
  replace (c =? 44)%N with false by (symmetry; apply N.eqb_neq; assumption). reflexivity.
Qed.

Lemma decimal_no_comma (s : str) : Forall decimal_char s -> Forall (fun c => c <> 44%N) s.
Proof.
  intros H. eapply Forall_impl; [exact H|]. intros c Hc.
  apply (decimal_char_not c 44 Hc). reflexivity.
Qed.

Lemma replace_comma_app (a b : str) : replace_comma (a ++ b) = replace_comma a ++ replace_comma b.
Proof. apply map_app. Qed.

(** A captured digit group is a valid Decimal: a non-negative integer. *)
Lemma normalize_digits (g : str) :
  digits_text g ->
  _normalize_decimal g = Ok (mkDec false (digits_value (digit_values g)) 0).
Proof.
  intros [Hne Hd]. unfold _normalize_decimal.
  rewrite replace_comma_id by (apply decimal_no_comma; assumption).
  apply (Decimal_of_str_shape false false g [] None); try assumption.
  - constructor.
  - reflexivity.
  - cbn [app]. rewrite !app_nil_r. reflexivity.
  - change (digit_values []) with (@nil N). rewrite app_nil_r. reflexivity.
Qed.

(** A captured number group is a valid Decimal: non-negative, with a
    non-positive exponent. *)
Lemma normalize_number (g : str) :
  number_text g ->
  exists d, _normalize_decimal g = Ok d /\ dsign d = false /\ dexp d <= 0.
Proof.
  intros [H|(i & sep & f & -> & [Hin Hid] & Hsep & [Hfn Hfd])].
  - rewrite normalize_digits by assumption. eexists. split; [reflexivity|]. simpl. lia.
  - unfold _normalize_decimal. rewrite replace_comma_app. cbn [replace_comma map].
    fold (replace_comma f).
    rewrite !replace_comma_id by (apply decimal_no_comma; assumption).
    assert ((if (sep =? 44)%N then 46%N else sep) = 46%N) as ->.
    { cbn [in_class] in Hsep. apply orb_true_iff in Hsep as [E|E]; apply N.eqb_eq in E; subst;
        reflexivity. }
    eexists. split.
    + apply (Decimal_of_str_shape false true i f None); try assumption.
      * discriminate.
      * cbn [app]. rewrite app_nil_r. reflexivity.
      * reflexivity.
    + simpl. lia.
Qed.

Lemma normalize_digits_ok (g : str) : digits_text g -> exists d, _normalize_decimal g = Ok d.
Proof. intros H. rewrite normalize_digits by assumption. eauto. Qed.

(** What the patterns of the parser capture. *)
Lemma cost_line_caps (w : str) (c : list str) :
  smatch true cost_line w c ->
  exists g3 g4 g5, c = [g3; g4; g5] /\ number_text g3 /\ number_text g4 /\ number_text g5.
Proof.
  unfold cost_line. intros H.
  apply smatch_grp_number in H as (g3 & w3 & c3 & -> & N3 & H).
  apply smatch_ws in H as (? & ? & _ & H). apply smatch_lit in H as (? & ? & _ & H).
  apply smatch_ws in H as (? & ? & _ & H).
  apply smatch_grp_number in H as (g4 & w4 & c4 & -> & N4 & H).
  apply smatch_ws in H as (? & ? & _ & H). apply smatch_lit in H as (? & ? & _ & H).
  apply smatch_ws in H as (? & ? & _ & H).
  apply smatch_grp_number in H as (g5 & w5 & c5 & -> & N5 & H).
  apply smatch_nil_inv in H as [_ ->]. eauto 10.
Qed.

Lemma meter_lines_caps (w : str) (c : list str) :
  smatch true meter_lines w c ->
  exists g1 g2 g3 g4 g5,
    c = [g1; g2; g3; g4; g5] /\ digits_text g1 /\ digits_text g2
    /\ number_text g3 /\ number_text g4 /\ number_text g5.
Proof.
  unfold meter_lines. intros H.
  apply smatch_lits in H as (? & ? & _ & H). cbn [app] in H.
  apply smatch_ws in H as (? & ? & _ & H). apply smatch_lit in H as (? & ? & _ & H).
  apply smatch_ws in H as (? & ? & _ & H).
  apply smatch_grp_digits in H as (g1 & w1 & c1 & -> & D1 & H).
  apply smatch_ws in H as (? & ? & _ & H).
  apply smatch_lits in H as (? & ? & _ & H). cbn [app] in H.
  apply smatch_ws in H as (? & ? & _ & H). apply smatch_lit in H as (? & ? & _ & H).
  apply smatch_ws in H as (? & ? & _ & H).
  apply smatch_grp_digits in H as (g2 & w2 & c2 & -> & D2 & H).
  apply smatch_ws in H as (? & ? & _ & H).
  apply cost_line_caps in H as (g3 & g4 & g5 & -> & N3 & N4 & N5).
  eauto 12.
Qed.

Lemma labelled_meter_caps (l1 l2 : str) (w : str) (c : list str) :
  smatch true (lits l1 ++ [ws] ++ lits l2 ++ [ws] ++ meter_lines) w c ->
  exists g1 g2 g3 g4 g5,
    c = [g1; g2; g3; g4; g5] /\ digits_text g1 /\ digits_text g2
    /\ number_text g3 /\ number_text g4 /\ number_text g5.
Proof.
  intros H. apply smatch_lits in H as (? & ? & _ & H). cbn [app] in H.
  apply smatch_ws in H as (? & ? & _ & H).
  apply smatch_lits in H as (? & ? & _ & H). cbn [app] in H.
  apply smatch_ws in H as (? & ? & _ & H).
  apply meter_lines_caps in H. exact H.
Qed.

Lemma electricity_caps (w : str) (c : list str) :
  smatch true pat_electricity w c ->
  exists g1 g2 g3 g4 g5,
    c = [g1; g2; g3; g4; g5] /\ digits_text g1 /\ digits_text g2
    /\ number_text g3 /\ number_text g4 /\ number_text g5.
Proof.
  unfold pat_electricity. intros H. apply smatch_lits in H as (? & ? & _ & H). cbn [app] in H.
  apply smatch_ws in H as (? & ? & _ & H). apply meter_lines_caps in H. exact H.
Qed.

Lemma disposal_caps (w : str) (c : list str) :
  smatch true pat_water_disposal w c ->
  exists g3 g4 g5, c = [g3; g4; g5] /\ number_text g3 /\ number_text g4 /\ number_text g5.
Proof.
  unfold pat_water_disposal. intros H. apply smatch_lits in H as (? & ? & _ & H).
  cbn [app] in H. apply smatch_ws in H as (? & ? & _ & H). apply cost_line_caps in H. exact H.
Qed.

Lemma total_caps (w : str) (c : list str) :
  smatch true pat_total w c -> exists g, c = [g] /\ number_text g.
Proof.
  unfold pat_total. intros H. apply smatch_lits in H as (? & ? & _ & H). cbn [app] in H.
  apply smatch_ws in H as (? & ? & _ & H).
  apply smatch_grp_number in H as (g & w1 & c1 & -> & N1 & H).
  apply smatch_nil_inv in H as [_ ->]. eauto.
Qed.

Lemma date_caps (w : str) (c : list str) :
  smatch true pat_date w c -> exists g, c = [g].
Proof.
  unfold pat_date. intros H. apply smatch_lits in H as (? & ? & _ & H). cbn [app] in H.
  apply smatch_ws in H as (? & ? & _ & H).
  apply smatch_cons_inv in H as (w1 & c1 & w2 & c2 & -> & -> & R1 & H).
  apply rmatch_grp_inv in R1 as (c' & -> & R1).
  apply smatch_nil_inv in H as [_ ->].
  repeat (apply smatch_cons_inv in R1 as (? & ? & ? & ? & -> & -> & R0 & R1);
          first [apply rmatch_cls_inv in R0 as [-> _] | apply rmatch_lit_inv in R0 as [-> _]]).
  apply smatch_nil_inv in R1 as [_ ->]. cbn [app]. eauto.
Qed.

(** The readings built from captured groups never fail. *)
Lemma metered_reading_ok (c : list str) :
  (exists g1 g2 g3 g4 g5,
     c = [g1; g2; g3; g4; g5] /\ digits_text g1 /\ digits_text g2
     /\ number_text g3 /\ number_text g4 /\ number_text g5) ->
  exists r, metered_reading c = Ok r.
Proof.
  intros (g1 & g2 & g3 & g4 & g5 & -> & D1 & D2 & N3 & N4 & N5).
  unfold metered_reading.
  rewrite (normalize_digits g1 D1), (normalize_digits g2 D2). cbn [bind].
  destruct (normalize_number g3 N3) as (d3 & -> & _).
  destruct (normalize_number g4 N4) as (d4 & -> & _).
  destruct (normalize_number g5 N5) as (d5 & -> & _). cbn [bind]. eauto.
Qed.


Lemma fix_raises (d : Dec) (e : exn) : fix_ d = Raise e -> e = Overflow.
Proof.
  unfold fix_. destruct (dint d =? 0)%N; [discriminate|].
  destruct (Etop <? _); [intros [= <-]; reflexivity|].
  destruct (dexp d <? _); [|discriminate].
  destruct (prec <? _); destruct (Etop <? _); first [discriminate|intros [= <-]; reflexivity].
Qed.

Lemma dec_add_raises (a b : Dec) (e : exn) : dec_add a b = Raise e -> e = Overflow.
Proof.
  destruct (dec_add_fix a b) as (s & c & -> & _). apply fix_raises.
Qed.


(** A metered section either matches and yields a reading, or does not
    match and stays absent; it never fails. *)
Lemma section_metered (pat : list re) (s : str) :
  (forall w c, smatch true pat w c ->
     exists g1 g2 g3 g4 g5,
       c = [g1; g2; g3; g4; g5] /\ digits_text g1 /\ digits_text g2
       /\ number_text g3 /\ number_text g4 /\ number_text g5) ->
  exists o, section pat metered_reading s = Ok o
            /\ (o = None <-> search true pat s = None).
Proof.
  intros Hcaps. unfold section.
  destruct (search true pat s) as [groups|] eqn:E.
  - apply search_sound in E as (pre & m & rest & _ & M).
    destruct (metered_reading_ok groups (Hcaps _ _ M)) as (r & ->).
    exists (Some r). split; [reflexivity|]. split; discriminate.
  - exists None. split; [reflexivity|]. split; reflexivity.
Qed.

Lemma cold_water_caps (w : str) (c : list str) :
  smatch true pat_cold_water w c ->
  exists g1 g2 g3 g4 g5,
    c = [g1; g2; g3; g4; g5] /\ digits_text g1 /\ digits_text g2
    /\ number_text g3 /\ number_text g4 /\ number_text g5.
Proof. apply labelled_meter_caps. Qed.

Lemma hot_water_caps (w : str) (c : list str) :
  smatch true pat_hot_water w c ->
  exists g1 g2 g3 g4 g5,
    c = [g1; g2; g3; g4; g5] /\ digits_text g1 /\ digits_text g2
    /\ number_text g3 /\ number_text g4 /\ number_text g5.
Proof. apply labelled_meter_caps. Qed.

(** The water-disposal section can fail only by an overflow of the sum of
    the water consumptions. *)
Lemma section_disposal (cold hot : option UtilityReading) (s : str) :
  (exists o, section pat_water_disposal (disposal_reading cold hot) s = Ok o
             /\ (o = None <-> search true pat_water_disposal s = None))
  \/ section pat_water_disposal (disposal_reading cold hot) s = Raise Overflow.
Proof.
  unfold section.
  destruct (search true pat_water_disposal s) as [groups|] eqn:E.
  - apply search_sound in E as (pre & m & rest & _ & M).
    apply disposal_caps in M as (g3 & g4 & g5 & -> & N3 & N4 & N5).
    unfold disposal_reading.
    destruct (normalize_number g3 N3) as (d3 & -> & _).
    destruct (normalize_number g4 N4) as (d4 & -> & _).
    destruct (normalize_number g5 N5) as (d5 & -> & _). cbn [bind].
    set (t1 := match cold with
               | Some r => dec_add (mkDec false 0 0) (consumption r)
               | None => Ok (mkDec false 0 0)
               end).
    assert (forall e, t1 = Raise e -> e = Overflow) as H1.
    { unfold t1. destruct cold; [apply dec_add_raises|discriminate]. }
    destruct t1 as [x1|e1]; [|right; rewrite (H1 e1 eq_refl); reflexivity]. cbn [bind].
    set (t2 := match hot with
               | Some r => dec_add x1 (consumption r)
               | None => Ok x1
               end).
    assert (forall e, t2 = Raise e -> e = Overflow) as H2.
    { unfold t2. destruct hot; [apply dec_add_raises|discriminate]. }
    destruct t2 as [x2|e2]; [|right; rewrite (H2 e2 eq_refl); reflexivity]. cbn [bind].
    left. eexists. split; [reflexivity|]. split; discriminate.
  - left. exists None. split; [reflexivity|]. split; reflexivity.
Qed.

Lemma total_ok (s : str) (groups : list str) :
  search true pat_total s = Some groups ->
  exists d, _normalize_decimal (List.hd [] groups) = Ok d.
Proof.
  intros E. apply search_sound in E as (pre & m & rest & _ & M).
  apply total_caps in M as (g & -> & Ng). cbn [List.hd].
  destruct (normalize_number g Ng) as (d & -> & _). eauto.
Qed.














(** The first half of C9: without a match of the total pattern the parser
    raises the error naming the total, and likewise for the date, unless the
    sum of the water consumptions overflowed before. *)
Lemma missing_total_or_date (message : str) :
  (search true pat_total (clean message) = None ->
   parse_message message = Raise (ValueError msg_no_total)
   \/ parse_message message = Raise Overflow)
  /\ (search true pat_total (clean message) <> None ->
      search true pat_date (clean message) = None ->
      parse_message message = Raise (ValueError msg_no_date)
      \/ parse_message message = Raise Overflow).
Proof.
  unfold parse_message. cbv zeta.
  destruct (section_metered pat_cold_water (clean message) cold_water_caps) as (cold & -> & _).
  cbn [bind].
  destruct (section_metered pat_hot_water (clean message) hot_water_caps) as (hot & -> & _).
  cbn [bind].
  destruct (section_disposal cold hot (clean message)) as [(disp & -> & _)| ->];
    cbn [bind]; [|split; intros; right; reflexivity].
  destruct (section_metered pat_electricity (clean message) electricity_caps) as (elec & -> & _).
  cbn [bind]. split.
  - intros ->. left. reflexivity.
  - intros Ht Hd. destruct (search true pat_total (clean message)) as [groups|] eqn:E5;
      [|congruence].
    destruct (total_ok _ _ E5) as (d & ->). cbn [bind]. rewrite Hd. left. reflexivity.
Qed.

(** C9 at the failing input: the text has a total and a date but no
    cold-water section, and parsing fails with the validation error for the
    missing cold-water field. *)
Theorem C9_missing_section_fails :
  search true pat_cold_water (clean msg_no_cold_section) = None
  /\ search true pat_total (clean msg_no_cold_section) = Some [U "2348,14"]
  /\ search true pat_date (clean msg_no_cold_section) = Some [U "22.06.2025"]
  /\ parse_message msg_no_cold_section
     = Raise (ValidationError [(U "cold_water", U "missing")])
  /\ parse_message msg_without_total = Raise (ValueError msg_no_total)
  /\ parse_message msg_without_date = Raise (ValueError msg_no_date).
Proof. repeat split; vm_compute; reflexivity. Qed.

(** C10 at the failing input: with a fractional previous reading the
    cold-water pattern does not match, although the rest of the section is
    well formed, and parsing fails with the validation error for the missing
    cold-water field instead of returning a bill without that reading. *)
Theorem C10_fractional_reading_fails :
  search true pat_cold_water (clean msg_fractional) = None
  /\ parse_message msg_fractional
     = Raise (ValidationError [(U "cold_water", U "missing")]).
Proof. split; vm_compute; reflexivity. Qed.

(** ** Water disposal without history *)




(** ** The command parser *)

Lemma lookup_dict_of (es : list (str * Dec)) : forall (acc : gmap str Dec) (k : str),
  dict_of es acc !! k
  = match last_entry k es with Some d => Some d | None => acc !! k end.
Proof.
  induction es as [|[k' d] es IH]; intros acc k; [reflexivity|].
  unfold dict_of in *. cbn [fold_left last_entry fst snd]. rewrite IH.
  destruct (last_entry k es); [reflexivity|].
  destruct (bool_decide (k' = k)) eqn:E.
  - apply bool_decide_eq_true in E as ->. apply lookup_insert_eq.
  - apply bool_decide_eq_false in E. apply lookup_insert_ne. exact E.
Qed.

Lemma has_key_last (k : str) (es : list (str * Dec)) :
  has_key k es = true <-> is_Some (last_entry k es).
Proof.
  induction es as [|[k' d] es IH]; cbn [has_key existsb last_entry fst].
  - split; [discriminate|]. intros [x Hx]. discriminate.
  - fold (has_key k es). rewrite orb_true_iff, IH.
    destruct (last_entry k es) as [d'|].
    + split; intros _; [eauto|right; eauto].
    + destruct (bool_decide (k' = k)); split; intros H; eauto.
      destruct H as [H|[x H]]; discriminate.
Qed.

Lemma has_key_elem (k : str) (es : list (str * Dec)) :
  has_key k es = true <-> k ∈ (fst <$> es).
Proof.
  unfold has_key. rewrite existsb_exists, list_elem_of_fmap. split.
  - intros (e & Hin & He). apply bool_decide_eq_true in He. exists e. split; [auto|].
    apply list_elem_of_In. exact Hin.
  - intros (e & -> & Hin). exists e. split; [apply list_elem_of_In; exact Hin|].
    apply bool_decide_eq_true. reflexivity.
Qed.

(** Building the dictionary succeeds when every pair has a key, a value and
    a value that is a Decimal. *)
Lemma dict_of_pairs_entries (pairs : list (str * list str)) : forall acc,
  Forall (fun p => is_Some (pair_entry p)) pairs ->
  dict_of_pairs pairs acc = Ok (dict_of (omap pair_entry pairs) acc).
Proof.
  induction pairs as [|[m groups] pairs IH]; intros acc H; [reflexivity|].
  apply Forall_cons in H as [[e He] H].
  cbn [dict_of_pairs omap list_omap]. rewrite He.
  unfold pair_entry in He. cbn [snd] in He.
  destruct groups as [|k [|v [|]]]; try discriminate.
  destruct (Decimal_of_str (replace_comma v)) as [d|] eqn:Ed; [|discriminate].
  injection He as <-. cbn [bind]. rewrite IH by assumption. reflexivity.
Qed.

(** What the key=value patterns capture. *)
Lemma smatch_ascii_number ic w c : smatch ic ascii_number w c -> c = [] /\ number_text w.
Proof.
  assert (Hcls : forall l, Forall (fun x => in_class CAsciiDigit x = true) l -> Forall decimal_char l).
  { intros l Hl. eapply Forall_impl; [exact Hl|]. intros x Hx. apply ascii_decimal.
    cbn [in_class] in Hx. unfold is_ascii_digit in Hx. apply andb_true_iff in Hx as [H1 H2].
    apply N.leb_le in H1, H2. split; assumption. }
  unfold ascii_number. intros H.
  apply smatch_cons_inv in H as (w1 & c1 & w2 & c2 & -> & -> & R1 & H).
  apply rmatch_plus_inv in R1 as (-> & Hne & Hf).
  apply smatch_cons_inv in H as (w3 & c3 & w4 & c4 & -> & -> & R2 & H).
  apply smatch_nil_inv in H as [-> ->]. rewrite !app_nil_r. cbn [app].
  apply rmatch_opt_inv in R2 as [R2|[-> ->]].
  - apply smatch_cons_inv in R2 as (w5 & c5 & w6 & c6 & -> & -> & R3 & H).
    apply rmatch_cls_inv in R3 as (-> & x & -> & Hx).
    apply smatch_cons_inv in H as (w7 & c7 & w8 & c8 & -> & -> & R4 & H).
    apply smatch_nil_inv in H as [-> ->]. apply rmatch_plus_inv in R4 as (-> & Hne' & Hf').
    rewrite !app_nil_r. split; [reflexivity|]. right. exists w1, x, w7.
    split; [reflexivity|]. split; [split; [exact Hne|auto]|]. split; [exact Hx|split; auto].
  - rewrite ?app_nil_r. split; [reflexivity|]. left. split; [exact Hne|auto].
Qed.

Lemma smatch_value ic w c :
  smatch ic [ws; Lit 61; ws; Grp ascii_number] w c -> exists v, c = [v] /\ number_text v.
Proof.
  intros H. apply smatch_ws in H as (w1 & w2 & -> & H).
  apply smatch_lit in H as (w3 & w4 & -> & H). apply smatch_ws in H as (w5 & w6 & -> & H).
  apply smatch_cons_inv in H as (w7 & c7 & w8 & c8 & -> & -> & R & H).
  apply smatch_nil_inv in H as [-> ->]. apply rmatch_grp_inv in R as (c' & -> & R).
  apply smatch_ascii_number in R as [-> Hn]. exists w7. rewrite app_nil_r. auto.
Qed.

Lemma pat_pair_caps (w : str) (c : list str) :
  smatch true pat_pair w c -> exists k v, c = [k; v] /\ number_text v.
Proof.
  unfold pat_pair. intros H.
  apply smatch_cons_inv in H as (w1 & c1 & w2 & c2 & -> & -> & R & H).
  apply rmatch_grp_inv in R as (c' & -> & R).
  apply smatch_cons_inv in R as (w3 & c3 & w4 & c4 & -> & -> & R & H').
  apply smatch_nil_inv in H' as [-> ->]. apply rmatch_plus_lazy_inv in R as (-> & _).
  apply smatch_value in H as (v & -> & Hv). rewrite !app_nil_r. cbn [app].
  exists w3, v. auto.
Qed.

Lemma smatch_lits_only ic (t : str) : forall w c,
  smatch ic (lits t) w c -> c = [] /\ Forall2 (fun a x => lit_eq ic a x = true) t w.
Proof.
  induction t as [|a t IH]; intros w c H.
  - apply smatch_nil_inv in H as [-> ->]. auto.
  - cbn [lits map] in H. apply smatch_cons_inv in H as (w1 & c1 & w2 & c2 & -> & -> & R1 & H).
    apply rmatch_lit_inv in R1 as (-> & x & -> & Hx). apply IH in H as [-> H].
    split; [reflexivity|]. constructor; assumption.
Qed.

Lemma pat_rate_pair_caps (w : str) (c : list str) :
  smatch true pat_rate_pair w c ->
  exists p t v, c = [p ++ t; v]
    /\ Forall2 (fun a x => lit_eq true a x = true) (U "_rate") t /\ number_text v.
Proof.
  unfold pat_rate_pair. intros H.
  apply smatch_cons_inv in H as (w1 & c1 & w2 & c2 & -> & -> & R & H).
  apply rmatch_grp_inv in R as (c' & -> & R).
  apply smatch_cons_inv in R as (w3 & c3 & w4 & c4 & -> & -> & R & H').
  apply rmatch_plus_inv in R as (-> & _). apply smatch_lits_only in H' as [-> Ht].
  apply smatch_value in H as (v & -> & Hv). cbn [app]. exists w3, w4, v. auto.
Qed.

(** The characters that a literal matches when case is ignored. *)
Lemma lit_eq_In (a x : N) :
  lit_eq true a x = true ->
  In x (match List.find (fun e => (fst e =? a)%N) ignorecase_classes with
        | Some e => snd e
        | None => [a]
        end).
Proof.
  unfold lit_eq. destruct (List.find _ ignorecase_classes) as [e|].
  - intros H. apply existsb_exists in H as (y & Hy & E). apply N.eqb_eq in E. subst. exact Hy.
  - intros H. apply N.eqb_eq in H. left. auto.
Qed.

Lemma lower_from_app (w t : str) : forall before,
  exists x, lower_from before (w ++ t) = x ++ lower_from (rev w ++ before) t.
Proof.
  induction w as [|c w IH]; intros before.
  - exists []. reflexivity.
  - cbn [app lower_from rev]. destruct (IH (c :: before)) as (x & ->).
    rewrite <- (app_assoc (rev w) [c] before). cbn [app]. eexists. apply app_assoc.
Qed.

(** A key that the rate pattern captured ends in [_rate] once lower-cased. *)
Lemma lower_rate_suffix (before t : str) :
  Forall2 (fun a x => lit_eq true a x = true) (U "_rate") t -> lower_from before t = U "_rate".
Proof.
  intros H. change (U "_rate") with [95; 114; 97; 116; 101]%N in H.
  repeat match goal with
  | H : Forall2 _ (_ :: _) _ |- _ =>
    apply Forall2_cons_inv_l in H as (? & ? & ? & H & ->)
  | H : Forall2 _ [] _ |- _ => apply Forall2_nil_inv_l in H as ->
  | H : lit_eq true _ _ = true |- _ => apply lit_eq_In in H; vm_compute in H
  end.
  repeat match goal with
  | H : _ \/ _ |- _ => destruct H as [H|H]
  | H : False |- _ => destruct H
  | H : _ = _ |- _ => subst
  end; vm_compute; reflexivity.
Qed.

Lemma rate_key_suffix (p t : str) :
  Forall2 (fun a x => lit_eq true a x = true) (U "_rate") t ->
  exists x, str_lower (p ++ t) = x ++ U "_rate".
Proof.
  intros H. unfold str_lower. destruct (lower_from_app p t []) as (x & ->).
  rewrite lower_rate_suffix by assumption. eauto.
Qed.

(** Every key=value pair that the patterns find has a key and a value that
    is a Decimal. *)
Lemma number_entry (m k v : str) : number_text v -> is_Some (pair_entry (m, [k; v])).
Proof.
  intros H. apply normalize_number in H as (d & Hd & _). unfold _normalize_decimal in Hd.
  unfold pair_entry. cbn [snd]. rewrite Hd. eauto.
Qed.

Lemma pairs_convert (payload : str) :
  Forall (fun p => is_Some (pair_entry p)) (findall true pat_pair payload).
Proof.
  apply List.Forall_forall. intros [m caps] H. apply findall_sound in H.
  apply pat_pair_caps in H as (k & v & -> & Hv). apply number_entry. exact Hv.
Qed.

Lemma rate_pairs_convert (payload : str) :
  Forall (fun p => is_Some (pair_entry p)) (findall true pat_rate_pair payload).
Proof.
  apply List.Forall_forall. intros [m caps] H. apply findall_sound in H.
  apply pat_rate_pair_caps in H as (p & t & v & -> & _ & Hv). apply number_entry. exact Hv.
Qed.

Lemma rate_entries_suffix (payload k : str) :
  k ∈ (fst <$> rate_entries payload) -> exists x, k = x ++ U "_rate".
Proof.
  intros H. apply list_elem_of_fmap in H as ([k' d] & -> & H). cbn [fst].
  unfold rate_entries in H. apply list_elem_of_omap in H as ([m caps] & Hin & He).
  apply list_elem_of_In, findall_sound, pat_rate_pair_caps in Hin
    as (p & t & v & -> & Ht & Hv).
  unfold pair_entry in He. cbn [snd] in He.
  destruct (Decimal_of_str (replace_comma v)); [|discriminate]. injection He as <- _.
  apply rate_key_suffix. exact Ht.
Qed.

Lemma suffix_not_reading (x k : str) :
  k = x ++ U "_rate" -> k ∉ trio_names ++ alias_names.
Proof.
  intros -> H.
  assert (last (x ++ U "_rate") = Some 101%N) as Hl by (rewrite last_app; reflexivity).
  repeat (apply elem_of_cons in H as [H|H]; [rewrite H in Hl; vm_compute in Hl; discriminate|]).
  inversion H.
Qed.

(** *** Validation of the input model *)

Lemma filter_empty_iff {A} (P : A -> Prop) `{forall x, Decision (P x)} (l : list A) :
  filter P l = [] <-> Forall (fun x => ~ P x) l.
Proof.
  induction l as [|x l IH]; [split; [constructor|reflexivity]|].
  rewrite filter_cons. destruct (decide (P x)) as [Hx|Hx].
  - split; [discriminate|]. intros HF. apply Forall_cons in HF as [HF _]. contradiction.
  - rewrite IH. split; [intros HF; constructor; assumption|].
    intros HF. apply Forall_cons in HF as [_ HF]. exact HF.
Qed.

Lemma data_keys_elem (data : gmap str Dec) (k : str) :
  k ∈ data_keys data <-> is_Some (data !! k).
Proof.
  unfold data_keys. rewrite list_elem_of_fmap. split.
  - intros ([k' v] & -> & H). apply elem_of_map_to_list in H. cbn [fst]. eauto.
  - intros [v Hv]. exists (k, v). split; [reflexivity|]. apply elem_of_map_to_list. exact Hv.
Qed.

(** Validation either returns an input or raises a validation error. *)
Lemma validate_raises (data : gmap str Dec) (e : exn) :
  InputData_validate data = Raise e -> exists errs, e = ValidationError errs.
Proof.
  unfold InputData_validate. cbv zeta.
  destruct (lookup_field data (Some (U "cold_water")) (U "cw")) as [[? ?]|];
    destruct (lookup_field data (Some (U "hot_water")) (U "hw")) as [[? ?]|];
    destruct (lookup_field data (Some (U "electricity")) (U "el")) as [[? ?]|];
    try (intros H; injection H as <-; eauto).
  match goal with |- context [match ?l with [] => _ | _ :: _ => _ end] => destruct l end;
    [discriminate|]. intros H; injection H as <-; eauto.
Qed.

(** A successful validation has used every key of the dictionary. *)
Lemma validate_inv (data : gmap str Dec) (inp : InputData) :
  InputData_validate data = Ok inp ->
  Forall (fun k => k ∈ used_keys data) (data_keys data)
  /\ exists k1 k2 k3,
      lookup_field data (Some (U "cold_water")) (U "cw") = Some (k1, cw inp)
      /\ lookup_field data (Some (U "hot_water")) (U "hw") = Some (k2, hw inp)
      /\ lookup_field data (Some (U "electricity")) (U "el") = Some (k3, el inp)
      /\ cw_rate inp = snd <$> lookup_field data None (U "cw_rate")
      /\ hw_rate inp = snd <$> lookup_field data None (U "hw_rate")
      /\ wd_rate inp = snd <$> lookup_field data None (U "wd_rate")
      /\ el_rate inp = snd <$> lookup_field data None (U "el_rate").
Proof.
  intros H. destruct (filter (fun k => k ∉ used_keys data) (data_keys data)) as [|x l] eqn:Ef.
  - split.
    + apply filter_empty_iff in Ef. eapply Forall_impl; [exact Ef|].
      intros k Hk. cbn beta in Hk. destruct (decide (k ∈ used_keys data)); [assumption|].
      contradiction.
    + revert H. unfold InputData_validate. cbv zeta.
      fold (used_keys data). fold (data_keys data). rewrite Ef.
      destruct (lookup_field data (Some (U "cold_water")) (U "cw")) as [[k1 a]|];
        destruct (lookup_field data (Some (U "hot_water")) (U "hw")) as [[k2 b]|];
        destruct (lookup_field data (Some (U "electricity")) (U "el")) as [[k3 c]|];
        try discriminate.
      intros H. injection H as <-. exists k1, k2, k3. repeat split; reflexivity.
  - exfalso. revert H. unfold InputData_validate. cbv zeta.
    fold (used_keys data). fold (data_keys data). rewrite Ef.
    destruct (lookup_field data (Some (U "cold_water")) (U "cw")) as [[k1 a]|];
      destruct (lookup_field data (Some (U "hot_water")) (U "hw")) as [[k2 b]|];
      destruct (lookup_field data (Some (U "electricity")) (U "el")) as [[k3 c]|];
      discriminate.
Qed.

(** A key that populates a field: the field's name, or its alias, which has
    priority. *)
Lemma lookup_field_plain (data : gmap str Dec) (name k : str) (v : Dec) :
  lookup_field data None name = Some (k, v) <-> k = name /\ data !! name = Some v.
Proof.
  unfold lookup_field. destruct (data !! name) as [x|]; cbn; split.
  - intros H. injection H as <- <-. auto.
  - intros [-> H]. injection H as <-. reflexivity.
  - discriminate.
  - intros [_ H]. discriminate.
Qed.

Lemma lookup_field_alias (data : gmap str Dec) (alias name k : str) (v : Dec) :
  lookup_field data (Some alias) name = Some (k, v) <->
  (k = alias /\ data !! alias = Some v)
  \/ (k = name /\ data !! alias = None /\ data !! name = Some v).
Proof.
  unfold lookup_field. destruct (data !! alias) as [x|].
  - split.
    + intros H. injection H as <- <-. left. auto.
    + intros [[-> H]|(_ & H & _)]; [|discriminate]. injection H as <-. reflexivity.
  - destruct (data !! name) as [x|]; cbn; split.
    + intros H. injection H as <- <-. right. auto.
    + intros [[_ H]|(-> & _ & H)]; [discriminate|]. injection H as <-. reflexivity.
    + discriminate.
    + intros [[_ H]|(_ & _ & H)]; discriminate.
Qed.

Lemma used_keys_gen (data : gmap str Dec) (a1 n1 a2 n2 a3 n3 r1 r2 r3 r4 k : str) :
  k ∈ omap (fmap fst)
        [lookup_field data (Some a1) n1; lookup_field data (Some a2) n2;
         lookup_field data (Some a3) n3; lookup_field data None r1;
         lookup_field data None r2; lookup_field data None r3; lookup_field data None r4] <->
  (k = a1 /\ is_Some (data !! k))
  \/ (k = n1 /\ data !! a1 = None /\ is_Some (data !! k))
  \/ (k = a2 /\ is_Some (data !! k))
  \/ (k = n2 /\ data !! a2 = None /\ is_Some (data !! k))
  \/ (k = a3 /\ is_Some (data !! k))
  \/ (k = n3 /\ data !! a3 = None /\ is_Some (data !! k))
  \/ (k ∈ [r1; r2; r3; r4] /\ is_Some (data !! k)).
Proof.
  rewrite list_elem_of_omap. split.
  - intros (f & Hin & Hf). destruct f as [[k' v]|]; [|discriminate]. injection Hf as ->.
    repeat (apply elem_of_cons in Hin as [Hin|Hin]).
    + symmetry in Hin. apply lookup_field_alias in Hin as [[-> H]|(-> & H1 & H2)]; eauto 10.
    + symmetry in Hin. apply lookup_field_alias in Hin as [[-> H]|(-> & H1 & H2)]; eauto 10.
    + symmetry in Hin. apply lookup_field_alias in Hin as [[-> H]|(-> & H1 & H2)]; eauto 10.
    + symmetry in Hin. apply lookup_field_plain in Hin as [-> H].
      do 6 right. split; [|eauto]. apply list_elem_of_In. cbn [In]. auto.
    + symmetry in Hin. apply lookup_field_plain in Hin as [-> H].
      do 6 right. split; [|eauto]. apply list_elem_of_In. cbn [In]. auto.
    + symmetry in Hin. apply lookup_field_plain in Hin as [-> H].
      do 6 right. split; [|eauto]. apply list_elem_of_In. cbn [In]. auto.
    + symmetry in Hin. apply lookup_field_plain in Hin as [-> H].
      do 6 right. split; [|eauto]. apply list_elem_of_In. cbn [In]. auto.
    + inversion Hin.
  - intros H.
    assert (exists v, (lookup_field data (Some a1) n1 = Some (k, v)
                       \/ lookup_field data (Some a2) n2 = Some (k, v)
                       \/ lookup_field data (Some a3) n3 = Some (k, v))
                      \/ (k ∈ [r1; r2; r3; r4] /\ lookup_field data None k = Some (k, v)))
      as (v & Hv).
    { destruct H as [[-> [v Hv]]|[(-> & H1 & [v Hv])|[[-> [v Hv]]|[(-> & H1 & [v Hv])|
        [[-> [v Hv]]|[(-> & H1 & [v Hv])|[Hr [v Hv]]]]]]]]; exists v;
        try (left; rewrite !lookup_field_alias; eauto 10; fail).
      right. split; [assumption|]. apply lookup_field_plain. auto. }
    exists (Some (k, v)). split; [|reflexivity].
    destruct Hv as [[Hv|[Hv|Hv]]|[Hr Hv]];
      try (rewrite <- Hv; apply list_elem_of_In; cbn [In]; tauto).
    repeat (apply elem_of_cons in Hr as [Hr|Hr];
            [rewrite Hr in Hv |- *; rewrite <- Hv; apply list_elem_of_In; cbn [In]; tauto|]).
    inversion Hr.
Qed.

Lemma used_keys_elem (data : gmap str Dec) (k : str) :
  k ∈ used_keys data <->
  (k = U "cold_water" /\ is_Some (data !! k))
  \/ (k = U "cw" /\ data !! U "cold_water" = None /\ is_Some (data !! k))
  \/ (k = U "hot_water" /\ is_Some (data !! k))
  \/ (k = U "hw" /\ data !! U "hot_water" = None /\ is_Some (data !! k))
  \/ (k = U "electricity" /\ is_Some (data !! k))
  \/ (k = U "el" /\ data !! U "electricity" = None /\ is_Some (data !! k))
  \/ (k ∈ rate_names /\ is_Some (data !! k)).
Proof. apply used_keys_gen. Qed.

(** A dictionary with the three readings under their names and only known
    keys is valid, and gives the input that it spells out. *)
Lemma validate_plain (data : gmap str Dec) (a b c : Dec) :
  data !! U "cw" = Some a -> data !! U "hw" = Some b -> data !! U "el" = Some c ->
  (forall k, is_Some (data !! k) -> k ∈ field_names) ->
  InputData_validate data
  = Ok (mkInput a b c (data !! U "cw_rate") (data !! U "hw_rate")
                (data !! U "wd_rate") (data !! U "el_rate")).
Proof.
  intros Ha Hb Hc Hkeys.
  assert (forall k, k ∉ field_names -> data !! k = None) as Hnone.
  { intros k Hk. destruct (data !! k) eqn:E; [|reflexivity]. exfalso. apply Hk, Hkeys. eauto. }
  assert (data !! U "cold_water" = None) as H1
      by (apply Hnone; intros H; apply list_elem_of_In in H; vm_compute in H; intuition discriminate).
  assert (data !! U "hot_water" = None) as H2
      by (apply Hnone; intros H; apply list_elem_of_In in H; vm_compute in H; intuition discriminate).
  assert (data !! U "electricity" = None) as H3
      by (apply Hnone; intros H; apply list_elem_of_In in H; vm_compute in H; intuition discriminate).
  assert (Forall (fun k => k ∈ used_keys data) (data_keys data)) as Hused.
  { apply Forall_forall. intros k Hk. apply data_keys_elem in Hk.
    apply used_keys_elem. specialize (Hkeys k Hk). unfold field_names, trio_names in Hkeys.
    apply elem_of_app in Hkeys as [Hkeys|Hkeys]; [|tauto].
    repeat (apply elem_of_cons in Hkeys as [->|Hkeys]); [tauto..|inversion Hkeys]. }
  unfold InputData_validate. cbv zeta. fold (used_keys data). fold (data_keys data).
  assert (filter (fun k => k ∉ used_keys data) (data_keys data) = []) as ->.
  { apply filter_empty_iff. eapply Forall_impl; [exact Hused|]. cbn beta. tauto. }
  unfold lookup_field. rewrite H1, H2, H3, Ha, Hb, Hc. cbn.
  f_equal. f_equal;
    match goal with |- context [data !! ?k] => destruct (data !! k); reflexivity end.
Qed.

(** With the three readings present, a key outside the seven field names is
    refused: either it populates nothing, or it is an alias, and then the
    reading's own name is left over. *)
Lemma validate_unknown (data : gmap str Dec) (k : str) :
  is_Some (data !! U "cw") -> is_Some (data !! U "hw") -> is_Some (data !! U "el") ->
  is_Some (data !! k) -> k ∉ field_names ->
  exists errs, InputData_validate data = Raise (ValidationError errs).
Proof.
  intros Hcw Hhw Hel Hk Hnot.
  destruct (InputData_validate data) as [inp|e] eqn:E.
  - exfalso. apply validate_inv in E as [Hused _].
    rewrite Forall_forall in Hused.
    assert (forall x, is_Some (data !! x) -> x ∈ used_keys data) as Hu
        by (intros x Hx; apply Hused, data_keys_elem, Hx).
    pose proof (Hu k Hk) as Huk. apply used_keys_elem in Huk.
    assert (forall x y : str, x = y -> x ∈ field_names -> y ∈ field_names) as Hsub
        by (intros x y ->; auto).
    destruct Huk as [[-> _]|[(-> & _)|[[-> _]|[(-> & _)|[[-> _]|[(-> & _)|[Hr _]]]]]]].
    + apply Hu, used_keys_elem in Hcw.
      destruct Hcw as [[Hc _]|[(_ & Hc & _)|[[Hc _]|[(Hc & _)|[[Hc _]|[(Hc & _)|[Hc _]]]]]]];
        try discriminate.
      * destruct Hk as [v Hv]. congruence.
      * apply list_elem_of_In in Hc. vm_compute in Hc. intuition discriminate.
    + apply Hnot, list_elem_of_In. vm_compute. tauto.
    + apply Hu, used_keys_elem in Hhw.
      destruct Hhw as [[Hc _]|[(Hc & _)|[[Hc _]|[(_ & Hc & _)|[[Hc _]|[(Hc & _)|[Hc _]]]]]]];
        try discriminate.
      * destruct Hk as [v Hv]. congruence.
      * apply list_elem_of_In in Hc. vm_compute in Hc. intuition discriminate.
    + apply Hnot, list_elem_of_In. vm_compute. tauto.
    + apply Hu, used_keys_elem in Hel.
      destruct Hel as [[Hc _]|[(Hc & _)|[[Hc _]|[(Hc & _)|[[Hc _]|[(_ & Hc & _)|[Hc _]]]]]]];
        try discriminate.
      * destruct Hk as [v Hv]. congruence.
      * apply list_elem_of_In in Hc. vm_compute in Hc. intuition discriminate.
    + apply Hnot, list_elem_of_In. vm_compute. tauto.
    + apply Hnot. unfold field_names. apply elem_of_app. right. exact Hr.
  - apply validate_raises in E as (errs & ->). eauto.
Qed.

(** *** The two formats *)

Lemma lookup_dict_empty (es : list (str * Dec)) (k : str) :
  dict_of es ∅ !! k = last_entry k es.
Proof. rewrite lookup_dict_of, lookup_empty. destruct (last_entry k es); reflexivity. Qed.

Lemma has_key_dict (es : list (str * Dec)) (k : str) :
  bool_decide (is_Some (dict_of es ∅ !! k)) = has_key k es.
Proof.
  rewrite lookup_dict_empty. destruct (has_key k es) eqn:E.
  - apply bool_decide_eq_true, has_key_last, E.
  - apply bool_decide_eq_false. intros H. apply has_key_last in H. congruence.
Qed.

(** [_parse_input] takes the first format exactly when the payload has an
    equals sign and its keyed pairs include [cw], [hw] and [el]; building the
    dictionary of the keyed pairs never fails. *)
Lemma parse_input_dispatch (text : str) :
  _parse_input text
  = if grammar_a_applies (payload_of text)
    then InputData_validate (dict_of (keyed_entries (payload_of text)) ∅)
    else grammar_b (payload_of text).
Proof.
  unfold _parse_input, grammar_a_applies, keyed_entries. cbv zeta.
  set (payload := payload_of text).
  destruct (existsb (N.eqb 61) payload); [|reflexivity]. cbn [andb].
  pose proof (pairs_convert payload) as Hp.
  destruct (findall true pat_pair payload) as [|p pairs] eqn:E; [reflexivity|].
  rewrite dict_of_pairs_entries by exact Hp. cbn [bind].
  unfold has_trio. rewrite !has_key_dict. unfold trio_names. cbn [forallb].
  rewrite andb_true_r, andb_assoc. reflexivity.
Qed.

Lemma token_converts (payload n : str) :
  n ∈ tokens payload -> exists d, Decimal_of_str (replace_comma n) = Ok d.
Proof.
  unfold tokens. intros H. apply list_elem_of_fmap in H as ([m caps] & -> & H).
  apply list_elem_of_In, findall_sound, smatch_number in H as [_ H].
  apply normalize_number in H as (d & Hd & _). exists d. exact Hd.
Qed.

Lemma names_distinct :
  U "cw" <> U "hw" /\ U "cw" <> U "el" /\ U "hw" <> U "el".
Proof. repeat split; intros H; vm_compute in H; discriminate. Qed.

Lemma rate_names_fields (k : str) : k ∈ rate_names -> k ∈ field_names /\ k ∉ trio_names.
Proof.
  intros H. split; [apply elem_of_app; right; exact H|].
  intros H'. unfold rate_names in H.
  repeat (apply elem_of_cons in H as [->|H];
          [apply list_elem_of_In in H'; vm_compute in H'; intuition discriminate|]).
  inversion H.
Qed.

Lemma keys_within_spec (names : list str) (es : list (str * Dec)) :
  keys_within names es = true <-> forall k, k ∈ (fst <$> es) -> k ∈ names.
Proof.
  unfold keys_within. rewrite forallb_forall. split.
  - intros H k Hk. apply list_elem_of_fmap in Hk as (e & -> & He).
    apply list_elem_of_In, H in He. apply bool_decide_eq_true in He. exact He.
  - intros H e He. apply bool_decide_eq_true, H, list_elem_of_fmap. exists e.
    split; [reflexivity|]. apply list_elem_of_In. exact He.
Qed.

Lemma keys_within_false (names : list str) (es : list (str * Dec)) :
  keys_within names es = false -> exists k, k ∈ (fst <$> es) /\ k ∉ names.
Proof.
  unfold keys_within. induction es as [|e es IH]; cbn [forallb]; [discriminate|].
  intros H. apply andb_false_iff in H as [H|H].
  - apply bool_decide_eq_false in H. exists (fst e). split; [|exact H].
    cbn [fmap list_fmap]. apply list_elem_of_here.
  - destruct (IH H) as (k & Hk & Hn). exists k. split; [|exact Hn].
    cbn [fmap list_fmap]. apply list_elem_of_further. exact Hk.
Qed.

(** The dictionary of the second format: the three readings on top of the
    rates. *)
Lemma trio_over_rates (es : list (str * Dec)) (d1 d2 d3 : Dec) (k : str) :
  (forall x, x ∈ (fst <$> es) -> x ∉ trio_names) ->
  let data := <[U "cw" := d1]> (<[U "hw" := d2]> (<[U "el" := d3]> (dict_of es ∅))) in
  data !! U "cw" = Some d1 /\ data !! U "hw" = Some d2 /\ data !! U "el" = Some d3
  /\ (k ∉ trio_names -> data !! k = last_entry k es)
  /\ (is_Some (data !! k) -> k ∈ trio_names \/ k ∈ (fst <$> es)).
Proof.
  intros Hes data. destruct names_distinct as (H1 & H2 & H3). unfold data.
  split; [apply lookup_insert_eq|].
  split; [rewrite lookup_insert_ne by exact H1; apply lookup_insert_eq|].
  split; [rewrite lookup_insert_ne by exact H2; rewrite lookup_insert_ne by exact H3;
          apply lookup_insert_eq|].
  assert (k ∉ trio_names -> U "cw" <> k /\ U "hw" <> k /\ U "el" <> k) as Hne.
  { intros Hk. repeat split; intros <-; apply Hk, list_elem_of_In; cbn [trio_names In]; tauto. }
  split.
  - intros Hk. destruct (Hne Hk) as (N1 & N2 & N3).
    rewrite !lookup_insert_ne by assumption. apply lookup_dict_empty.
  - intros Hs. destruct (decide (k ∈ trio_names)) as [Hk|Hk]; [left; exact Hk|right].
    destruct (Hne Hk) as (N1 & N2 & N3). rewrite !lookup_insert_ne in Hs by assumption.
    rewrite lookup_dict_empty in Hs. apply has_key_last in Hs. apply has_key_elem. exact Hs.
Qed.

(** The second format: the first three numeric tokens are the readings and
    the rate pairs the overrides; a rate pair with an unknown key is refused;
    fewer than three tokens are not a command. *)
Lemma grammar_b_spec (payload : str) :
  match tokens payload with
  | n1 :: n2 :: n3 :: _ =>
    exists d1 d2 d3,
      Decimal_of_str (replace_comma n1) = Ok d1 /\ Decimal_of_str (replace_comma n2) = Ok d2
      /\ Decimal_of_str (replace_comma n3) = Ok d3
      /\ (keys_within rate_names (rate_entries payload) = true ->
          grammar_b payload = Ok (input_of d1 d2 d3 (rate_entries payload)))
      /\ (keys_within rate_names (rate_entries payload) = false ->
          exists errs, grammar_b payload = Raise (ValidationError errs))
  | _ => grammar_b payload = Raise (ValueError msg_unrecognized)
  end.
Proof.
  unfold grammar_b. cbv zeta. fold (tokens payload).
  pose proof (token_converts payload) as Hconv.
  destruct (tokens payload) as [|n1 [|n2 [|n3 rest]]]; try reflexivity.
  destruct (Hconv n1) as (d1 & E1); [apply list_elem_of_here|].
  destruct (Hconv n2) as (d2 & E2); [apply list_elem_of_further, list_elem_of_here|].
  destruct (Hconv n3) as (d3 & E3);
    [apply list_elem_of_further, list_elem_of_further, list_elem_of_here|].
  exists d1, d2, d3. rewrite E1, E2, E3. cbn [bind].
  rewrite dict_of_pairs_entries by apply rate_pairs_convert. cbn [bind].
  fold (rate_entries payload). set (es := rate_entries payload).
  assert (forall x, x ∈ (fst <$> es) -> x ∉ trio_names) as Hes.
  { intros x Hx Ht. apply rate_entries_suffix in Hx as (p & Hp).
    apply (suffix_not_reading p x Hp). apply elem_of_app. left. exact Ht. }
  repeat (split; [reflexivity|]). split.
  - intros Hk. rewrite keys_within_spec in Hk.
    destruct (trio_over_rates es d1 d2 d3 (U "cw") Hes) as (L1 & L2 & L3 & _).
    rewrite (validate_plain _ d1 d2 d3 L1 L2 L3).
    + unfold input_of. f_equal. f_equal.
      * apply (trio_over_rates es d1 d2 d3 (U "cw_rate") Hes).
        apply rate_names_fields, list_elem_of_In. cbn [rate_names In]. tauto.
      * apply (trio_over_rates es d1 d2 d3 (U "hw_rate") Hes).
        apply rate_names_fields, list_elem_of_In. cbn [rate_names In]. tauto.
      * apply (trio_over_rates es d1 d2 d3 (U "wd_rate") Hes).
        apply rate_names_fields, list_elem_of_In. cbn [rate_names In]. tauto.
      * apply (trio_over_rates es d1 d2 d3 (U "el_rate") Hes).
        apply rate_names_fields, list_elem_of_In. cbn [rate_names In]. tauto.
    + intros k Hs. apply (trio_over_rates es d1 d2 d3 k Hes) in Hs as [Hs|Hs].
      * apply elem_of_app. left. exact Hs.
      * apply rate_names_fields, Hk, Hs.
  - intros Hk. apply keys_within_false in Hk as (k & Hin & Hn).
    destruct (trio_over_rates es d1 d2 d3 k Hes) as (L1 & L2 & L3 & L4 & _).
    apply (validate_unknown _ k); eauto.
    + rewrite L4 by (apply Hes; exact Hin). apply has_key_last, has_key_elem. exact Hin.
    + intros Hf. apply elem_of_app in Hf as [Hf|Hf]; [|contradiction].
      exact (Hes k Hin Hf).
Qed.

Lemma tokens_number_text (payload : str) : Forall number_text (tokens payload).
Proof.
  apply List.Forall_forall. intros n H. apply list_elem_of_In in H. unfold tokens in H.
  apply list_elem_of_fmap in H as ([m caps] & -> & H).
  apply list_elem_of_In, findall_sound, smatch_number in H as [_ H]. exact H.
Qed.

(** The first format with known keys only: the input that the pairs spell
    out, the last pair of a name winning. *)
Lemma grammar_a_known (payload : str) :
  grammar_a_applies payload = true ->
  keys_within field_names (keyed_entries payload) = true ->
  exists a b c,
    last_entry (U "cw") (keyed_entries payload) = Some a
    /\ last_entry (U "hw") (keyed_entries payload) = Some b
    /\ last_entry (U "el") (keyed_entries payload) = Some c
    /\ InputData_validate (dict_of (keyed_entries payload) ∅)
       = Ok (input_of a b c (keyed_entries payload)).
Proof.
  unfold grammar_a_applies. set (es := keyed_entries payload). intros Ha Hk.
  apply andb_true_iff in Ha as [_ Ha]. unfold trio_names in Ha. cbn [forallb] in Ha.
  apply andb_true_iff in Ha as [H1 Ha]. apply andb_true_iff in Ha as [H2 Ha].
  apply andb_true_iff in Ha as [H3 _].
  apply has_key_last in H1 as [a Ea], H2 as [b Eb], H3 as [c Ec].
  exists a, b, c. repeat (split; [assumption|]).
  rewrite (validate_plain _ a b c).
  - unfold input_of. rewrite !lookup_dict_empty. reflexivity.
  - rewrite lookup_dict_empty. exact Ea.
  - rewrite lookup_dict_empty. exact Eb.
  - rewrite lookup_dict_empty. exact Ec.
  - intros k Hs. rewrite lookup_dict_empty in Hs. apply has_key_last, has_key_elem in Hs.
    rewrite keys_within_spec in Hk. apply Hk, Hs.
Qed.

(** The first format with a key outside the seven names. *)
Lemma grammar_a_unknown (payload : str) :
  grammar_a_applies payload = true ->
  keys_within field_names (keyed_entries payload) = false ->
  exists errs,
    InputData_validate (dict_of (keyed_entries payload) ∅) = Raise (ValidationError errs).
Proof.
  unfold grammar_a_applies. set (es := keyed_entries payload). intros Ha Hk.
  apply andb_true_iff in Ha as [_ Ha]. unfold trio_names in Ha. cbn [forallb] in Ha.
  apply andb_true_iff in Ha as [H1 Ha]. apply andb_true_iff in Ha as [H2 Ha].
  apply andb_true_iff in Ha as [H3 _].
  apply keys_within_false in Hk as (k & Hin & Hn).
  apply (validate_unknown _ k); rewrite ?lookup_dict_empty; try apply has_key_last;
    try assumption.
  apply has_key_elem. exact Hin.
Qed.

(** The second format.  When the first format does not apply, the readings
    are the first three numeric tokens of the payload, in order: the matches
    of the number pattern from left to right, each a digit string with an
    optional fraction, wherever they stand.  The pairs whose key ends in
    [_rate] are the overrides, the last pair of a name winning, when their
    lower-cased keys are among the four rate names; otherwise the input is
    refused with a validation error.  With fewer than three tokens parsing
    fails with the message that quotes both formats. *)
Lemma positional_grammar (text : str) :
  (grammar_a_applies (payload_of text) = false ->
   (forall n1 n2 n3 rest, tokens (payload_of text) = n1 :: n2 :: n3 :: rest ->
      exists d1 d2 d3,
        Decimal_of_str (replace_comma n1) = Ok d1
        /\ Decimal_of_str (replace_comma n2) = Ok d2
        /\ Decimal_of_str (replace_comma n3) = Ok d3
        /\ (keys_within rate_names (rate_entries (payload_of text)) = true ->
            _parse_input text = Ok (input_of d1 d2 d3 (rate_entries (payload_of text))))
        /\ (keys_within rate_names (rate_entries (payload_of text)) = false ->
            exists errs, _parse_input text = Raise (ValidationError errs)))
   /\ ((length (tokens (payload_of text)) < 3)%nat ->
       _parse_input text = Raise (ValueError msg_unrecognized)))
  /\ Forall number_text (tokens (payload_of text))
  /\ is_infix (U "'cw=587 hw=49 el=8108 hw_rate=275'") msg_unrecognized = true
  /\ is_infix (U "'587 49 8108'") msg_unrecognized = true.
Proof.
  split; [|split; [apply tokens_number_text|repeat split; vm_compute; reflexivity]].
  intros Ha. rewrite parse_input_dispatch, Ha.
  pose proof (grammar_b_spec (payload_of text)) as Hb. split.
  - intros n1 n2 n3 rest E. rewrite E in Hb. exact Hb.
  - intros Hlen. destruct (tokens (payload_of text)) as [|n1 [|n2 [|n3 rest]]];
      try exact Hb. cbn [length] in Hlen. lia.
Qed.

Lemma positional_grammar_examples :
  _parse_input cmd_positional
  = Ok (input_of (D "587") (D "49") (D "8108") (rate_entries (payload_of cmd_positional)))
  /\ _parse_input cmd_short = Raise (ValueError msg_unrecognized).
Proof.
  split.
  - destruct (positional_grammar cmd_positional) as [H _].
    destruct H as [H _]; [vm_compute; reflexivity|].
    destruct (H (U "587") (U "49") (U "8108") [U "275"] ltac:(vm_compute; reflexivity))
      as (d1 & d2 & d3 & E1 & E2 & E3 & Hok & _).
    vm_compute in E1, E2, E3. injection E1 as <-. injection E2 as <-. injection E3 as <-.
    apply Hok. vm_compute. reflexivity.
  - destruct (positional_grammar cmd_short) as [H _].
    destruct H as [_ H]; [vm_compute; reflexivity|].
    apply H. vm_compute. lia.
Defined.

(** C6 at the failing inputs.  The command [.meter 587 49 hw_rate=275] has
    two standalone numbers and one rate pair; the first format does not
    apply.  The second format finds the pair [hw_rate=275] and attaches it,
    and its number scan counts the 275 of that same pair as a third token:
    the command is accepted with the electricity reading 275, where the
    command [.meter 587 49], with the same two standalone numbers, is
    refused with the message naming both formats.  In
    [.meter hw_rate=275 587 49 8108] the 275 of the pair, being the first
    match, becomes the cold-water reading and shifts the readings that
    follow. *)
Theorem C6_rate_value_as_reading :
  grammar_a_applies (payload_of cmd_rate_as_reading) = false
  /\ (fst <$> findall true pat_rate_pair (payload_of cmd_rate_as_reading)) = [U "hw_rate=275"]
  /\ tokens (payload_of cmd_rate_as_reading) = [U "587"; U "49"; U "275"]
  /\ _parse_input cmd_rate_as_reading
     = Ok (mkInput (D "587") (D "49") (D "275") None (Some (D "275")) None None)
  /\ _parse_input cmd_short = Raise (ValueError msg_unrecognized)
  /\ grammar_a_applies (payload_of cmd_rate_first) = false
  /\ tokens (payload_of cmd_rate_first) = [U "275"; U "587"; U "49"; U "8108"]
  /\ _parse_input cmd_rate_first
     = Ok (mkInput (D "275") (D "587") (D "49") None (Some (D "275")) None None)
  /\ grammar_a_applies (payload_of cmd_positional) = false
  /\ _parse_input cmd_positional
     = Ok (mkInput (D "587") (D "49") (D "8108") None (Some (D "275")) None None).
Proof. repeat split; vm_compute; reflexivity. Qed.

(** The two formats and unknown keys.  In the first format, chosen when the
    keyed pairs include [cw], [hw] and [el], a key outside the seven field
    names makes the whole input fail with a validation error, and with known
    keys only the input is the one that the pairs spell out.  In the second
    format only the keys ending in [_rate] are looked at: an unknown one is
    refused with a validation error, and with known ones the command is
    accepted, whatever other pairs it holds. *)
Lemma keyed_grammar (text : str) :
  (grammar_a_applies (payload_of text) = true ->
   (keys_within field_names (keyed_entries (payload_of text)) = false ->
    exists errs, _parse_input text = Raise (ValidationError errs))
   /\ (keys_within field_names (keyed_entries (payload_of text)) = true ->
       exists a b c,
         last_entry (U "cw") (keyed_entries (payload_of text)) = Some a
         /\ last_entry (U "hw") (keyed_entries (payload_of text)) = Some b
         /\ last_entry (U "el") (keyed_entries (payload_of text)) = Some c
         /\ _parse_input text = Ok (input_of a b c (keyed_entries (payload_of text)))))
  /\ (grammar_a_applies (payload_of text) = false ->
      (3 <= length (tokens (payload_of text)))%nat ->
      (keys_within rate_names (rate_entries (payload_of text)) = false ->
       exists errs, _parse_input text = Raise (ValidationError errs))
      /\ (keys_within rate_names (rate_entries (payload_of text)) = true ->
          exists inp, _parse_input text = Ok inp)).
Proof.
  split.
  - intros Ha. rewrite parse_input_dispatch, Ha. split.
    + apply grammar_a_unknown. exact Ha.
    + apply grammar_a_known. exact Ha.
  - intros Ha Hlen. rewrite parse_input_dispatch, Ha.
    pose proof (grammar_b_spec (payload_of text)) as Hb.
    destruct (tokens (payload_of text)) as [|n1 [|n2 [|n3 rest]]];
      try (cbn [length] in Hlen; lia).
    destruct Hb as (d1 & d2 & d3 & _ & _ & _ & Hok & Hbad). split; [exact Hbad|].
    intros Hk. rewrite (Hok Hk). eauto.
Qed.

Lemma keyed_grammar_example :
  exists errs, _parse_input cmd_keyed_unknown = Raise (ValidationError errs).
Proof.
  destruct (keyed_grammar cmd_keyed_unknown) as [H _].
  destruct H as [H _]; [vm_compute; reflexivity|].
  apply H. vm_compute. reflexivity.
Defined.

(** C7 at the failing inputs.  The command [.meter 587 49 8108 foo=5] holds
    the pair [foo=5], whose key is no field name; the second format looks
    only at keys ending in [_rate], and the command is accepted with the
    pair ignored, where the first format refuses the same pair in
    [.meter cw=587 hw=49 el=8108 foo=5] as a forbidden extra field.  In
    [.meter cw=1 hw=2 el=3 foo=-7] the first format applies, the pair
    pattern does not match [foo=-7] because of the sign, and the command is
    accepted with the unknown key ignored. *)
Theorem C7_unknown_key_accepted :
  (fst <$> keyed_entries (payload_of cmd_positional_unknown)) = [U "foo"]
  /\ bool_decide (U "foo" ∈ field_names) = false
  /\ grammar_a_applies (payload_of cmd_positional_unknown) = false
  /\ _parse_input cmd_positional_unknown
     = Ok (mkInput (D "587") (D "49") (D "8108") None None None None)
  /\ grammar_a_applies (payload_of cmd_keyed_unknown) = true
  /\ _parse_input cmd_keyed_unknown
     = Raise (ValidationError [(U "foo", U "extra_forbidden")])
  /\ grammar_a_applies (payload_of cmd_keyed_negative) = true
  /\ (fst <$> keyed_entries (payload_of cmd_keyed_negative)) = [U "cw"; U "hw"; U "el"]
  /\ _parse_input cmd_keyed_negative
     = Ok (mkInput (D "1") (D "2") (D "3") None None None None).
Proof. repeat split; vm_compute; reflexivity. Qed.

(** * The report and its re-reading *)

(** ** Results of the decimal context *)

(** What [_fix] returns is left alone by [_fix]: the results of the
    arithmetic are stable. *)
Lemma fix_idem (d r : Dec) : fix_ d = Ok r -> fix_ r = Ok r.
Proof.
  intros H. pose proof H as H0. unfold fix_ in H.
  destruct (dint d =? 0)%N eqn:Ez.
  - injection H as <-. rewrite fix_zero. f_equal. f_equal.
    unfold Etiny, Emax, Emin, prec. lia.
  - apply N.eqb_neq in Ez.
    set (n := ndigits (dint d)) in *.
    destruct (Etop <? n + dexp d - prec) eqn:E1; [discriminate|]. apply Z.ltb_ge in E1.
    set (em := if n + dexp d - prec <? Etiny then Etiny else n + dexp d - prec) in *.
    assert (Etiny <= em <= Etop /\ n + dexp d - prec <= em) as (Hem & Hem').
    { unfold em. destruct (n + dexp d - prec <? Etiny) eqn:E2;
        [apply Z.ltb_lt in E2|apply Z.ltb_ge in E2];
        unfold Etiny, Etop, Emax, Emin, prec in *; lia. }
    destruct (dexp d <? em) eqn:E3; [apply Z.ltb_lt in E3|injection H as <-; exact H0].
    set (k := Z.to_N (em - dexp d)) in *.
    set (c := round_coef ROUND_HALF_EVEN (dint d) k) in *.
    assert (c <= 10 ^ 28)%N as Hc.
    { pose proof (round_half_even_bounds (dint d) k) as Hb. fold c in Hb.
      pose proof (ndigits_upper (dint d)) as Hu. fold n in Hu.
      pose proof (ndigits_pos (dint d)) as Hp. fold n in Hp.
      assert (dint d / 10 ^ k < 10 ^ 28)%N; [|lia].
      apply N.Div0.div_lt_upper_bound. rewrite <- N.pow_add_r.
      eapply N.lt_le_trans; [exact Hu|]. apply N.pow_le_mono_r; [lia|].
      unfold k, prec in *. lia. }
    destruct (prec <? ndigits c) eqn:E4; [apply Z.ltb_lt in E4|apply Z.ltb_ge in E4].
    + destruct (Etop <? em + 1) eqn:E5; [discriminate|]. apply Z.ltb_ge in E5.
      injection H as <-.
      destruct (N.eq_dec (c / 10)%N 0%N) as [Hz|Hz].
      * rewrite Hz, fix_zero. f_equal. f_equal. unfold Etiny, Etop, Emax, Emin, prec in *. lia.
      * apply fix_id; cbn [dint dexp]; [|lia].
        apply ndigits_le; [unfold prec; lia|].
        assert (10 ^ 28 = 10 * 10 ^ 27)%N as E28 by (vm_compute; reflexivity).
        change (Z.to_N prec) with 28%N. rewrite E28 in Hc |- *.
        assert (0 < 10 ^ 27)%N as Hpos by (vm_compute; reflexivity).
        set (p := (10 ^ 27)%N) in *. clearbody p.
        assert (c / 10 <= p)%N by (apply N.Div0.div_le_upper_bound; exact Hc). lia.
    + destruct (Etop <? em) eqn:E5; [discriminate|]. injection H as <-.
      destruct (N.eq_dec c 0%N) as [Hz|Hz].
      * rewrite Hz, fix_zero. f_equal. f_equal. unfold Etiny, Etop, Emax, Emin, prec in *. lia.
      * apply fix_id; cbn [dint dexp]; assumption.
Qed.

Lemma dec_add_fixed (a b r : Dec) : dec_add a b = Ok r -> fix_ r = Ok r.
Proof.
  unfold dec_add. cbv zeta.
  destruct (Bool.eqb (dsign a) (dsign b)); [apply fix_idem|].
  destruct (_ <? _)%N; [apply fix_idem|]. destruct (_ <? _)%N; apply fix_idem.
Qed.

Lemma dec_sub_fixed (a b r : Dec) : dec_sub a b = Ok r -> fix_ r = Ok r.
Proof. apply dec_add_fixed. Qed.

(** Adding a non-negative value with a non-positive exponent to the zero of
    [Decimal('0')] gives the value back, once it is a result of the context. *)
Lemma dec_add_zero_l (x : Dec) :
  dsign x = false -> dexp x <= 0 -> fix_ x = Ok x -> dec_add (mkDec false 0 0) x = Ok x.
Proof.
  intros Hs He Hf. unfold dec_add. cbn [dsign dint dexp]. rewrite Hs. cbn [Bool.eqb].
  replace (Z.min 0 (dexp x)) with (dexp x) by lia.
  rewrite Z.sub_diag. cbn [Z.to_N N.pow]. rewrite N.mul_0_l, N.mul_1_r, N.add_0_l.
  destruct x as [s c e]. cbn [dsign dint dexp] in *. subst s. exact Hf.
Qed.

(** ** How plain Decimals are written *)

Lemma digits_ascii_digits (n : N) : ascii_digits (digits_of n).
Proof. split; [apply digits_of_nonempty|apply digits_of_ascii]. Qed.

Lemma dec_to_str_integral (d : Dec) : integral d -> dec_to_str d = digits_of (dint d).
Proof.
  destruct d as [s c e]. intros [Hs He]. cbn [dsign dexp] in *. subst s e.
  unfold dec_to_str. cbn [dsign dint dexp].
  pose proof (digits_of_nonempty c) as Hne.
  set (ds := digits_of c) in *. set (len := Z.of_nat (length ds)).
  assert (1 <= len) as Hlen by (unfold len; destruct ds; [congruence|simpl; lia]).
  change (0 <=? 0) with true. cbn [andb].
  replace (-6 <? 0 + len) with true by (symmetry; apply Z.ltb_lt; lia).
  replace (0 + len <=? 0) with false by (symmetry; apply Z.leb_gt; lia).
  replace (len <=? 0 + len) with true by (symmetry; apply Z.leb_le; lia).
  rewrite Z.eqb_refl. replace (0 + len - len) with 0 by lia.
  change (zeros 0) with (@nil N). cbn [app]. rewrite !app_nil_r. reflexivity.
Qed.

Lemma integral_text (d : Dec) : integral d -> ascii_digits (dec_to_str d).
Proof. intros H. rewrite dec_to_str_integral by assumption. apply digits_ascii_digits. Qed.

Lemma plain_text_of (d : Dec) : plain d -> plain_text (dec_to_str d).
Proof.
  destruct d as [s c e]. intros (Hs & He & Hl). cbn [dsign dint dexp] in *. subst s.
  unfold dec_to_str. cbn [dsign dint dexp].
  pose proof (digits_of_ascii c) as Hds. pose proof (digits_of_nonempty c) as Hne.
  unfold ndigits in Hl.
  set (ds := digits_of c) in *. set (len := Z.of_nat (length ds)) in *.
  assert (1 <= len) as Hlen by (unfold len; destruct ds; [congruence|simpl; lia]).
  replace (e <=? 0) with true by (symmetry; apply Z.leb_le; lia). cbn [andb].
  replace (-6 <? e + len) with true by (symmetry; apply Z.ltb_lt; lia).
  rewrite Z.eqb_refl.
  destruct (e + len <=? 0) eqn:E1; [apply Z.leb_le in E1|apply Z.leb_gt in E1].
  - cbn [app]. rewrite app_nil_r. exists [48%N], (46%N :: zeros (- (e + len)) ++ ds).
    split; [reflexivity|]. split.
    + split; [discriminate|]. constructor; [unfold ascii_digit; lia|constructor].
    + right. eexists. split; [reflexivity|]. split.
      * destruct ds; [congruence|]. destruct (zeros _); discriminate.
      * apply Forall_app. split; [apply zeros_ascii|assumption].
  - destruct (len <=? e + len) eqn:E2; [apply Z.leb_le in E2|apply Z.leb_gt in E2].
    + assert (e = 0) as -> by lia. replace (0 + len - len) with 0 by lia.
      change (zeros 0) with (@nil N). cbn [app]. rewrite !app_nil_r.
      exists ds, []. rewrite app_nil_r. split; [reflexivity|]. split; [split; assumption|].
      left. reflexivity.
    + cbn [app]. rewrite app_nil_r.
      exists (take (Z.to_nat (e + len)) ds), (46%N :: drop (Z.to_nat (e + len)) ds).
      split; [reflexivity|]. split.
      * split; [|apply Forall_take; assumption].
        intros Ht. apply (f_equal (@length N)) in Ht. rewrite length_take in Ht.
        cbn [length] in Ht. unfold len in *. lia.
      * right. eexists. split; [reflexivity|]. split; [|apply Forall_drop; assumption].
        intros Ht. apply (f_equal (@length N)) in Ht. rewrite length_drop in Ht.
        cbn [length] in Ht. unfold len in *. lia.
Qed.

Lemma ascii_digits_plain (w : str) : ascii_digits w -> plain_text w.
Proof. intros H. exists w, []. rewrite app_nil_r. auto. Qed.

(** The characters of a plain number: digits and the point. *)
Lemma plain_text_chars (w : str) :
  plain_text w -> w <> [] /\ Forall (fun x => In x [46; 48; 49; 50; 51; 52; 53; 54; 55; 56; 57]%N) w.
Proof.
  assert (forall x, ascii_digit x -> In x [46; 48; 49; 50; 51; 52; 53; 54; 55; 56; 57]%N) as Hd.
  { intros x [H1 H2]. cbn [In].
    assert (x = 48 \/ x = 49 \/ x = 50 \/ x = 51 \/ x = 52 \/ x = 53 \/ x = 54 \/ x = 55
            \/ x = 56 \/ x = 57)%N by lia.
    intuition auto. }
  intros (ip & fp & -> & [Hne Hip] & Hfp). split; [destruct ip; [congruence|discriminate]|].
  apply Forall_app. split; [eapply Forall_impl; [exact Hip|exact Hd]|].
  destruct Hfp as [->|(fd & -> & _ & Hfd)]; [constructor|].
  constructor; [cbn [In]; auto|eapply Forall_impl; [exact Hfd|exact Hd]].
Qed.

Lemma plain_text_no_comma (w : str) : plain_text w -> Forall (fun c => c <> 44%N) w.
Proof.
  intros H. apply plain_text_chars in H as [_ H]. eapply Forall_impl; [exact H|].
  intros x Hx ->. cbn [In] in Hx. intuition discriminate.
Qed.

(** Reading back what was written. *)
Lemma normalize_plain (d : Dec) : plain d -> _normalize_decimal (dec_to_str d) = Ok d.
Proof.
  intros H. unfold _normalize_decimal.
  rewrite replace_comma_id by (apply plain_text_no_comma, plain_text_of, H).
  apply Decimal_of_str_to_str.
Qed.

Lemma integral_plain (d : Dec) : integral d -> plain d.
Proof.
  intros [Hs He]. split; [exact Hs|]. rewrite He. pose proof (ndigits_pos (dint d)). lia.
Qed.

(** ** Matching a written report *)

(** *** Characters *)

Lemma ascii_digit_cases (x : N) :
  ascii_digit x -> In x [48; 49; 50; 51; 52; 53; 54; 55; 56; 57]%N.
Proof.
  intros [H1 H2]. cbn [In].
  assert (x = 48 \/ x = 49 \/ x = 50 \/ x = 51 \/ x = 52 \/ x = 53 \/ x = 54 \/ x = 55
          \/ x = 56 \/ x = 57)%N by lia.
  intuition auto.
Qed.

Lemma ascii_digit_class (x : N) : ascii_digit x -> in_class CDigit x = true.
Proof. intros H. apply is_decimal_ascii. exact H. Qed.

Lemma ascii_digit_not_space (x : N) : ascii_digit x -> is_space x = false.
Proof.
  intros H. apply ascii_digit_cases in H. cbn [In] in H.
  repeat (destruct H as [<-|H]; [vm_compute; reflexivity|]). destruct H.
Qed.

Lemma ascii_digit_not_sep (x : N) : ascii_digit x -> in_class CSep x = false.
Proof.
  intros H. apply ascii_digit_cases in H. cbn [In] in H.
  repeat (destruct H as [<-|H]; [vm_compute; reflexivity|]). destruct H.
Qed.

Lemma Forall_ascii_class (w : str) :
  Forall ascii_digit w -> Forall (fun x => in_class CDigit x = true) w.
Proof. intros H. eapply Forall_impl; [exact H|]. apply ascii_digit_class. Qed.

(** *** Forward rules for the pieces of the patterns *)

Section Pieces.
Context {R : Type}.

Lemma fwd_lits (ic : bool) (t : str) : forall (t' : str) rs s caps (k : str -> list str -> option R) v,
  lits_agree ic t t' = true -> mseq ic rs s caps k = Some v ->
  mseq ic (lits t ++ rs) (t' ++ s) caps k = Some v.
Proof.
  induction t as [|a t IH]; intros [|x t'] rs s caps k v E H; cbn [lits_agree] in E;
    try discriminate.
  - exact H.
  - apply andb_true_iff in E as [E1 E2]. cbn [lits map app].
    apply fwd_lit; [exact E1|]. apply IH; assumption.
Qed.

(** White space before a character that is none. *)
Lemma fwd_ws (ic : bool) (sp : str) rs s caps (k : str -> list str -> option R) v :
  Forall (fun x => is_space x = true) sp ->
  match s with [] => True | x :: _ => is_space x = false end ->
  mseq ic rs s caps k = Some v ->
  mseq ic (ws :: rs) (sp ++ s) caps k = Some v.
Proof. intros Hsp Hs H. apply fwd_star; assumption. Qed.

Lemma fwd_grp_digits (ic : bool) (w : str) rs s caps (k : str -> list str -> option R) v :
  ascii_digits w ->
  match s with [] => True | x :: _ => in_class CDigit x = false end ->
  mseq ic rs s (caps ++ [w]) k = Some v ->
  mseq ic (Grp [Plus CDigit] :: rs) (w ++ s) caps k = Some v.
Proof.
  intros [Hne Hw] Hs H. apply fwd_grp. apply fwd_plus; try assumption.
  - apply Forall_ascii_class. exact Hw.
  - rewrite mseq_nil, take_matched. exact H.
Qed.

Lemma opt_fraction_none (ic : bool) (s : str) caps (k : str -> list str -> option R) :
  match s with [] => True | x :: _ => in_class CSep x = false end ->
  mseq ic [Cls CSep; Plus CDigit] s caps k = None.
Proof.
  intros Hs. rewrite mseq_cons. cbn [mre]. destruct s as [|x s]; [reflexivity|].
  rewrite Hs. reflexivity.
Qed.

Lemma fwd_grp_number (ic : bool) (w : str) rs s caps (k : str -> list str -> option R) v :
  plain_text w -> stops s ->
  mseq ic rs s (caps ++ [w]) k = Some v ->
  mseq ic (Grp number :: rs) (w ++ s) caps k = Some v.
Proof.
  intros (ip & fp & -> & [Hne Hip] & Hfp) Hs H. apply fwd_grp. unfold number.
  destruct Hfp as [->|(fd & -> & [Hfd Hf])].
  - rewrite app_nil_r in *. apply fwd_plus; try assumption.
    + apply Forall_ascii_class. exact Hip.
    + destruct s as [|x s]; [exact I|apply Hs].
    + apply fwd_opt_skip.
      * apply opt_fraction_none. destruct s as [|x s]; [exact I|apply Hs].
      * rewrite mseq_nil, take_matched. exact H.
  - rewrite <- app_assoc. apply fwd_plus; try assumption.
    + apply Forall_ascii_class. exact Hip.
    + cbn [app]. vm_compute. reflexivity.
    + apply fwd_opt_take. cbn [app]. apply fwd_cls; [vm_compute; reflexivity|].
      apply fwd_plus; try assumption.
      * apply Forall_ascii_class. exact Hf.
      * destruct s as [|x s]; [exact I|apply Hs].
      * rewrite !mseq_nil.
        replace (ip ++ 46%N :: fd ++ s) with ((ip ++ 46%N :: fd) ++ s)
          by (rewrite <- app_assoc; reflexivity).
        rewrite take_matched. exact H.
Qed.

End Pieces.

(** *** The lines of a section *)

Section Lines.
Context {R : Type}.
Variables (P C K R_ A s : str).
Hypothesis (HP : ascii_digits P) (HC : ascii_digits C).
Hypothesis (HK : plain_text K) (HR : plain_text R_) (HA : plain_text A).
Hypothesis (Hs : stops s).

Lemma ascii_digits_head (w rest : str) :
  ascii_digits w ->
  match w ++ rest with [] => True | x :: _ => is_space x = false end.
Proof.
  intros [Hne Hw]. destruct w as [|x w]; [congruence|]. cbn [app].
  apply ascii_digit_not_space. inversion Hw; assumption.
Qed.

Lemma plain_text_head (w rest : str) :
  plain_text w ->
  match w ++ rest with [] => True | x :: _ => is_space x = false end.
Proof.
  intros (ip & fp & -> & H & _). rewrite <- app_assoc. apply ascii_digits_head. exact H.
Qed.

Lemma fwd_cost_line (caps : list str) (k : str -> list str -> option R) (v : R) :
  k s (caps ++ [K; R_; A]) = Some v ->
  mseq true cost_line
       (K ++ [32; 42; 32]%N ++ R_ ++ [32; 61; 32]%N ++ A ++ s) caps k = Some v.
Proof.
  intros H. unfold cost_line.
  apply fwd_grp_number; [exact HK|vm_compute; split; reflexivity|].
  apply (fwd_ws true [32%N]);
    [repeat constructor|vm_compute; reflexivity|].
  apply fwd_lit; [vm_compute; reflexivity|].
  apply (fwd_ws true [32%N]); [repeat constructor|apply plain_text_head; exact HR|].
  apply fwd_grp_number; [exact HR|vm_compute; split; reflexivity|].
  apply (fwd_ws true [32%N]);
    [repeat constructor|vm_compute; reflexivity|].
  apply fwd_lit; [vm_compute; reflexivity|].
  apply (fwd_ws true [32%N]); [repeat constructor|apply plain_text_head; exact HA|].
  apply fwd_grp_number; [exact HA|exact Hs|].
  rewrite mseq_nil, <- !app_assoc. exact H.
Qed.

Lemma fwd_meter_lines (caps : list str) (k : str -> list str -> option R) (v : R) :
  k s (caps ++ [P; C; K; R_; A]) = Some v ->
  mseq true meter_lines
       (U "Было" ++ [32; 45; 32]%N ++ P ++ [32%N] ++ U "Стало" ++ [32; 45; 32]%N ++ C
        ++ [32%N] ++ K ++ [32; 42; 32]%N ++ R_ ++ [32; 61; 32]%N ++ A ++ s) caps k = Some v.
Proof.
  intros H. unfold meter_lines.
  apply fwd_lits; [vm_compute; reflexivity|]. cbn [app].
  apply (fwd_ws true [32%N]); [repeat constructor|vm_compute; reflexivity|].
  apply fwd_lit; [vm_compute; reflexivity|].
  apply (fwd_ws true [32%N]); [repeat constructor|apply ascii_digits_head; exact HP|].
  apply fwd_grp_digits; [exact HP|vm_compute; reflexivity|].
  apply (fwd_ws true [32%N]); [repeat constructor|vm_compute; reflexivity|].
  apply fwd_lits; [vm_compute; reflexivity|]. cbn [app].
  apply (fwd_ws true [32%N]); [repeat constructor|vm_compute; reflexivity|].
  apply fwd_lit; [vm_compute; reflexivity|].
  apply (fwd_ws true [32%N]); [repeat constructor|apply ascii_digits_head; exact HC|].
  apply fwd_grp_digits; [exact HC|vm_compute; reflexivity|].
  apply (fwd_ws true [32%N]); [repeat constructor|apply plain_text_head; exact HK|].
  apply fwd_cost_line. rewrite <- !app_assoc. exact H.
Qed.

End Lines.

(** *** Where a search does not stop *)

Lemma mseq_lits_mismatch {R : Type} (ic : bool) (t : str) :
  forall (w s : str) rs caps (k : str -> list str -> option R),
    mismatch ic t w = true -> mseq ic (lits t ++ rs) (w ++ s) caps k = None.
Proof.
  induction t as [|a t IH]; intros [|x w] s rs caps k E; cbn [mismatch] in E;
    try discriminate.
  cbn [lits map app]. rewrite mseq_cons. cbn [mre].
  destruct (lit_eq ic a x); [|reflexivity]. apply IH. exact E.
Qed.

(** The search passes over a text none of whose positions starts the label
    of the pattern. *)
Lemma search_skip_lit (ic : bool) (t : str) (rs : list re) (w s : str) :
  all_mismatch ic t w = true ->
  search ic (lits t ++ rs) (w ++ s) = search ic (lits t ++ rs) s.
Proof.
  induction w as [|x w IH]; intros E; [reflexivity|].
  cbn [all_mismatch] in E. apply andb_true_iff in E as [E1 E2].
  cbn [app]. rewrite search_step; [apply IH; exact E2|].
  unfold match_at. apply (mseq_lits_mismatch ic t (x :: w)). exact E1.
Qed.

(** The search passes over a number. *)
Lemma search_skip_number (ic : bool) (t : str) (rs : list re) (w s : str) :
  avoids_numbers ic t = true -> plain_text w ->
  search ic (lits t ++ rs) (w ++ s) = search ic (lits t ++ rs) s.
Proof.
  intros Ha Hw. apply plain_text_chars in Hw as [_ Hw].
  induction Hw as [|x w Hx Hw IH]; [reflexivity|].
  cbn [app]. rewrite search_step; [exact IH|].
  unfold match_at. apply (mseq_lits_mismatch ic t [x]).
  destruct t as [|a t]; [discriminate|]. cbn [avoids_numbers] in Ha. cbn [mismatch].
  rewrite forallb_forall in Ha. specialize (Ha x Hx).
  destruct (lit_eq ic a x); [discriminate|reflexivity].
Qed.

Lemma search_skip_digits (ic : bool) (t : str) (rs : list re) (w s : str) :
  avoids_numbers ic t = true -> ascii_digits w ->
  search ic (lits t ++ rs) (w ++ s) = search ic (lits t ++ rs) s.
Proof. intros Ha Hw. apply search_skip_number; [exact Ha|apply ascii_digits_plain; exact Hw]. Qed.

(** *** Cleaning a written report *)

Lemma collapse_ws_app (w : str) : forall (b : bool) (s : str),
  collapse_ws b (w ++ s) = collapse_ws b w ++ collapse_ws (ends_in_space b w) s.
Proof.
  induction w as [|x w IH]; intros b s; [reflexivity|].
  cbn [app collapse_ws].
  assert (ends_in_space b (x :: w) = ends_in_space (is_space x) w) as ->.
  { unfold ends_in_space. destruct w as [|y w]; [reflexivity|].
    change (last (x :: y :: w)) with (last (y :: w)).
    destruct (last (y :: w)) eqn:E; [reflexivity|apply last_None in E; discriminate]. }
  destruct (is_space x) eqn:E.
  - destruct b; rewrite IH; reflexivity.
  - rewrite IH. reflexivity.
Qed.

Lemma collapse_nospace (w : str) : nospace w -> forall b, collapse_ws b w = w.
Proof.
  intros H. induction H as [|x w Hx Hw IH]; intros b; [reflexivity|].
  cbn [collapse_ws]. rewrite Hx, IH. reflexivity.
Qed.

Lemma ends_nospace (w : str) (b : bool) : nospace w -> w <> [] -> ends_in_space b w = false.
Proof.
  intros H Hne. unfold ends_in_space.
  destruct (last w) as [c|] eqn:E.
  - apply last_Some in E as [l' ->]. apply Forall_app in H as [_ H]. inversion H; assumption.
  - apply last_None in E. congruence.
Qed.

Lemma ascii_digits_nospace (w : str) : ascii_digits w -> nospace w.
Proof. intros [_ H]. eapply Forall_impl; [exact H|]. apply ascii_digit_not_space. Qed.

Lemma plain_text_nospace (w : str) : plain_text w -> nospace w.
Proof.
  intros H. apply plain_text_chars in H as [_ H]. eapply Forall_impl; [exact H|].
  intros x Hx. cbn [In] in Hx.
  repeat (destruct Hx as [<-|Hx]; [vm_compute; reflexivity|]). destruct Hx.
Qed.

Lemma plain_text_nonempty (w : str) : plain_text w -> w <> [].
Proof. intros H. apply plain_text_chars in H as [H _]. exact H. Qed.

Lemma lstrip_head (x : N) (s : str) : is_space x = false -> lstrip (x :: s) = x :: s.
Proof. intros H. cbn [lstrip]. rewrite H. reflexivity. Qed.

(** A text that begins and ends with a character that is no white space is
    left alone by [strip]. *)
Lemma strip_id (x : N) (a w : str) :
  is_space x = false -> nospace w -> w <> [] -> strip (x :: a ++ w) = x :: a ++ w.
Proof.
  intros Hx Hw Hne. unfold strip. rewrite lstrip_head by exact Hx.
  destruct (last w) as [c|] eqn:E; [|apply last_None in E; congruence].
  apply last_Some in E as [w' ->].
  apply Forall_app in Hw as [_ Hc]. inversion Hc as [|? ? Hc' _]; subst.
  assert (x :: a ++ w' ++ [c] = (x :: a ++ w') ++ [c]) as ->
    by (cbn [app]; rewrite <- app_assoc; reflexivity).
  set (t := x :: a ++ w'). rewrite rev_app_distr. cbn [rev app].
  rewrite lstrip_head by exact Hc'. cbn [rev]. rewrite rev_involutive. reflexivity.
Qed.

(** *** From the laid-out report to its line *)

Lemma ends_nonspace_app (w s : str) : ends_nonspace s -> ends_nonspace (w ++ s).
Proof. intros (a & c & -> & H). exists (w ++ a), c. rewrite app_assoc. auto. Qed.

Lemma ends_nonspace_of (w : str) : nospace w -> w <> [] -> ends_nonspace w.
Proof.
  intros H Hne. destruct (last w) as [c|] eqn:E; [|apply last_None in E; congruence].
  apply last_Some in E as [a ->]. exists a, c. split; [reflexivity|].
  apply Forall_app in H as [_ H]. inversion H; assumption.
Qed.

Lemma strip_keeps (s : str) :
  match s with x :: _ => is_space x = false | [] => False end ->
  ends_nonspace s -> strip s = s.
Proof.
  destruct s as [|x s]; [intros []|]. intros Hx (a & c & E & Hc).
  unfold strip. rewrite lstrip_head by exact Hx. rewrite E.
  rewrite rev_app_distr. cbn [rev app]. rewrite lstrip_head by exact Hc.
  cbn [rev]. rewrite rev_involutive. reflexivity.
Qed.

Section Layout.
Variables (P C K R_ A rest : str).
Hypothesis (HP : ascii_digits P) (HC : ascii_digits C).
Hypothesis (HK : plain_text K) (HR : plain_text R_) (HA : plain_text A).

Ltac numbers_clean :=
  rewrite ?(collapse_nospace P), ?(collapse_nospace C), ?(collapse_nospace K),
    ?(collapse_nospace R_), ?(collapse_nospace A),
    ?(ends_nospace P), ?(ends_nospace C), ?(ends_nospace K), ?(ends_nospace R_),
    ?(ends_nospace A);
  auto using ascii_digits_nospace, plain_text_nospace, plain_text_nonempty;
  try (apply HP); try (apply HC).

Lemma clean_cost_line (b : bool) :
  collapse_ws b (K ++ U " * " ++ R_ ++ U " = " ++ A ++ nl ++ nl ++ rest)
  = K ++ U " * " ++ R_ ++ U " = " ++ A ++ U " " ++ collapse_ws true rest.
Proof.
  rewrite !collapse_ws_app. numbers_clean; try (vm_compute; reflexivity).
Qed.

Lemma clean_meter_text (label : str) (b : bool) :
  (forall b', collapse_ws b' label = label) ->
  (forall b', ends_in_space b' label = false) ->
  collapse_ws b (meter_text label P C K R_ A rest)
  = meter_line label P C K R_ A (collapse_ws true rest).
Proof.
  intros H1 H2. unfold meter_text, meter_line.
  rewrite (collapse_ws_app label), H1, H2. f_equal.
  rewrite (collapse_ws_app nl), (collapse_ws_app (U "Было - ")), (collapse_ws_app P),
    (collapse_ws_app nl), (collapse_ws_app (U "Стало - ")), (collapse_ws_app C),
    (collapse_ws_app nl), (collapse_ws_app nl).
  rewrite clean_cost_line. numbers_clean; try (vm_compute; reflexivity).
Qed.

Lemma clean_disposal_text (b : bool) :
  collapse_ws b (disposal_text K R_ A rest) = disposal_line K R_ A (collapse_ws true rest).
Proof.
  unfold disposal_text, disposal_line.
  rewrite (collapse_ws_app (U "Водоотведение:")), (collapse_ws_app nl).
  rewrite clean_cost_line. destruct b; vm_compute; reflexivity.
Qed.

Lemma ends_meter_text (label : str) : ends_nonspace rest -> ends_nonspace (meter_text label P C K R_ A rest).
Proof. intros H. unfold meter_text. repeat apply ends_nonspace_app. exact H. Qed.

Lemma ends_disposal_text : ends_nonspace rest -> ends_nonspace (disposal_text K R_ A rest).
Proof. intros H. unfold disposal_text. repeat apply ends_nonspace_app. exact H. Qed.

(** *** Passing over a section *)

Lemma skip_meter_line (label t : str) (rs : list re) :
  passes_meter_line t label = true ->
  search true (lits t ++ rs) (meter_line label P C K R_ A rest)
  = search true (lits t ++ rs) rest.
Proof.
  unfold passes_meter_line. intros H.
  repeat (apply andb_true_iff in H as [H ?]).
  unfold meter_line.
  rewrite (search_skip_lit true t rs label) by assumption.
  rewrite (search_skip_lit true t rs (U " Было - ")) by assumption.
  rewrite (search_skip_digits true t rs P) by assumption.
  rewrite (search_skip_lit true t rs (U " Стало - ")) by assumption.
  rewrite (search_skip_digits true t rs C) by assumption.
  rewrite (search_skip_lit true t rs (U " ")) by assumption.
  rewrite (search_skip_number true t rs K) by assumption.
  rewrite (search_skip_lit true t rs (U " * ")) by assumption.
  rewrite (search_skip_number true t rs R_) by assumption.
  rewrite (search_skip_lit true t rs (U " = ")) by assumption.
  rewrite (search_skip_number true t rs A) by assumption.
  rewrite (search_skip_lit true t rs (U " ")) by assumption.
  reflexivity.
Qed.

Lemma skip_disposal_line (t : str) (rs : list re) :
  passes_disposal_line t = true ->
  search true (lits t ++ rs) (disposal_line K R_ A rest)
  = search true (lits t ++ rs) rest.
Proof.
  unfold passes_disposal_line. intros H.
  repeat (apply andb_true_iff in H as [H ?]).
  unfold disposal_line.
  rewrite (search_skip_lit true t rs (U "Водоотведение: ")) by assumption.
  rewrite (search_skip_number true t rs K) by assumption.
  rewrite (search_skip_lit true t rs (U " * ")) by assumption.
  rewrite (search_skip_number true t rs R_) by assumption.
  rewrite (search_skip_lit true t rs (U " = ")) by assumption.
  rewrite (search_skip_number true t rs A) by assumption.
  rewrite (search_skip_lit true t rs (U " ")) by assumption.
  reflexivity.
Qed.

(** *** Matching a section *)

Lemma meter_line_pieces (label : str) :
  meter_line label P C K R_ A rest
  = label ++ [32%N] ++ U "Было" ++ [32; 45; 32]%N ++ P ++ [32%N] ++ U "Стало"
    ++ [32; 45; 32]%N ++ C ++ [32%N] ++ K ++ [32; 42; 32]%N ++ R_ ++ [32; 61; 32]%N ++ A
    ++ [32%N] ++ rest.
Proof. unfold meter_line. reflexivity. Qed.

Lemma search_cold_water :
  search true (lits (U "Хол.") ++ [ws] ++ lits (U "вода:") ++ [ws] ++ meter_lines)
         (meter_line (U "Хол. вода:") P C K R_ A rest) = Some [P; C; K; R_; A].
Proof.
  rewrite meter_line_pieces.
  assert (forall X, U "Хол. вода:" ++ X = U "Хол." ++ [32%N] ++ U "вода:" ++ X) as ->
    by (intros X; vm_compute; reflexivity).
  eapply search_here. unfold match_at.
  apply fwd_lits; [vm_compute; reflexivity|]. cbn [app].
  apply (fwd_ws true [32%N]); [repeat constructor|vm_compute; reflexivity|].
  apply fwd_lits; [vm_compute; reflexivity|]. cbn [app].
  apply (fwd_ws true [32%N]); [repeat constructor|vm_compute; reflexivity|].
  apply fwd_meter_lines; try assumption; [vm_compute; split; reflexivity|].
  cbn [app]. reflexivity.
Qed.

Lemma search_hot_water :
  search true (lits (U "Гор.") ++ [ws] ++ lits (U "вода:") ++ [ws] ++ meter_lines)
         (meter_line (U "Гор. вода:") P C K R_ A rest) = Some [P; C; K; R_; A].
Proof.
  rewrite meter_line_pieces.
  assert (forall X, U "Гор. вода:" ++ X = U "Гор." ++ [32%N] ++ U "вода:" ++ X) as ->
    by (intros X; vm_compute; reflexivity).
  eapply search_here. unfold match_at.
  apply fwd_lits; [vm_compute; reflexivity|]. cbn [app].
  apply (fwd_ws true [32%N]); [repeat constructor|vm_compute; reflexivity|].
  apply fwd_lits; [vm_compute; reflexivity|]. cbn [app].
  apply (fwd_ws true [32%N]); [repeat constructor|vm_compute; reflexivity|].
  apply fwd_meter_lines; try assumption; [vm_compute; split; reflexivity|].
  cbn [app]. reflexivity.
Qed.

Lemma search_electricity :
  search true (lits (U "Электроэнергия:") ++ [ws] ++ meter_lines)
         (meter_line (U "Электроэнергия:") P C K R_ A rest) = Some [P; C; K; R_; A].
Proof.
  rewrite meter_line_pieces.
  eapply search_here. unfold match_at.
  apply fwd_lits; [vm_compute; reflexivity|]. cbn [app].
  apply (fwd_ws true [32%N]); [repeat constructor|vm_compute; reflexivity|].
  apply fwd_meter_lines; try assumption; [vm_compute; split; reflexivity|].
  cbn [app]. reflexivity.
Qed.

Lemma search_water_disposal :
  search true (lits (U "Водоотведение:") ++ [ws] ++ cost_line) (disposal_line K R_ A rest)
  = Some [K; R_; A].
Proof.
  assert (disposal_line K R_ A rest
          = U "Водоотведение:" ++ [32%N] ++ K ++ [32; 42; 32]%N ++ R_ ++ [32; 61; 32]%N ++ A
            ++ [32%N] ++ rest) as -> by (unfold disposal_line; vm_compute; reflexivity).
  eapply search_here. unfold match_at.
  apply fwd_lits; [vm_compute; reflexivity|]. cbn [app].
  apply (fwd_ws true [32%N]); [repeat constructor|apply plain_text_head; exact HK|].
  apply fwd_cost_line; try assumption; [vm_compute; split; reflexivity|].
  cbn [app]. reflexivity.
Qed.

End Layout.

(** *** The date *)

Ltac div_lia := zify; Z.to_euclidean_division_equations; lia.

Lemma year_digits (y : N) :
  (1000 <= y <= 9999)%N ->
  digits_of y = [48 + y / 1000; 48 + (y / 100) mod 10; 48 + (y / 10) mod 10; 48 + y mod 10]%N.
Proof.
  intros H.
  rewrite (digits_of_big y) by lia.
  rewrite (digits_of_big (y / 10)) by div_lia.
  rewrite (digits_of_big (y / 10 / 10)) by div_lia.
  rewrite (digits_of_small (y / 10 / 10 / 10)) by div_lia.
  cbn [app]. replace (y / 10 / 10 / 10)%N with (y / 1000)%N by div_lia.
  replace (y / 10 / 10)%N with (y / 100)%N by div_lia. reflexivity.
Qed.

Lemma day_written (D : Z) :
  1 <= D <= 31 ->
  exists d1 d2, two_digits D = [d1; d2] /\ ascii_digit d1 /\ ascii_digit d2
                /\ day_of d1 d2 = Some D.
Proof.
  intros H.
  assert (D = 1 \/ D = 2 \/ D = 3 \/ D = 4 \/ D = 5 \/ D = 6 \/ D = 7 \/ D = 8 \/ D = 9 \/ D = 10 \/ D = 11 \/ D = 12 \/ D = 13 \/ D = 14 \/ D = 15 \/ D = 16 \/ D = 17 \/ D = 18 \/ D = 19 \/ D = 20 \/ D = 21 \/ D = 22 \/ D = 23 \/ D = 24 \/ D = 25 \/ D = 26 \/ D = 27 \/ D = 28 \/ D = 29 \/ D = 30 \/ D = 31) as Hc by lia.
  repeat (destruct Hc as [->|Hc];
          [eexists; eexists; split; [vm_compute; reflexivity|];
           split; [unfold ascii_digit; lia|];
           split; [unfold ascii_digit; lia|vm_compute; reflexivity]|]).
  subst D. eexists. eexists. split; [vm_compute; reflexivity|].
  split; [unfold ascii_digit; lia|]. split; [unfold ascii_digit; lia|vm_compute; reflexivity].
Qed.

Lemma month_written (M : Z) :
  1 <= M <= 12 ->
  exists m1 m2, two_digits M = [m1; m2] /\ ascii_digit m1 /\ ascii_digit m2
                /\ month_of m1 m2 = Some M.
Proof.
  intros H.
  assert (M = 1 \/ M = 2 \/ M = 3 \/ M = 4 \/ M = 5 \/ M = 6 \/ M = 7 \/ M = 8 \/ M = 9 \/ M = 10 \/ M = 11 \/ M = 12) as Hc by lia.
  repeat (destruct Hc as [->|Hc];
          [eexists; eexists; split; [vm_compute; reflexivity|];
           split; [unfold ascii_digit; lia|];
           split; [unfold ascii_digit; lia|vm_compute; reflexivity]|]).
  subst M. eexists. eexists. split; [vm_compute; reflexivity|].
  split; [unfold ascii_digit; lia|]. split; [unfold ascii_digit; lia|vm_compute; reflexivity].
Qed.

Lemma year_written (Y : Z) :
  1000 <= Y <= 9999 ->
  exists y1 y2 y3 y4, digits_of (Z.to_N Y) = [y1; y2; y3; y4]
    /\ ascii_digit y1 /\ ascii_digit y2 /\ ascii_digit y3 /\ ascii_digit y4
    /\ year_of y1 y2 y3 y4 = Some Y.
Proof.
  intros H. rewrite year_digits by lia. set (y := Z.to_N Y).
  assert (ascii_digit (48 + y / 1000) /\ ascii_digit (48 + (y / 100) mod 10)
          /\ ascii_digit (48 + (y / 10) mod 10) /\ ascii_digit (48 + y mod 10))%N
    as (H1 & H2 & H3 & H4) by (unfold ascii_digit, y; repeat split; div_lia).
  do 4 eexists. split; [reflexivity|]. repeat (split; [assumption|]).
  unfold year_of. rewrite !todecimal_ascii by assumption. f_equal. unfold y. div_lia.
Qed.

Lemma strptime_dmy_parts (d1 d2 m1 m2 y1 y2 y3 y4 : N) (D M Y : Z) :
  day_of d1 d2 = Some D -> month_of m1 m2 = Some M -> year_of y1 y2 y3 y4 = Some Y ->
  Y <> 0 -> D <= days_in_month Y M ->
  strptime_dmy [d1; d2; 46%N; m1; m2; 46%N; y1; y2; y3; y4] = Ok (mkDate Y M D).
Proof.
  intros Hd Hm Hy Hy0 Hdm. unfold strptime_dmy. cbv zeta.
  fold (day_of d1 d2). fold (month_of m1 m2). fold (year_of y1 y2 y3 y4).
  rewrite Hd, Hm, Hy. cbn [N.eqb Pos.eqb andb negb].
  replace (Y =? 0) with false by (symmetry; apply Z.eqb_neq; exact Hy0).
  replace (days_in_month Y M <? D) with false by (symmetry; apply Z.ltb_ge; exact Hdm).
  reflexivity.
Qed.

(** Reading a written date gives the date back. *)
Lemma strptime_strftime (now : datetime) :
  valid_date now ->
  strptime_dmy (strftime_dmy now) = Ok (mkDate (year now) (month now) (day now))
  /\ exists d1 d2 m1 m2 y1 y2 y3 y4,
       strftime_dmy now = [d1; d2; 46; m1; m2; 46; y1; y2; y3; y4]%N
       /\ Forall ascii_digit [d1; d2; m1; m2; y1; y2; y3; y4].
Proof.
  destruct now as [Y M D]. unfold valid_date. cbn [year month day]. intros (HY & HM & HD).
  assert (1 <= D <= 31) as HD'.
  { split; [lia|]. destruct HD as [_ HD]. unfold days_in_month in HD.
    repeat match type of HD with context [if ?b then _ else _] => destruct b end; lia. }
  destruct (day_written D HD') as (d1 & d2 & Ed & A1 & A2 & Pd).
  destruct (month_written M HM) as (m1 & m2 & Em & A3 & A4 & Pm).
  destruct (year_written Y HY) as (y1 & y2 & y3 & y4 & Ey & A5 & A6 & A7 & A8 & Py).
  unfold strftime_dmy. cbn [year month day]. rewrite Ed, Em, Ey. cbn [app]. split.
  - apply strptime_dmy_parts; try assumption; lia.
  - do 8 eexists. split; [reflexivity|].
    repeat (constructor; [assumption|]). constructor.
Qed.

(** *** The total and the date *)

Section Closing.
Variables (T : str) (d1 d2 m1 m2 y1 y2 y3 y4 : N).
Hypothesis (HT : plain_text T).
Hypothesis (Hd : Forall ascii_digit [d1; d2; m1; m2; y1; y2; y3; y4]).

Let date_str : str := [d1; d2; 46; m1; m2; 46; y1; y2; y3; y4]%N.

Lemma closing_line_pieces :
  closing_line T date_str
  = U "Итого:" ++ [32%N] ++ T ++ [32%N] ++ U "#счетчики" ++ [32%N] ++ date_str.
Proof. unfold closing_line. reflexivity. Qed.

Lemma search_total :
  search true (lits (U "Итого:") ++ [ws; Grp number]) (closing_line T date_str) = Some [T].
Proof.
  rewrite closing_line_pieces. eapply search_here. unfold match_at.
  apply fwd_lits; [vm_compute; reflexivity|].
  apply (fwd_ws true [32%N]); [repeat constructor|apply plain_text_head; exact HT|].
  apply fwd_grp_number; [exact HT|vm_compute; split; reflexivity|].
  rewrite mseq_nil. cbn [app]. reflexivity.
Qed.

Lemma search_date :
  search true
    (lits (U "#счетчики")
     ++ [ws; Grp [Cls CDigit; Cls CDigit; Lit 46; Cls CDigit; Cls CDigit; Lit 46;
                   Cls CDigit; Cls CDigit; Cls CDigit; Cls CDigit]])
    (closing_line T date_str) = Some [date_str].
Proof.
  rewrite closing_line_pieces.
  rewrite (search_skip_lit true _ _ (U "Итого:")) by (vm_compute; reflexivity).
  rewrite (search_skip_lit true _ _ [32%N]) by (vm_compute; reflexivity).
  rewrite (search_skip_number true _ _ T) by (first [vm_compute; reflexivity|exact HT]).
  rewrite (search_skip_lit true _ _ [32%N]) by (vm_compute; reflexivity).
  assert (Forall (fun x => in_class CDigit x = true) [d1; d2; m1; m2; y1; y2; y3; y4]) as Hc
    by (apply Forall_ascii_class; exact Hd).
  inversion Hc as [|? ? C1 Hc1]; subst. inversion Hc1 as [|? ? C2 Hc2]; subst.
  inversion Hc2 as [|? ? C3 Hc3]; subst. inversion Hc3 as [|? ? C4 Hc4]; subst.
  inversion Hc4 as [|? ? C5 Hc5]; subst. inversion Hc5 as [|? ? C6 Hc6]; subst.
  inversion Hc6 as [|? ? C7 Hc7]; subst. inversion Hc7 as [|? ? C8 Hc8]; subst.
  eapply search_here. unfold match_at.
  apply fwd_lits; [vm_compute; reflexivity|].
  apply (fwd_ws true [32%N]); [repeat constructor| |].
  { unfold date_str. apply ascii_digit_not_space. inversion Hd; assumption. }
  apply fwd_grp. unfold date_str.
  apply fwd_cls; [exact C1|]. apply fwd_cls; [exact C2|].
  apply fwd_lit; [vm_compute; reflexivity|].
  apply fwd_cls; [exact C3|]. apply fwd_cls; [exact C4|].
  apply fwd_lit; [vm_compute; reflexivity|].
  apply fwd_cls; [exact C5|]. apply fwd_cls; [exact C6|].
  apply fwd_cls; [exact C7|]. apply fwd_cls; [exact C8|].
  rewrite !mseq_nil. cbn [app length Nat.sub take]. reflexivity.
Qed.

Lemma clean_closing_text :
  collapse_ws true (closing_text T date_str) = closing_line T date_str.
Proof.
  unfold closing_text, closing_line.
  assert (nospace date_str) as Hn.
  { unfold date_str. inversion Hd as [|? ? D1 Hd1]; subst. inversion Hd1 as [|? ? D2 Hd2]; subst.
    inversion Hd2 as [|? ? D3 Hd3]; subst. inversion Hd3 as [|? ? D4 Hd4]; subst.
    inversion Hd4 as [|? ? D5 Hd5]; subst. inversion Hd5 as [|? ? D6 Hd6]; subst.
    inversion Hd6 as [|? ? D7 Hd7]; subst. inversion Hd7 as [|? ? D8 Hd8]; subst.
    repeat (constructor; [first [apply ascii_digit_not_space; assumption
                                |vm_compute; reflexivity]|]). constructor. }
  rewrite (collapse_ws_app (U "Итого: ")), (collapse_ws_app T), (collapse_ws_app nl),
    (collapse_ws_app nl), (collapse_ws_app (U "#счетчики ")).
  rewrite (collapse_nospace T) by (apply plain_text_nospace; exact HT).
  rewrite (ends_nospace T) by (first [apply plain_text_nospace; exact HT
                                     |apply plain_text_nonempty; exact HT]).
  rewrite (collapse_nospace date_str) by exact Hn.
  vm_compute. reflexivity.
Qed.

Lemma ends_closing_text : ends_nonspace (closing_text T date_str).
Proof.
  unfold closing_text. repeat apply ends_nonspace_app.
  exists [d1; d2; 46; m1; m2; 46; y1; y2; y3]%N, y4. split; [reflexivity|].
  apply ascii_digit_not_space.
  inversion Hd as [|? ? D1 Hd1]; subst. inversion Hd1 as [|? ? D2 Hd2]; subst.
  inversion Hd2 as [|? ? D3 Hd3]; subst. inversion Hd3 as [|? ? D4 Hd4]; subst.
  inversion Hd4 as [|? ? D5 Hd5]; subst. inversion Hd5 as [|? ? D6 Hd6]; subst.
  inversion Hd6 as [|? ? D7 Hd7]; subst. inversion Hd7 as [|? ? D8 Hd8]; subst. assumption.
Qed.

End Closing.

(** *** The whole report *)

Section Report.
Variables (P1 C1 K1 R1 A1 P2 C2 K2 R2 A2 K3 R3 A3 P4 C4 K4 R4 A4 T : str).
Variables (d1 d2 m1 m2 y1 y2 y3 y4 : N).
Hypothesis (HP1 : ascii_digits P1) (HC1 : ascii_digits C1).
Hypothesis (HK1 : plain_text K1) (HR1 : plain_text R1) (HA1 : plain_text A1).
Hypothesis (HP2 : ascii_digits P2) (HC2 : ascii_digits C2).
Hypothesis (HK2 : plain_text K2) (HR2 : plain_text R2) (HA2 : plain_text A2).
Hypothesis (HK3 : plain_text K3) (HR3 : plain_text R3) (HA3 : plain_text A3).
Hypothesis (HP4 : ascii_digits P4) (HC4 : ascii_digits C4).
Hypothesis (HK4 : plain_text K4) (HR4 : plain_text R4) (HA4 : plain_text A4).
Hypothesis (HT : plain_text T).
Hypothesis (Hd : Forall ascii_digit [d1; d2; m1; m2; y1; y2; y3; y4]).

Let date_str : str := [d1; d2; 46; m1; m2; 46; y1; y2; y3; y4]%N.

Let text : str :=
  meter_text (U "Хол. вода:") P1 C1 K1 R1 A1
    (meter_text (U "Гор. вода:") P2 C2 K2 R2 A2
       (disposal_text K3 R3 A3
          (meter_text (U "Электроэнергия:") P4 C4 K4 R4 A4 (closing_text T date_str)))).

Let line : str :=
  meter_line (U "Хол. вода:") P1 C1 K1 R1 A1
    (meter_line (U "Гор. вода:") P2 C2 K2 R2 A2
       (disposal_line K3 R3 A3
          (meter_line (U "Электроэнергия:") P4 C4 K4 R4 A4 (closing_line T date_str)))).

Lemma clean_text : clean text = line.
Proof.
  unfold clean, text, line, date_str. rewrite strip_keeps.
  - rewrite clean_meter_text; try assumption;
      [|intros []; vm_compute; reflexivity|intros []; vm_compute; reflexivity].
    rewrite clean_meter_text; try assumption;
      [|intros []; vm_compute; reflexivity|intros []; vm_compute; reflexivity].
    rewrite clean_disposal_text; try assumption.
    rewrite clean_meter_text; try assumption;
      [|intros []; vm_compute; reflexivity|intros []; vm_compute; reflexivity].
    rewrite clean_closing_text; try assumption. reflexivity.
  - vm_compute. reflexivity.
  - apply ends_meter_text, ends_meter_text, ends_disposal_text, ends_meter_text,
      ends_closing_text. exact Hd.
Qed.

Lemma line_cold_water : search true pat_cold_water line = Some [P1; C1; K1; R1; A1].
Proof. unfold line, pat_cold_water. apply search_cold_water; assumption. Qed.

Lemma line_hot_water : search true pat_hot_water line = Some [P2; C2; K2; R2; A2].
Proof.
  unfold line, pat_hot_water.
  rewrite skip_meter_line by (first [assumption|vm_compute; reflexivity]).
  apply search_hot_water; assumption.
Qed.

Lemma line_water_disposal : search true pat_water_disposal line = Some [K3; R3; A3].
Proof.
  unfold line, pat_water_disposal.
  rewrite skip_meter_line by (first [assumption|vm_compute; reflexivity]).
  rewrite skip_meter_line by (first [assumption|vm_compute; reflexivity]).
  apply search_water_disposal; assumption.
Qed.

Lemma line_electricity : search true pat_electricity line = Some [P4; C4; K4; R4; A4].
Proof.
  unfold line, pat_electricity.
  rewrite skip_meter_line by (first [assumption|vm_compute; reflexivity]).
  rewrite skip_meter_line by (first [assumption|vm_compute; reflexivity]).
  rewrite skip_disposal_line by (first [assumption|vm_compute; reflexivity]).
  apply search_electricity; assumption.
Qed.

Lemma line_total : search true pat_total line = Some [T].
Proof.
  unfold line, date_str, pat_total.
  rewrite skip_meter_line by (first [assumption|vm_compute; reflexivity]).
  rewrite skip_meter_line by (first [assumption|vm_compute; reflexivity]).
  rewrite skip_disposal_line by (first [assumption|vm_compute; reflexivity]).
  rewrite skip_meter_line by (first [assumption|vm_compute; reflexivity]).
  apply search_total; assumption.
Qed.

Lemma line_date : search true pat_date line = Some [date_str].
Proof.
  unfold line, date_str, pat_date.
  rewrite skip_meter_line by (first [assumption|vm_compute; reflexivity]).
  rewrite skip_meter_line by (first [assumption|vm_compute; reflexivity]).
  rewrite skip_disposal_line by (first [assumption|vm_compute; reflexivity]).
  rewrite skip_meter_line by (first [assumption|vm_compute; reflexivity]).
  apply search_date; assumption.
Qed.

End Report.

(** *** Reading the report back *)

Lemma render_layout (inp : InputData) (c : Calculation) (date_str : str) :
  render inp c date_str
  = meter_text (U "Хол. вода:") (dec_to_str (c_cw_old c)) (dec_to_str (cw inp))
      (dec_to_str (c_cw_cons c)) (dec_to_str (c_cw_rate c)) (dec_to_str (c_cw_amt c))
    (meter_text (U "Гор. вода:") (dec_to_str (c_hw_old c)) (dec_to_str (hw inp))
      (dec_to_str (c_hw_cons c)) (dec_to_str (c_hw_rate c)) (dec_to_str (c_hw_amt c))
    (disposal_text
      (dec_to_str (c_wd_cons c)) (dec_to_str (c_wd_rate c)) (dec_to_str (c_wd_amt c))
    (meter_text (U "Электроэнергия:") (dec_to_str (c_el_old c)) (dec_to_str (el inp))
      (dec_to_str (c_el_cons c)) (dec_to_str (c_el_rate c)) (dec_to_str (c_el_amt c))
    (closing_text (dec_to_str (c_total c)) date_str)))).
Proof. unfold render, meter_text, disposal_text, closing_text. reflexivity. Qed.

Lemma metered_reading_written (p cu k r a : Dec) :
  integral p -> integral cu -> plain k -> plain r -> plain a ->
  metered_reading [dec_to_str p; dec_to_str cu; dec_to_str k; dec_to_str r; dec_to_str a]
  = Ok (mkReading p cu k r a).
Proof.
  intros Hp Hcu Hk Hr Ha. unfold metered_reading.
  rewrite (normalize_plain p) by (apply integral_plain; exact Hp).
  rewrite (normalize_plain cu) by (apply integral_plain; exact Hcu).
  rewrite (normalize_plain k), (normalize_plain r), (normalize_plain a) by assumption.
  reflexivity.
Qed.

Lemma disposal_reading_written (cold hot : UtilityReading) (k r a s : Dec) :
  plain k -> plain r -> plain a ->
  dec_add (mkDec false 0 0) (consumption cold) = Ok (consumption cold) ->
  dec_add (consumption cold) (consumption hot) = Ok s ->
  disposal_reading (Some cold) (Some hot) [dec_to_str k; dec_to_str r; dec_to_str a]
  = Ok (mkReading (mkDec false 0 0) s k r a).
Proof.
  intros Hk Hr Ha H0 Hs. unfold disposal_reading.
  rewrite (normalize_plain k), (normalize_plain r), (normalize_plain a) by assumption.
  cbn [bind]. rewrite H0. cbn [bind]. rewrite Hs. reflexivity.
Qed.

(** C5 (as amended).  When every number of the report is written without
    sign and exponent, the meter readings as integers, and the date is a
    date of the calendar with a four-digit year, the report that
    [_build_message] returns is read back by [parse_message]: the cleaned
    text is the report on one line, and the bill has the four readings, the
    total and the date that the report shows, consumption and amount as
    written; the water-disposal reading has no meter, its current value is
    the sum of the two water consumptions. *)
Theorem C5_round_trip (now : datetime) (old_values : UtilityBill) (inp : InputData)
        (c : Calculation) :
  calculate old_values inp = Ok c -> printable inp c -> valid_date now ->
  exists report,
    _build_message now old_values inp = Ok report
    /\ clean report = report_line inp c (strftime_dmy now)
    /\ parse_message report = Ok (bill_of inp c now).
Proof.
  intros Hc Hp Hd. exists (render inp c (strftime_dmy now)).
  split; [unfold _build_message; rewrite Hc; reflexivity|].
  destruct (strptime_strftime now Hd)
    as (Hs & d1 & d2 & m1 & m2 & y1 & y2 & y3 & y4 & Eds & Had).
  destruct Hp as ((I1 & J1 & K1 & R1 & A1) & (I2 & J2 & K2 & R2 & A2) & (K3 & R3 & A3)
                  & (I4 & J4 & K4 & R4 & A4) & PT).
  pose proof (integral_text _ I1) as TI1. pose proof (integral_text _ J1) as TJ1.
  pose proof (plain_text_of _ K1) as TK1. pose proof (plain_text_of _ R1) as TR1.
  pose proof (plain_text_of _ A1) as TA1.
  pose proof (integral_text _ I2) as TI2. pose proof (integral_text _ J2) as TJ2.
  pose proof (plain_text_of _ K2) as TK2. pose proof (plain_text_of _ R2) as TR2.
  pose proof (plain_text_of _ A2) as TA2.
  pose proof (plain_text_of _ K3) as TK3. pose proof (plain_text_of _ R3) as TR3.
  pose proof (plain_text_of _ A3) as TA3.
  pose proof (integral_text _ I4) as TI4. pose proof (integral_text _ J4) as TJ4.
  pose proof (plain_text_of _ K4) as TK4. pose proof (plain_text_of _ R4) as TR4.
  pose proof (plain_text_of _ A4) as TA4.
  pose proof (plain_text_of _ PT) as TT.
  assert (clean (render inp c (strftime_dmy now)) = report_line inp c (strftime_dmy now))
    as Hclean.
  { rewrite render_layout, Eds. unfold report_line. apply clean_text; assumption. }
  split; [exact Hclean|].
  apply calculate_inv in Hc
    as (_ & _ & _ & _ & _ & _ & _ & S1 & S2 & S3 & _).
  unfold parse_message. cbv zeta. rewrite Hclean. unfold report_line. rewrite Eds.
  unfold section.
  rewrite line_cold_water by assumption.
  rewrite metered_reading_written by assumption. cbn [bind].
  rewrite line_hot_water by assumption.
  rewrite metered_reading_written by assumption. cbn [bind].
  rewrite line_water_disposal by assumption.
  rewrite (disposal_reading_written _ _ _ _ _ (c_wd_cons c)); try assumption.
  - cbn [bind]. rewrite line_electricity by assumption.
    rewrite metered_reading_written by assumption. cbn [bind].
    rewrite line_total by assumption. cbn [List.hd].
    rewrite normalize_plain by assumption. cbn [bind].
    rewrite line_date by assumption. cbn [List.hd].
    rewrite <- Eds, Hs. cbn [bind]. reflexivity.
  - cbn [consumption]. apply dec_add_zero_l.
    + apply K1.
    + apply K1.
    + apply (dec_sub_fixed _ _ _ S1).
Qed.

Lemma C5_witness :
  exists report,
    _build_message (mkDate 2025 7 22) old_sample inp_sample = Ok report
    /\ clean report = report_line inp_sample calc_sample (strftime_dmy (mkDate 2025 7 22))
    /\ parse_message report = Ok (bill_of inp_sample calc_sample (mkDate 2025 7 22)).
Proof.
  apply (C5_round_trip (mkDate 2025 7 22) old_sample inp_sample calc_sample).
  - reflexivity.
  - vm_compute. repeat split; first [reflexivity|discriminate].
  - vm_compute. repeat split; discriminate.
Defined.

(** C5 fails as stated: for the sample bill and a new cold-water reading of
    595.5 the report is produced and shows the reading as written, the
    cold-water pattern does not match it, and parsing fails; for new
    readings below the old ones the report is produced with a negative
    total, which the total pattern does not match. *)
Lemma C5_counterexample :
  (exists report,
     _build_message (mkDate 2025 7 22) old_sample inp_fractional = Ok report
     /\ is_infix (U "Стало - 595.5") report = true
     /\ parse_message report = Raise (ValidationError [(U "cold_water", U "missing")]))
  /\ (exists report,
        _build_message (mkDate 2025 7 22) old_sample inp_lower = Ok report
        /\ parse_message report = Raise (ValueError msg_no_total)).
Proof.
  split.
  - eexists. split; [vm_compute; reflexivity|]. split; vm_compute; reflexivity.
  - eexists. split; [vm_compute; reflexivity|]. vm_compute. reflexivity.
Qed.
